(** * Easy-Allocator: a shallow embedding of [osmem.c]

    The allocator keeps two intrusive singly linked lists of block headers
    ([struct block_meta]): the heap list, grown with [sbrk], and the list of
    individually mapped blocks, created with [mmap].

    Modelling conventions.
    - [size_t] values are integers in [0, 2^64); every [size_t] operation of
      the source is written with its wrap-around ([wrap]).
    - Pointers are integers, [0] is [NULL]; pointer arithmetic is plain
      addition (it never leaves an object in a defined execution).
    - Memory is a total map from addresses to headers.  Only headers are
      tracked: payload bytes, and therefore [memcpy] and [memset], leave the
      model state unchanged.  Headers at distinct addresses are distinct
      objects.
    - The operating system is part of the state: the program break [brk] and
      the live anonymous mappings [maps].  [sbrk] fails above [brk_limit];
      the address returned by [mmap] is an argument of the operations.
    - Limits of these conventions.  Two headers less than
      [sizeof (struct block_meta)] apart overlap in the program and are kept
      apart here: the embedding follows [split_block] only for a total of
      [0] (the new header is the old one) or of at least [META_SIZE]; a
      total in between arises only from a request whose total wraps around
      [2^64].  [munmap] drops the mapping from [maps] and leaves [mem] as it
      is: reading a header in memory the process does not hold faults in
      the program and has no counterpart here, so a statement about a
      pointer that is not a block of a list says where its header lies
      ([readable]).  [memcpy] leaves the headers alone as long as the bytes
      it writes hold no header of a list; in [os_realloc_sbrk] this can
      fail on the last-block path when a block is found, where the
      destination may contain the header of the block that was merged
      away.
    - [DIE] ends the process: the result is [Died].
    - The loops that follow [next] links take a [fuel] bound; running out of
      it is reported as [Timeout] (the C loop would still be running). *)

From Stdlib Require Import ZArith List Lia Bool.
Import ListNotations.
Open Scope Z_scope.

(** ** Machine integers *)

Definition wB : Z := 2 ^ 64.
Definition wrap (x : Z) : Z := x mod wB.
(** A [size_t] read as [intptr_t] (the argument of [sbrk]). *)
Definition to_signed (x : Z) : Z := if x <? 2 ^ 63 then x else x - wB.

(** ** Block headers and memory *)

Inductive status_t : Type := STATUS_FREE | STATUS_ALLOC | STATUS_MAPPED.

Definition status_eqb (a b : status_t) : bool :=
  match a, b with
  | STATUS_FREE, STATUS_FREE => true
  | STATUS_ALLOC, STATUS_ALLOC => true
  | STATUS_MAPPED, STATUS_MAPPED => true
  | _, _ => false
  end.

Record block_meta : Type := mk_block {
  size : Z;
  status : status_t;
  next : Z
}.

Definition memory : Type := Z -> block_meta.

Definition upd (m : memory) (a : Z) (b : block_meta) : memory :=
  fun x => if x =? a then b else m x.

Record state : Type := mk_state {
  heap_start : Z;
  mmap_start : Z;
  threshold : Z;
  mem : memory;
  brk : Z;
  maps : list (Z * Z)
}.

Definition set_heap_start (v : Z) (st : state) : state :=
  mk_state v (mmap_start st) (threshold st) (mem st) (brk st) (maps st).
Definition set_mmap_start (v : Z) (st : state) : state :=
  mk_state (heap_start st) v (threshold st) (mem st) (brk st) (maps st).
Definition set_threshold (v : Z) (st : state) : state :=
  mk_state (heap_start st) (mmap_start st) v (mem st) (brk st) (maps st).
Definition set_mem (m : memory) (st : state) : state :=
  mk_state (heap_start st) (mmap_start st) (threshold st) m (brk st) (maps st).
Definition set_brk (v : Z) (st : state) : state :=
  mk_state (heap_start st) (mmap_start st) (threshold st) (mem st) v (maps st).
Definition set_maps (v : list (Z * Z)) (st : state) : state :=
  mk_state (heap_start st) (mmap_start st) (threshold st) (mem st) (brk st) v.

(** Field stores [p->size = v], [p->status = v], [p->next = v]. *)
Definition set_size (p v : Z) (st : state) : state :=
  set_mem (upd (mem st) p (mk_block v (status (mem st p)) (next (mem st p)))) st.
Definition set_status (p : Z) (v : status_t) (st : state) : state :=
  set_mem (upd (mem st) p (mk_block (size (mem st p)) v (next (mem st p)))) st.
Definition set_next (p v : Z) (st : state) : state :=
  set_mem (upd (mem st) p (mk_block (size (mem st p)) (status (mem st p)) v)) st.

(** ** Results of a run *)

Inductive result (A : Type) : Type :=
| Done (a : A)
| Died
| Timeout.
Arguments Done {A} a.
Arguments Died {A}.
Arguments Timeout {A}.

Definition bind {A B : Type} (r : result A) (k : A -> result B) : result B :=
  match r with
  | Done a => k a
  | Died => Died
  | Timeout => Timeout
  end.

Notation "x <- c ;; k" := (bind c (fun x => k))
  (at level 61, c at next level, right associativity).
Notation "' p <- c ;; k" := (bind c (fun x => let 'p := x in k))
  (at level 61, p pattern, c at next level, right associativity).

Section Allocator.

(** [sizeof(struct block_meta)]: the structure is declared in a header that
    is not part of the sources at hand. *)
Variable sizeof_block_meta : Z.
(** The value of [getpagesize()]. *)
Variable pagesize : Z.
(** The highest program break the system grants. *)
Variable brk_limit : Z.

(** ** Macros *)

Definition ALIGNMENT : Z := 8.
Definition ALIGN (sz : Z) : Z :=
  Z.land (wrap (sz + (ALIGNMENT - 1))) (wrap (Z.lnot (ALIGNMENT - 1))).
Definition META_SIZE : Z := ALIGN sizeof_block_meta.
Definition TOT_SIZE (sz : Z) : Z := ALIGN (wrap (sz + META_SIZE)).
Definition MMAP_THRESHOLD : Z := 128 * 1024.
Definition INITIAL_HEAP_SIZE : Z := 128 * 1024.
Definition MAP_FAILED : Z := wB - 1.

Definition min_size (a b : Z) : Z := if a <? b then a else b.

(** ** System calls *)

Definition sbrk (increment : Z) (st : state) : result (Z * state) :=
  let nb := brk st + to_signed increment in
  if (0 <=? nb) && (nb <=? brk_limit)
  then Done (brk st, set_brk nb st)
  else Died.

(** [mmap(NULL, len, ...)] answering [addr]. *)
Definition mmap (addr len : Z) (st : state) : result (Z * state) :=
  if addr =? MAP_FAILED then Died
  else Done (addr, set_maps ((addr, len) :: maps st) st).

Definition munmap (addr len : Z) (st : state) : state :=
  set_maps
    (filter (fun r => negb ((fst r =? addr) && (snd r =? len))) (maps st)) st.

(** ** The allocator *)

Definition request_space (last block_size : Z) (st : state)
  : result (Z * state) :=
  if negb (last =? 0) && status_eqb (status (mem st last)) STATUS_FREE then
    let inc := wrap (block_size - TOT_SIZE (size (mem st last))) in
    '(_, st1) <- sbrk inc st ;;
    let inc1 := wrap (block_size - TOT_SIZE (size (mem st1 last))) in
    Done (last, set_size last (wrap (size (mem st1 last) + inc1)) st1)
  else
    '(block, st1) <- sbrk block_size st ;;
    let st2 := set_size block (wrap (block_size - META_SIZE)) st1 in
    let st3 := set_status block STATUS_FREE st2 in
    let st4 := set_next block 0 st3 in
    let st5 := if last =? 0 then st4 else set_next last block st4 in
    Done (block, st5).

Definition heap_init (st : state) : result state :=
  '(p, st1) <- request_space 0 INITIAL_HEAP_SIZE st ;;
  Done (set_heap_start p st1).

Definition os_malloc_mmap (addr sz : Z) (st : state) : result (Z * state) :=
  let blk_size := TOT_SIZE sz in
  '(block, st1) <- mmap addr blk_size st ;;
  let st2 := set_size block (wrap (blk_size - META_SIZE)) st1 in
  let st3 := set_status block STATUS_MAPPED st2 in
  let st4 := set_next block (mmap_start st3) st3 in
  let st5 := set_mmap_start block st4 in
  Done (block + META_SIZE, st5).

Definition can_coalesce_one_block (block : Z) (st : state) : bool :=
  if status_eqb (status (mem st block)) STATUS_FREE then
    let nxt := next (mem st block) in
    negb (nxt =? 0) && status_eqb (status (mem st nxt)) STATUS_FREE
  else false.

Fixpoint find_block_in_heap_from (fuel : nat) (current block : Z)
  (st : state) : result Z :=
  match fuel with
  | O => Timeout
  | S f =>
      if current =? 0 then Done 0
      else if current =? block then Done current
      else find_block_in_heap_from f (next (mem st current)) block st
  end.

Definition find_block_in_heap (fuel : nat) (block : Z) (st : state)
  : result Z :=
  find_block_in_heap_from fuel (heap_start st) block st.

Definition coalesce_one_block (block : Z) (st : state) : state :=
  if can_coalesce_one_block block st then
    let nxt := next (mem st block) in
    let st1 :=
      set_size block
        (wrap (size (mem st block) + TOT_SIZE (size (mem st nxt)))) st in
    set_next block (next (mem st1 nxt)) st1
  else st.

Fixpoint coalesce_blocks (fuel : nat) (block : Z) (st : state)
  : result state :=
  match fuel with
  | O => Timeout
  | S f =>
      if can_coalesce_one_block block st
      then coalesce_blocks f block (coalesce_one_block block st)
      else Done st
  end.

(** The loop of [find_best_fit]; the result carries [best_fit] and the
    final value of the out-parameter [*last]. *)
Fixpoint find_best_fit_from (fuel : nat) (best_fit current last : Z)
  (block_size : Z) (st : state) : result (Z * Z * state) :=
  match fuel with
  | O => Timeout
  | S f =>
      if current =? 0 then Done (best_fit, last, st)
      else
        st1 <- coalesce_blocks f current st ;;
        let best_fit1 :=
          if status_eqb (status (mem st1 current)) STATUS_FREE
             && (block_size <=? TOT_SIZE (size (mem st1 current)))
          then
            if (best_fit =? 0)
               || (size (mem st1 current) <? size (mem st1 best_fit))
            then current else best_fit
          else best_fit in
        find_best_fit_from f best_fit1 (next (mem st1 current)) current
          block_size st1
  end.

Definition find_best_fit (fuel : nat) (last hs block_size : Z) (st : state)
  : result (Z * Z * state) :=
  find_best_fit_from fuel 0 hs last block_size st.

Definition get_block_ptr (ptr : Z) : Z := ptr - META_SIZE.

Definition split_block (block block_size : Z) (st : state) : state :=
  let new_block := block + block_size in
  let st1 := set_size new_block (wrap (size (mem st block) - block_size)) st in
  let st2 := set_status new_block STATUS_FREE st1 in
  let st3 := set_next new_block (next (mem st2 block)) st2 in
  let st4 := set_size block (wrap (block_size - META_SIZE)) st3 in
  set_next block new_block st4.

Definition os_malloc_sbrk (fuel : nat) (sz : Z) (st : state)
  : result (Z * state) :=
  st0 <- (if heap_start st =? 0 then heap_init st else Done st) ;;
  let blk_size := TOT_SIZE sz in
  '(block, last, st1) <-
     find_best_fit fuel (heap_start st0) (heap_start st0) blk_size st0 ;;
  if block =? 0 then
    '(block1, st2) <- request_space last blk_size st1 ;;
    let st3 := set_status block1 STATUS_ALLOC st2 in
    if block1 =? 0 then Done (0, st3)
    else Done (block1 + META_SIZE, st3)
  else
    let st2 := set_status block STATUS_ALLOC st1 in
    let st3 :=
      if blk_size <? size (mem st2 block)
      then split_block block blk_size st2 else st2 in
    Done (block + META_SIZE, st3).

Definition os_malloc (fuel : nat) (addr : Z) (sz : Z) (st : state)
  : result (Z * state) :=
  if sz <=? 0 then Done (0, st)
  else
    let sz := ALIGN sz in
    let blk_size := TOT_SIZE sz in
    if blk_size <? threshold st
    then os_malloc_sbrk fuel sz st
    else os_malloc_mmap addr sz st.

Definition os_free_sbrk (fuel : nat) (ptr : Z) (st : state) : result state :=
  let block := get_block_ptr ptr in
  found <- find_block_in_heap fuel block st ;;
  if found =? 0 then Done st
  else coalesce_blocks fuel block (set_status block STATUS_FREE st).

Fixpoint os_free_mmap_from (fuel : nat) (prev current block : Z)
  (st : state) : result state :=
  match fuel with
  | O => Timeout
  | S f =>
      if current =? 0 then Done st
      else if current =? block then
        let st1 :=
          if prev =? 0 then set_mmap_start (next (mem st current)) st
          else set_next prev (next (mem st current)) st in
        Done (munmap current (TOT_SIZE (size (mem st1 current))) st1)
      else os_free_mmap_from f current (next (mem st current)) block st
  end.

Definition os_free_mmap (fuel : nat) (ptr : Z) (st : state) : result state :=
  os_free_mmap_from fuel 0 (mmap_start st) (get_block_ptr ptr) st.

Definition os_free (fuel : nat) (ptr : Z) (st : state) : result state :=
  if ptr =? 0 then Done st
  else
    let block := get_block_ptr ptr in
    if status_eqb (status (mem st block)) STATUS_MAPPED
    then os_free_mmap fuel ptr st
    else os_free_sbrk fuel ptr st.

Definition os_calloc (fuel : nat) (addr : Z) (nmemb sz : Z) (st : state)
  : result (Z * state) :=
  let st1 := set_threshold (wrap pagesize) st in
  let total_size := wrap (nmemb * sz) in
  '(ptr, st2) <- os_malloc fuel addr total_size st1 ;;
  Done (ptr, set_threshold MMAP_THRESHOLD st2).

Definition os_realloc_mmap (fuel : nat) (addr : Z) (ptr sz : Z) (st : state)
  : result (Z * state) :=
  '(new_ptr, st1) <- os_malloc fuel addr sz st ;;
  st2 <- os_free_mmap fuel ptr st1 ;;
  Done (new_ptr, st2).

(** The in-place grow loop of [os_realloc_sbrk]. *)
Fixpoint grow_in_place (fuel : nat) (block blk_size : Z) (st : state)
  : result state :=
  match fuel with
  | O => Timeout
  | S f =>
      if (TOT_SIZE (size (mem st block)) <? blk_size)
         && can_coalesce_one_block block st
      then grow_in_place f block blk_size (coalesce_one_block block st)
      else Done st
  end.

Definition os_realloc_sbrk (fuel : nat) (addr : Z) (ptr sz : Z) (st : state)
  : result (Z * state) :=
  let block := get_block_ptr ptr in
  let blk_size := TOT_SIZE sz in
  found <- find_block_in_heap fuel block st ;;
  if found =? 0 then Done (0, st)
  else if threshold st <=? blk_size then
    '(new_ptr, st1) <- os_malloc_mmap addr sz st ;;
    st2 <- os_free_sbrk fuel ptr st1 ;;
    Done (new_ptr, st2)
  else
    let old_size := size (mem st block) in
    let st1 := set_status block STATUS_FREE st in
    st2 <- grow_in_place fuel block blk_size st1 ;;
    let st3 := set_status block STATUS_ALLOC st2 in
    if blk_size <=? TOT_SIZE (size (mem st3 block)) then
      let st4 :=
        if blk_size <? size (mem st3 block)
        then split_block block blk_size st3 else st3 in
      Done (ptr, st4)
    else if next (mem st3 block) =? 0 then
      let st4 := set_status block STATUS_FREE st3 in
      '(new_block, last, st5) <-
         find_best_fit fuel (heap_start st4) (heap_start st4) blk_size st4 ;;
      if new_block =? 0 then
        let st6 := set_status block STATUS_FREE st5 in
        '(block1, st7) <- request_space last blk_size st6 ;;
        let st8 := set_status block1 STATUS_ALLOC st7 in
        if block1 =? 0 then Done (0, st8) else Done (ptr, st8)
      else
        let st6 := set_status new_block STATUS_ALLOC st5 in
        st7 <- os_free_sbrk fuel ptr st6 ;;
        Done (new_block + META_SIZE, st7)
    else
      let st4 :=
        if size (mem st3 block) =? old_size then st3
        else split_block block (TOT_SIZE old_size) st3 in
      '(new_ptr, st5) <- os_malloc_sbrk fuel sz st4 ;;
      st6 <- os_free_sbrk fuel ptr st5 ;;
      Done (new_ptr, st6).

Definition os_realloc (fuel : nat) (addr : Z) (ptr sz : Z) (st : state)
  : result (Z * state) :=
  if ptr =? 0 then os_malloc fuel addr sz st
  else if sz =? 0 then
    st1 <- os_free fuel ptr st ;;
    Done (0, st1)
  else
    let sz := ALIGN sz in
    let block := get_block_ptr ptr in
    if status_eqb (status (mem st block)) STATUS_FREE then Done (0, st)
    else if status_eqb (status (mem st block)) STATUS_MAPPED
    then os_realloc_mmap fuel addr ptr sz st
    else os_realloc_sbrk fuel addr ptr sz st.

(** The state of a process that has not called the allocator yet; [b] is the
    initial program break and [m] whatever memory holds. *)
Definition initial_state (b : Z) (m : memory) : state :=
  mk_state 0 0 MMAP_THRESHOLD m b [].

End Allocator.

(** * The heap list as a sequence of blocks

    A heap list is described by the payload sizes and statuses of its blocks
    in address order; the functions below say what each allocator step does
    to that sequence.  [M] is the header size, and offsets are counted from
    the first header. *)

Abbreviation ablock := (Z * status_t)%type.

Section BlockList.

Variable M : Z.

Definition extent (bl : list ablock) : Z :=
  fold_right (fun b acc => M + fst b + acc) 0 bl.

(** [coalesce_blocks] on a FREE block of size [s] followed by [bl]. *)
Fixpoint a_coalesce (s : Z) (bl : list ablock) : Z * list ablock :=
  match bl with
  | (s', STATUS_FREE) :: bl' => a_coalesce (s + (s' + M)) bl'
  | _ => (s, bl)
  end.

(** [coalesce_blocks] on the first block of [bl]. *)
Definition a_coalesce_head (bl : list ablock) : list ablock :=
  match bl with
  | (s, STATUS_FREE) :: bl' =>
      let '(s', r) := a_coalesce s bl' in (s', STATUS_FREE) :: r
  | _ => bl
  end.

(** The list after the traversal of [find_best_fit]. *)
Fixpoint a_merge (bl : list ablock) : list ablock :=
  match bl with
  | [] => []
  | b :: bl' => a_coalesce_head (b :: a_merge bl')
  end.

Definition fits (block_size : Z) (b : ablock) : bool :=
  status_eqb (snd b) STATUS_FREE && (block_size <=? fst b + M).

(** The choice made by [find_best_fit]: offset and size of the block kept in
    [best_fit], starting from [best] with the next block at offset [off]. *)
Fixpoint a_best (block_size off : Z) (best : option (Z * Z))
  (bl : list ablock) : option (Z * Z) :=
  match bl with
  | [] => best
  | b :: bl' =>
      let best' :=
        if fits block_size b then
          match best with
          | None => Some (off, fst b)
          | Some (_, bsz) => if fst b <? bsz then Some (off, fst b) else best
          end
        else best in
      a_best block_size (off + (M + fst b)) best' bl'
  end.

(** Offset of the last header. *)
Fixpoint last_off (bl : list ablock) : Z :=
  match bl with
  | [] => 0
  | b :: bl' =>
      match bl' with
      | [] => 0
      | _ => M + fst b + last_off bl'
      end
  end.

(** Does a header start at offset [off]? *)
Fixpoint a_find (off : Z) (bl : list ablock) : bool :=
  match bl with
  | [] => false
  | b :: bl' => (off =? 0) || a_find (off - (M + fst b)) bl'
  end.

(** Marking the block at [off] ALLOC and splitting it when its payload is
    larger than [block_size]. *)
Fixpoint a_take (off block_size : Z) (bl : list ablock) : list ablock :=
  match bl with
  | [] => []
  | (s, t) :: bl' =>
      if off =? 0 then
        if block_size <? s
        then (block_size - M, STATUS_ALLOC) :: (s - block_size, STATUS_FREE)
               :: bl'
        else (s, STATUS_ALLOC) :: bl'
      else (s, t) :: a_take (off - (M + s)) block_size bl'
  end.

(** [request_space] on the tail of a non-empty list, followed by the ALLOC
    mark: offset of the returned block and the new list. *)
Fixpoint a_extend (block_size : Z) (bl : list ablock) : Z * list ablock :=
  match bl with
  | [] => (0, [(block_size - M, STATUS_ALLOC)])
  | [(s, STATUS_FREE)] => (0, [(block_size - M, STATUS_ALLOC)])
  | b :: bl' =>
      let '(o, r) := a_extend block_size bl' in
      (M + fst b + o, b :: r)
  end.

Definition a_malloc_sbrk (sz : Z) (bl : list ablock) : Z * list ablock :=
  let bl0 :=
    match bl with
    | [] => [(131072 - M, STATUS_FREE)]
    | _ => bl
    end in
  let block_size := sz + M in
  let bl1 := a_merge bl0 in
  match a_best block_size 0 None bl1 with
  | Some (off, _) => (off, a_take off block_size bl1)
  | None => a_extend block_size bl1
  end.

(** [os_free_sbrk] on the block at [off]. *)
Fixpoint a_free (off : Z) (bl : list ablock) : list ablock :=
  match bl with
  | [] => []
  | (s, t) :: bl' =>
      if off =? 0 then a_coalesce_head ((s, STATUS_FREE) :: bl')
      else (s, t) :: a_free (off - (M + s)) bl'
  end.

Definition block_ok (b : ablock) : Prop :=
  0 <= fst b /\ fst b mod 8 = 0 /\ snd b <> STATUS_MAPPED.

(** The headers from address [a] up to [e] spell [bl]; the last one ends
    the list. *)
Fixpoint seg (m : memory) (a : Z) (bl : list ablock) (e : Z) : Prop :=
  match bl with
  | [] => a = e
  | b :: bl' =>
      size (m a) = fst b /\ status (m a) = snd b /\
      next (m a) = match bl' with [] => 0 | _ => a + (M + fst b) end /\
      seg m (a + (M + fst b)) bl' e
  end.

Fixpoint no_adjacent_free (bl : list ablock) : Prop :=
  match bl with
  | (_, STATUS_FREE) :: (((_, STATUS_FREE) :: _) as bl') => False
  | _ :: bl' => no_adjacent_free bl'
  | [] => True
  end.

Definition free_bytes (bl : list ablock) : Z :=
  fold_right
    (fun b acc => if status_eqb (snd b) STATUS_FREE then fst b + acc else acc)
    0 bl.

(** The state holds the heap list [bl]: nothing before the first heap
    allocation, afterwards contiguous blocks from [heap_start] to the
    program break. *)
Definition heap_repr (brk_limit : Z) (st : state) (bl : list ablock) : Prop :=
  0 < brk st <= brk_limit /\ Forall block_ok bl /\
  match bl with
  | [] => heap_start st = 0
  | _ => 0 < heap_start st /\ seg (mem st) (heap_start st) bl (brk st)
  end.

(** The value of [current] when the blocks [bl] starting at [a] remain. *)
Definition cur_of (a : Z) (bl : list ablock) : Z :=
  match bl with [] => 0 | _ => a end.

(** [best] is the address of the block described by [abest], a block below
    [a], in a heap that starts at [base]. *)
Definition best_rel (base : Z) (m : memory) (a best : Z)
  (abest : option (Z * Z)) : Prop :=
  match abest with
  | None => best = 0
  | Some (o, sz) =>
      best = base + o /\ best <> 0 /\ best < a /\ size (m best) = sz
  end.

Definition best_addr (base : Z) (abest : option (Z * Z)) : Z :=
  match abest with
  | None => 0
  | Some (o, _) => base + o
  end.

End BlockList.

(** ** Walking the lists *)

(** [l] lists the headers met from [a] by following [next] up to [NULL]. *)
Fixpoint heap_path (m : memory) (a : Z) (l : list Z) : Prop :=
  match l with
  | [] => a = 0
  | b :: l' => a <> 0 /\ b = a /\ heap_path m (next (m a)) l'
  end.

(** Payload sizes and statuses of the blocks met from [a]. *)
Fixpoint walk_heap (fuel : nat) (a : Z) (st : state) : list ablock :=
  match fuel with
  | O => []
  | S f =>
      if a =? 0 then []
      else (size (mem st a), status (mem st a))
             :: walk_heap f (next (mem st a)) st
  end.

(** A block the best-fit search may choose for [block_size]. *)
Definition candidate (sizeof_block_meta block_size : Z) (b : ablock) : Prop :=
  snd b = STATUS_FREE /\ block_size <= TOT_SIZE sizeof_block_meta (fst b).

(** ** Scenarios *)

(** [A = malloc(100); B = malloc(200); C = malloc(100); free(A); free(C);
    D = malloc(90)]: the result is the pair [(A, D)]. *)
Definition best_fit_scenario (sizeof_block_meta brk_limit : Z) (fuel : nat)
  (addr : Z) (st : state) : result (Z * Z) :=
  '(a, s1) <- os_malloc sizeof_block_meta brk_limit fuel addr 100 st ;;
  '(b, s2) <- os_malloc sizeof_block_meta brk_limit fuel addr 200 s1 ;;
  '(c, s3) <- os_malloc sizeof_block_meta brk_limit fuel addr 100 s2 ;;
  s4 <- os_free sizeof_block_meta fuel a s3 ;;
  s5 <- os_free sizeof_block_meta fuel c s4 ;;
  '(d, s6) <- os_malloc sizeof_block_meta brk_limit fuel addr 90 s5 ;;
  Done (a, d).

(** The block sequences of [best_fit_scenario] for a header of [M] bytes. *)
Definition bf_r1 (M : Z) := a_malloc_sbrk M 104 [].
Definition bf_r2 (M : Z) := a_malloc_sbrk M 200 (snd (bf_r1 M)).
Definition bf_r3 (M : Z) := a_malloc_sbrk M 104 (snd (bf_r2 M)).
Definition bf_l4 (M : Z) := a_free M (fst (bf_r1 M)) (snd (bf_r3 M)).
Definition bf_l5 (M : Z) := a_free M (fst (bf_r3 M)) (bf_l4 M).
Definition bf_r6 (M : Z) := a_malloc_sbrk M 96 (bf_l5 M).

(** The first block of [bl], if any, is not FREE. *)
Definition head_not_free (bl : list ablock) : Prop :=
  match bl with
  | (_, STATUS_FREE) :: _ => False
  | _ => True
  end.

(** [free(malloc(n))]: the pointer and the states after each call. *)
Definition free_malloc (sizeof_block_meta brk_limit : Z) (fuel : nat)
  (addr n : Z) (st : state) : result (Z * state * state) :=
  '(p, s1) <- os_malloc sizeof_block_meta brk_limit fuel addr n st ;;
  s2 <- os_free sizeof_block_meta fuel p s1 ;;
  Done (p, s1, s2).

(** [A = malloc(100); B = malloc(100); C = malloc(100); free(A); free(B)]. *)
Definition free_in_address_order (sizeof_block_meta brk_limit : Z)
  (fuel : nat) (addr : Z) (st : state) : result state :=
  '(a, s1) <- os_malloc sizeof_block_meta brk_limit fuel addr 100 st ;;
  '(b, s2) <- os_malloc sizeof_block_meta brk_limit fuel addr 100 s1 ;;
  '(c, s3) <- os_malloc sizeof_block_meta brk_limit fuel addr 100 s2 ;;
  s4 <- os_free sizeof_block_meta fuel a s3 ;;
  os_free sizeof_block_meta fuel b s4.

(** [A = malloc(100000); P = malloc(1000); B = malloc(rest)], where [rest]
    is what is left of the initial heap, so that [B] is the last block and
    the break is right after it; then [free(P)] and
    [R = realloc(B, 50000)]: the result holds [B], the state before the
    [realloc], [R] and the final state. *)
Definition realloc_tail_scenario (sizeof_block_meta brk_limit : Z)
  (fuel : nat) (addr : Z) (st : state) : result (Z * state * Z * state) :=
  let rest := INITIAL_HEAP_SIZE - 3 * META_SIZE sizeof_block_meta - 101000 in
  '(a, s1) <- os_malloc sizeof_block_meta brk_limit fuel addr 100000 st ;;
  '(p, s2) <- os_malloc sizeof_block_meta brk_limit fuel addr 1000 s1 ;;
  '(b, s3) <- os_malloc sizeof_block_meta brk_limit fuel addr rest s2 ;;
  s4 <- os_free sizeof_block_meta fuel p s3 ;;
  '(r, s5) <- os_realloc sizeof_block_meta brk_limit fuel addr b 50000 s4 ;;
  Done (b, s4, r, s5).

(** ** Concrete instances *)

(** Memory that holds no header written by the allocator. *)
Definition blank_memory : memory := fun _ => mk_block 0 STATUS_ALLOC 0.

(** A process that has not allocated yet, its break at [0x1000]. *)
Definition fresh : state := initial_state 4096 blank_memory.

(** A heap made of one ALLOC block of 104 bytes and a FREE block, for a
    header of 24 bytes. *)
Definition sample_heap : state :=
  mk_state 4096 0 MMAP_THRESHOLD
    (upd (upd blank_memory 4096 (mk_block 104 STATUS_ALLOC 4224))
       4224 (mk_block 130920 STATUS_FREE 0))
    135168 [].

(** The two layouts of [struct block_meta] in use: with and without a
    [prev] link. *)
Definition header_sizes : list Z := [24; 32].

(** ** More on the block sequence *)

Section BlockLookup.

Variable M : Z.

(** The block whose header starts at offset [off]. *)
Fixpoint a_lookup (off : Z) (bl : list ablock) : option ablock :=
  match bl with
  | [] => None
  | b :: bl' =>
      if off =? 0 then Some b else a_lookup (off - (M + fst b)) bl'
  end.

(** The in-place grow loop of [os_realloc_sbrk] on a block of size [s]
    followed by [bl]: size reached and blocks left. *)
Fixpoint a_grow (block_size s : Z) (bl : list ablock) : Z * list ablock :=
  match bl with
  | (s', STATUS_FREE) :: bl' =>
      if s + M <? block_size
      then a_grow block_size (s + (s' + M)) bl'
      else (s, bl)
  | _ => (s, bl)
  end.

(** [os_realloc_sbrk] when the block at [off] can serve [block_size] where
    it is: the list after the call; [None] when the block has to move. *)
Fixpoint a_realloc_in_place (off block_size : Z) (bl : list ablock)
  : option (list ablock) :=
  match bl with
  | [] => None
  | (s, t) :: bl' =>
      if off =? 0 then
        let '(s', r) := a_grow block_size s bl' in
        if block_size <=? s' + M then
          Some (if block_size <? s'
                then (block_size - M, STATUS_ALLOC)
                       :: (s' - block_size, STATUS_FREE) :: r
                else (s', STATUS_ALLOC) :: r)
        else None
      else
        match a_realloc_in_place (off - (M + s)) block_size bl' with
        | Some r => Some ((s, t) :: r)
        | None => None
        end
  end.

(** [os_realloc_sbrk] when the block at [off] cannot serve [block_size]
    where it is and, once it has absorbed the FREE blocks after it, is not
    the last block: the list when the block has been given its old size
    back; [None] in the other cases. *)
Fixpoint a_regroup (off block_size : Z) (bl : list ablock)
  : option (list ablock) :=
  match bl with
  | [] => None
  | (s, t) :: bl' =>
      if off =? 0 then
        let '(s', r) := a_grow block_size s bl' in
        if block_size <=? s' + M then None
        else
          match r with
          | [] => None
          | _ =>
              Some (if s' =? s then (s, STATUS_ALLOC) :: r
                    else (s, STATUS_ALLOC)
                           :: (s' - (s + M), STATUS_FREE) :: r)
          end
      else
        match a_regroup (off - (M + s)) block_size bl' with
        | Some r => Some ((s, t) :: r)
        | None => None
        end
  end.

End BlockLookup.

(** ** Memory held by the allocator *)

(** The [h] bytes of a header at [a] lie inside the heap. *)
Definition in_heap (h : Z) (st : state) (a : Z) : bool :=
  negb (heap_start st =? 0) && (heap_start st <=? a) && (a + h <=? brk st).

(** The [h] bytes of a header at [a] lie inside a live mapping. *)
Definition in_mapping (h : Z) (st : state) (a : Z) : bool :=
  existsb (fun r => (fst r <=? a) && (a + h <=? fst r + snd r)) (maps st).

(** The header at [a] can be read: it lies in memory the allocator has
    obtained and not given back. *)
Definition readable (h : Z) (st : state) (a : Z) : bool :=
  in_heap h st a || in_mapping h st a.

(** ** A shrinking [realloc] *)

(** [A = malloc(100); realloc(A, 8)]: the final state. *)
Definition shrink_scenario (sizeof_block_meta brk_limit : Z) (fuel : nat)
  (addr : Z) (st : state) : result state :=
  '(a, s1) <- os_malloc sizeof_block_meta brk_limit fuel addr 100 st ;;
  '(_, s2) <- os_realloc sizeof_block_meta brk_limit fuel addr a 8 s1 ;;
  Done s2.

(** ** More concrete instances *)

(** A heap of two ALLOC blocks with the break right after the second one,
    for a header of 24 bytes. *)
Definition full_heap : state :=
  mk_state 4096 0 MMAP_THRESHOLD
    (upd (upd blank_memory 4096 (mk_block 104 STATUS_ALLOC 4224))
       4224 (mk_block 200 STATUS_ALLOC 0))
    4448 [].

(** Three MAPPED headers, for a header of 24 bytes; the first links to the
    second; the third lies 1024 bytes into the first block and is linked
    from nowhere. *)
Definition mapped_memory : memory :=
  upd (upd (upd blank_memory
              8589934592 (mk_block 200000 STATUS_MAPPED 17179869184))
         17179869184 (mk_block 300000 STATUS_MAPPED 0))
    8589935616 (mk_block 400000 STATUS_MAPPED 0).

(** A process with two mapped blocks and no heap yet. *)
Definition sample_mapped : state :=
  mk_state 0 8589934592 MMAP_THRESHOLD mapped_memory 4096
    [(8589934592, 200024); (17179869184, 300024)].

(** A heap of three blocks, ALLOC, FREE and ALLOC, with the break right
    after the third one, for a header of 24 bytes. *)
Definition packed_heap : state :=
  mk_state 4096 0 MMAP_THRESHOLD
    (upd (upd (upd blank_memory 4096 (mk_block 104 STATUS_ALLOC 4224))
            4224 (mk_block 40 STATUS_FREE 4288))
       4288 (mk_block 200 STATUS_ALLOC 0))
    4512 [].
(** * Arithmetic of the macros *)

Lemma wB_eq : wB = 18446744073709551616.
Proof. reflexivity. Qed.

Lemma land_align_mask (y : Z) :
  0 <= y < wB -> Z.land y (wrap (Z.lnot (ALIGNMENT - 1))) = 8 * (y / 8).
Proof.
  intros Hy.
  change (wrap (Z.lnot (ALIGNMENT - 1))) with (Z.shiftl (Z.ones 61) 3).
  replace (8 * (y / 8)) with (Z.shiftl (Z.shiftr y 3) 3).
  2:{ rewrite Z.shiftl_mul_pow2, Z.shiftr_div_pow2 by lia.
      change (2 ^ 3) with 8. lia. }
  apply Z.bits_inj'. intros n Hn.
  rewrite Z.land_spec.
  destruct (Z.ltb_spec n 3) as [Hlt | Hge].
  - rewrite !Z.shiftl_spec_low by lia. apply andb_false_r.
  - rewrite !Z.shiftl_spec by lia.
    rewrite Z.shiftr_spec by lia.
    replace (n - 3 + 3) with n by lia.
    destruct (Z.ltb_spec (n - 3) 61) as [Hlo | Hhi].
    + rewrite Z.ones_spec_low by lia. apply andb_true_r.
    + rewrite Z.ones_spec_high by lia. rewrite andb_false_r.
      destruct (Z.eq_dec y 0) as [-> | Hy0]; [now rewrite Z.bits_0 |].
      symmetry. apply Z.bits_above_log2; [lia |].
      apply Z.log2_lt_pow2; [lia |].
      apply Z.lt_le_trans with (2 ^ 64); [apply Hy |].
      apply Z.pow_le_mono_r; lia.
Qed.

Lemma ALIGN_spec (x : Z) : ALIGN x = 8 * (wrap (x + 7) / 8).
Proof.
  unfold ALIGN. change (ALIGNMENT - 1) with 7.
  apply land_align_mask. unfold wrap. apply Z.mod_pos_bound. reflexivity.
Qed.

Ltac zmod :=
  unfold wrap in *; rewrite ?wB_eq in *;
  Z.div_mod_to_equations; lia.

Lemma ALIGN_range (x : Z) : 0 <= ALIGN x < wB /\ ALIGN x mod 8 = 0.
Proof. rewrite ALIGN_spec. zmod. Qed.

Lemma ALIGN_aligned (x : Z) :
  0 <= x -> x + 7 < wB -> x mod 8 = 0 -> ALIGN x = x.
Proof. intros. rewrite ALIGN_spec. zmod. Qed.

Lemma ALIGN_round_up (x : Z) :
  0 <= x -> x + 7 < wB -> x <= ALIGN x < x + 8.
Proof. intros. rewrite ALIGN_spec. zmod. Qed.

Section Facts.

Variable sizeof_block_meta : Z.
Variable pagesize : Z.
Variable brk_limit : Z.

Local Abbreviation META := (META_SIZE sizeof_block_meta).
Local Abbreviation TOT := (TOT_SIZE sizeof_block_meta).

(** The header holds a [size_t], a status and a pointer, and is small. *)
Hypothesis Hsizeof : 1 <= sizeof_block_meta <= 64.
(** Addresses fit the signed argument of [sbrk]. *)
Hypothesis Hlimit : brk_limit <= 2 ^ 63.

Lemma META_bounds : 8 <= META <= 64 /\ META mod 8 = 0.
Proof. unfold META_SIZE. rewrite ALIGN_spec. zmod. Qed.

Lemma TOT_aligned (s : Z) :
  0 <= s -> s + META + 7 < wB -> s mod 8 = 0 -> TOT s = s + META.
Proof.
  intros H0 H1 H2. pose proof META_bounds as HM. unfold TOT_SIZE.
  rewrite ALIGN_spec. zmod.
Qed.

Lemma TOT_ALIGN (n : Z) : 0 <= n < wB -> TOT (ALIGN n) = TOT n.
Proof.
  intros Hn. pose proof META_bounds as HM. unfold TOT_SIZE.
  rewrite !ALIGN_spec. zmod.
Qed.



(** * Stores and the block sequence *)

Lemma set_mem_id (st : state) : set_mem (mem st) st = st.
Proof. now destruct st. Qed.

Lemma set_mem_twice (m m' : memory) (st : state) :
  set_mem m' (set_mem m st) = set_mem m' st.
Proof. reflexivity. Qed.

Lemma status_eqb_eq (a b : status_t) : status_eqb a b = true <-> a = b.
Proof. destruct a, b; simpl; split; congruence. Qed.

Lemma status_eqb_neq (a b : status_t) : status_eqb a b = false <-> a <> b.
Proof. destruct a, b; simpl; split; congruence. Qed.

Local Abbreviation hseg := (seg META).
Local Abbreviation hext := (extent META).

Lemma extent_nonneg (bl : list ablock) :
  Forall block_ok bl -> 0 <= hext bl.
Proof.
  pose proof META_bounds as HM.
  induction 1 as [| b bl [Hb _] _ IH]; simpl; lia.
Qed.

Lemma seg_extent (m : memory) (bl : list ablock) :
  forall a e, hseg m a bl e -> e = a + hext bl.
Proof.
  induction bl as [| b bl IH]; simpl; intros a e H.
  - lia.
  - destruct H as (_ & _ & _ & H). apply IH in H. lia.
Qed.

Lemma seg_frame (m m' : memory) (bl : list ablock) :
  forall a e,
    Forall block_ok bl ->
    (forall x, a <= x < e -> m' x = m x) ->
    hseg m a bl e -> hseg m' a bl e.
Proof.
  pose proof META_bounds as HM.
  induction bl as [| b bl IH]; simpl; intros a e Hok Hfr H; [exact H |].
  destruct H as (Hs & Ht & Hn & H).
  inversion Hok as [| ? ? [Hb0 _] Hok']; subst.
  pose proof (seg_extent _ _ _ _ H) as He.
  pose proof (extent_nonneg _ Hok') as Hx.
  rewrite (Hfr a) by lia. repeat split; try assumption.
  apply IH; try assumption. intros x Hx'. apply Hfr. lia.
Qed.

(** ** Facts about the block sequence functions *)

Lemma a_coalesce_shift (bl : list ablock) :
  forall s d,
    a_coalesce META (s + d) bl
    = (fst (a_coalesce META s bl) + d, snd (a_coalesce META s bl)).
Proof.
  induction bl as [| [s1 t1] bl IH]; intros s d; simpl; [reflexivity |].
  destruct t1; try reflexivity.
  replace (s + d + (s1 + META)) with (s + (s1 + META) + d) by lia.
  apply IH.
Qed.

Lemma a_coalesce_ok (bl : list ablock) :
  forall s, 0 <= s -> s mod 8 = 0 -> Forall block_ok bl ->
    let r := a_coalesce META s bl in
    0 <= fst r /\ fst r mod 8 = 0 /\ Forall block_ok (snd r) /\
    (length (snd r) <= length bl)%nat /\
    fst r + hext (snd r) = s + hext bl.
Proof.
  pose proof META_bounds as HM.
  induction bl as [| [s1 t1] bl IH]; intros s H0 H8 Hok; simpl.
  - repeat split; auto.
  - inversion Hok as [| ? ? (Hb0 & Hb8 & Hbt) Hok']; subst. cbn [fst snd] in *.
    destruct t1; simpl; try (repeat split; auto; fail).
    destruct (IH (s + (s1 + META))) as (A & B & C & D & E); try assumption.
    + lia.
    + zmod.
    + repeat split; auto. lia.
Qed.

Lemma a_coalesce_stop (bl : list ablock) :
  forall s,
    match snd (a_coalesce META s bl) with
    | (_, STATUS_FREE) :: _ => False
    | _ => True
    end.
Proof.
  induction bl as [| [s1 t1] bl IH]; intros s; simpl; [exact I |].
  destruct t1; simpl; [apply IH | exact I | exact I].
Qed.

Lemma a_coalesce_head_ok (bl : list ablock) :
  Forall block_ok bl ->
  Forall block_ok (a_coalesce_head META bl) /\
  (length (a_coalesce_head META bl) <= length bl)%nat /\
  hext (a_coalesce_head META bl) = hext bl /\
  (a_coalesce_head META bl = [] <-> bl = []).
Proof.
  intros Hok. destruct bl as [| [s t] bl]; simpl.
  - repeat split; auto.
  - inversion Hok as [| ? ? (Hb0 & Hb8 & Hbt) Hok']; subst. cbn [fst snd] in *.
    destruct t; try (repeat split; auto; congruence).
    pose proof (a_coalesce_ok bl s Hb0 Hb8 Hok') as (A & B & C & D & E).
    destruct (a_coalesce META s bl) as [s' r]. simpl in *.
    repeat split; auto; try congruence; try lia.
    constructor; [| assumption].
    unfold block_ok; simpl; repeat split; auto; congruence.
Qed.

Lemma a_merge_nil (bl : list ablock) : a_merge META bl = [] <-> bl = [].
Proof.
  destruct bl as [| [s t] bl]; simpl; [tauto |].
  split; [| congruence]. destruct t; try congruence.
  destruct (a_coalesce META s (a_merge META bl)). congruence.
Qed.

Lemma a_merge_match {A : Type} (r : list ablock) (x y : A) :
  match a_merge META r with [] => x | _ :: _ => y end
  = match r with [] => x | _ :: _ => y end.
Proof.
  destruct r as [| b r]; [reflexivity |].
  destruct (a_merge META (b :: r)) eqn:E; [| reflexivity].
  apply (proj1 (a_merge_nil _)) in E. discriminate.
Qed.

Lemma a_merge_head_status (bl : list ablock) :
  match bl with
  | (_, STATUS_FREE) :: _ => True
  | [] => a_merge META bl = []
  | (s, t) :: _ => exists r, a_merge META bl = (s, t) :: r
  end.
Proof.
  destruct bl as [| [s t] bl]; simpl; auto. destruct t; eauto.
Qed.

Lemma a_coalesce_merged (r : list ablock) (s : Z) :
  match r with (_, STATUS_FREE) :: _ => False | _ => True end ->
  a_coalesce META s (a_merge META r) = (s, a_merge META r).
Proof.
  intros H. pose proof (a_merge_head_status r) as Hm.
  destruct r as [| [s1 t1] r]; [reflexivity |].
  destruct t1; try contradiction; destruct Hm as [r' ->]; reflexivity.
Qed.

Lemma a_merge_free (bl : list ablock) :
  forall s,
    a_merge META ((s, STATUS_FREE) :: bl)
    = (fst (a_coalesce META s bl), STATUS_FREE)
        :: a_merge META (snd (a_coalesce META s bl)).
Proof.
  induction bl as [| [s1 t1] bl IH]; intros s; [reflexivity |].
  destruct t1.
  - change (a_merge META ((s, STATUS_FREE) :: (s1, STATUS_FREE) :: bl))
      with (a_coalesce_head META
              ((s, STATUS_FREE) :: a_merge META ((s1, STATUS_FREE) :: bl))).
    rewrite IH. simpl.
    rewrite a_coalesce_merged by apply a_coalesce_stop.
    replace (s + (s1 + META)) with (s1 + (s + META)) by lia.
    rewrite (a_coalesce_shift bl s1 (s + META)).
    simpl. f_equal. f_equal. lia.
  - reflexivity.
  - reflexivity.
Qed.

Lemma a_merge_step (b : ablock) (bl : list ablock) :
  a_merge META (b :: bl)
  = match a_coalesce_head META (b :: bl) with
    | b1 :: r => b1 :: a_merge META r
    | [] => []
    end.
Proof.
  destruct b as [s t]. destruct t.
  - rewrite a_merge_free. simpl.
    destruct (a_coalesce META s bl); reflexivity.
  - reflexivity.
  - reflexivity.
Qed.

Lemma a_merge_ok (bl : list ablock) :
  Forall block_ok bl ->
  Forall block_ok (a_merge META bl) /\ hext (a_merge META bl) = hext bl /\
  (length (a_merge META bl) <= length bl)%nat.
Proof.
  induction 1 as [| b bl Hb Hok IH].
  - simpl. repeat split; auto.
  - destruct IH as (A & B & C).
    assert (Hok1 : Forall block_ok (b :: a_merge META bl))
      by (constructor; assumption).
    pose proof (a_coalesce_head_ok _ Hok1) as (D & E & F & _).
    change (a_merge META (b :: bl))
      with (a_coalesce_head META (b :: a_merge META bl)).
    split; [exact D | split].
    + rewrite F. simpl. lia.
    + simpl length in *. lia.
Qed.

(** * The allocator steps on a well-formed heap *)

Lemma upd_eq (m : memory) (a : Z) (b : block_meta) : upd m a b a = b.
Proof. unfold upd. now rewrite Z.eqb_refl. Qed.

Lemma upd_neq (m : memory) (a x : Z) (b : block_meta) :
  x <> a -> upd m a b x = m x.
Proof. unfold upd. intros H. apply Z.eqb_neq in H. now rewrite H. Qed.

Lemma mem_set_size_eq (p v : Z) (st : state) :
  mem (set_size p v st) p = mk_block v (status (mem st p)) (next (mem st p)).
Proof. cbn. apply upd_eq. Qed.

Lemma mem_set_status_eq (p : Z) (v : status_t) (st : state) :
  mem (set_status p v st) p = mk_block (size (mem st p)) v (next (mem st p)).
Proof. cbn. apply upd_eq. Qed.

Lemma mem_set_next_eq (p v : Z) (st : state) :
  mem (set_next p v st) p = mk_block (size (mem st p)) (status (mem st p)) v.
Proof. cbn. apply upd_eq. Qed.

Lemma mem_set_size_neq (p v x : Z) (st : state) :
  x <> p -> mem (set_size p v st) x = mem st x.
Proof. intros. cbn. now apply upd_neq. Qed.

Lemma mem_set_status_neq (p x : Z) (v : status_t) (st : state) :
  x <> p -> mem (set_status p v st) x = mem st x.
Proof. intros. cbn. now apply upd_neq. Qed.

Lemma mem_set_next_neq (p v x : Z) (st : state) :
  x <> p -> mem (set_next p v st) x = mem st x.
Proof. intros. cbn. now apply upd_neq. Qed.

Ltac mem_simpl :=
  repeat (first
    [ rewrite mem_set_size_eq | rewrite mem_set_status_eq
    | rewrite mem_set_next_eq
    | rewrite mem_set_size_neq by lia
    | rewrite mem_set_status_neq by lia
    | rewrite mem_set_next_neq by lia
    | progress cbn [mem set_brk set_mem set_heap_start set_maps
                    set_mmap_start set_threshold size status next] ]).

Lemma seg_bound (m : memory) (bl : list ablock) (a e : Z) :
  Forall block_ok bl -> hseg m a bl e -> a <= e.
Proof.
  intros Hok H. apply seg_extent in H. pose proof (extent_nonneg _ Hok). lia.
Qed.

Lemma coalesce_one_block_can (a : Z) (st : state) :
  can_coalesce_one_block a st = true ->
  next (mem st a) <> a ->
  exists m1,
    coalesce_one_block sizeof_block_meta a st = set_mem m1 st /\
    m1 a = mk_block
             (wrap (size (mem st a) + TOT (size (mem st (next (mem st a))))))
             (status (mem st a))
             (next (mem st (next (mem st a)))) /\
    (forall x, x <> a -> m1 x = mem st x).
Proof.
  intros Hc Hn. unfold coalesce_one_block. rewrite Hc.
  eexists. split; [reflexivity | split].
  - cbn. rewrite !upd_eq. cbn. now rewrite upd_neq.
  - intros x Hx. cbn. now rewrite !upd_neq.
Qed.

Lemma block_ok_cons (b : ablock) (bl : list ablock) :
  Forall block_ok (b :: bl) <->
  (0 <= fst b /\ fst b mod 8 = 0 /\ snd b <> STATUS_MAPPED) /\
  Forall block_ok bl.
Proof. apply Forall_cons_iff. Qed.

Lemma coalesce_blocks_seg (bl : list ablock) :
  forall s a e st fuel,
    0 < a -> e <= 2 ^ 63 ->
    Forall block_ok ((s, STATUS_FREE) :: bl) ->
    hseg (mem st) a ((s, STATUS_FREE) :: bl) e ->
    (length bl < fuel)%nat ->
    exists m',
      coalesce_blocks sizeof_block_meta fuel a st = Done (set_mem m' st) /\
      hseg m' a (a_coalesce_head META ((s, STATUS_FREE) :: bl)) e /\
      (forall x, x <> a -> m' x = mem st x).
Proof.
  pose proof META_bounds as HM.
  induction bl as [| [s1 t1] bl IH]; intros s a e st fuel Ha He Hok Hseg Hf;
    (destruct fuel as [| f]; [simpl in Hf; lia |]);
    destruct Hseg as (Hs & Ht & Hn & Htl); cbn [fst snd] in *;
    simpl coalesce_blocks.
  - assert (Hc : can_coalesce_one_block a st = false).
    { unfold can_coalesce_one_block. rewrite Ht, Hn. reflexivity. }
    rewrite Hc. exists (mem st). rewrite set_mem_id.
    simpl. repeat split; auto.
  - apply block_ok_cons in Hok as [(Hb0 & Hb8 & _) Hok'].
    apply block_ok_cons in Hok' as [(Hc0 & Hc8 & Hct) Hok''].
    destruct Htl as (Hs1 & Ht1 & Hn1 & Htl). cbn [fst snd] in *.
    pose proof (seg_bound _ _ _ _ Hok'' Htl) as Hb.
    set (a1 := a + (META + s)) in *.
    assert (Hcan : can_coalesce_one_block a st = status_eqb t1 STATUS_FREE).
    { unfold can_coalesce_one_block. rewrite Ht, Hn. simpl.
      replace (a1 =? 0) with false by (symmetry; apply Z.eqb_neq; lia).
      now rewrite Ht1. }
    rewrite Hcan.
    destruct t1; simpl.
    + destruct (coalesce_one_block_can a st) as (m1 & E1 & Hm1 & Hfr1).
      { rewrite Hcan. reflexivity. }
      { rewrite Hn. lia. }
      rewrite E1. rewrite Hn, Hs, Ht, Hs1, Hn1 in Hm1.
      assert (Htot : TOT s1 = s1 + META).
      { apply TOT_aligned; try assumption. rewrite wB_eq. lia. }
      rewrite Htot in Hm1.
      assert (Hw : wrap (s + (s1 + META)) = s + (s1 + META)).
      { unfold wrap. apply Z.mod_small. rewrite wB_eq. lia. }
      rewrite Hw in Hm1.
      destruct (IH (s + (s1 + META)) a e (set_mem m1 st) f)
        as (m' & E' & Hseg' & Hfr'); try assumption.
      * apply block_ok_cons. split; [| assumption]. cbn [fst snd].
        repeat split; try lia; try congruence. zmod.
      * cbn [mem set_mem]. simpl. rewrite Hm1. cbn [size status next].
        repeat split.
        -- destruct bl; [reflexivity | unfold a1; lia].
        -- replace (a + (META + (s + (s1 + META))))
             with (a1 + (META + s1)) by (unfold a1; lia).
           apply seg_frame with (m := mem st); try assumption.
           intros x Hx. apply Hfr1. unfold a1 in Hx. lia.
      * simpl in Hf. lia.
      * exists m'. split; [exact E' | split].
        -- exact Hseg'.
        -- intros x Hx. rewrite Hfr' by assumption. cbn. now apply Hfr1.
    + exists (mem st). rewrite set_mem_id. split; [reflexivity | split].
      * simpl. repeat split; auto.
      * reflexivity.
    + exists (mem st). rewrite set_mem_id. split; [reflexivity | split].
      * simpl. repeat split; auto.
      * reflexivity.
Qed.

Lemma coalesce_blocks_head (b : ablock) (bl : list ablock) :
  forall a e st fuel,
    0 < a -> e <= 2 ^ 63 ->
    Forall block_ok (b :: bl) ->
    hseg (mem st) a (b :: bl) e ->
    (length bl < fuel)%nat ->
    exists m',
      coalesce_blocks sizeof_block_meta fuel a st = Done (set_mem m' st) /\
      hseg m' a (a_coalesce_head META (b :: bl)) e /\
      (forall x, x <> a -> m' x = mem st x).
Proof.
  intros a e st fuel Ha He Hok Hseg Hf. destruct b as [s t].
  destruct t; [now apply coalesce_blocks_seg | |];
    (destruct fuel as [| f]; [lia |]);
    pose proof Hseg as (_ & Ht & _); cbn [fst snd] in Ht;
    simpl coalesce_blocks; unfold can_coalesce_one_block; rewrite Ht;
    exists (mem st); rewrite set_mem_id; repeat split; auto; apply Hseg.
Qed.

Lemma find_best_fit_from_seg (bs base : Z) :
  forall fuel bl a e st best last abest off,
    0 < a -> e <= 2 ^ 63 ->
    Forall block_ok bl ->
    hseg (mem st) a bl e ->
    (length bl < fuel)%nat ->
    best_rel base (mem st) a best abest ->
    a = base + off ->
    exists m' last',
      find_best_fit_from sizeof_block_meta fuel best (cur_of a bl) last bs st
      = Done (best_addr base (a_best META bs off abest (a_merge META bl)),
              last', set_mem m' st) /\
      hseg m' a (a_merge META bl) e /\
      (forall x, x < a -> m' x = mem st x) /\
      last' = match bl with
              | [] => last
              | _ => a + last_off META (a_merge META bl)
              end.
Proof.
  pose proof META_bounds as HM.
  induction fuel as [| f IH];
    intros bl a e st best last abest off Ha He Hok Hseg Hf Hbest Hoff;
    [lia |].
  destruct bl as [| b bl].
  - simpl. exists (mem st), last. rewrite set_mem_id.
    repeat split; auto.
    destruct abest as [[o sz] |]; simpl in *; [| congruence].
    destruct Hbest as (-> & _). reflexivity.
  - simpl cur_of. simpl find_best_fit_from.
    replace (a =? 0) with false by (symmetry; apply Z.eqb_neq; lia).
    destruct (coalesce_blocks_head b bl a e st f)
      as (m1 & E1 & Hseg1 & Hfr1); try assumption.
    { simpl in Hf. lia. }
    rewrite E1. cbn [bind].
    pose proof (a_coalesce_head_ok _ Hok) as (Hok1 & Hlen1 & _ & Hnil1).
    rewrite a_merge_step.
    destruct (a_coalesce_head META (b :: bl)) as [| b1 r] eqn:Ech.
    { exfalso. assert (b :: bl = []) by now apply Hnil1. discriminate. }
    destruct Hseg1 as (Hs1 & Ht1 & Hn1 & Htl1).
    apply block_ok_cons in Hok1 as [(Hb0 & Hb8 & Hbt) Hokr].
    pose proof (seg_bound _ _ _ _ Hokr Htl1) as Hbd.
    cbn [mem set_mem].
    assert (Htot : TOT (fst b1) = fst b1 + META).
    { apply TOT_aligned; try assumption. rewrite wB_eq. lia. }
    rewrite Hs1, Ht1, Htot.
    set (a1 := a + (META + fst b1)) in *.
    assert (Hcur : next (m1 a) = cur_of a1 r).
    { rewrite Hn1. now destruct r. }
    rewrite Hcur.
    set (abest1 :=
           if fits META bs b1 then
             match abest with
             | None => Some (off, fst b1)
             | Some (_, bsz) =>
                 if fst b1 <? bsz then Some (off, fst b1) else abest
             end
           else abest).
    set (best1 :=
           if status_eqb (snd b1) STATUS_FREE && (bs <=? fst b1 + META)
           then if (best =? 0) || (fst b1 <? size (m1 best))
                then a else best
           else best).
    assert (Hbest1 : best_rel base m1 a1 best1 abest1).
    { unfold best1, abest1, fits.
      destruct (status_eqb (snd b1) STATUS_FREE && (bs <=? fst b1 + META)).
      - destruct abest as [[o sz] |]; simpl in Hbest.
        + destruct Hbest as (Eb & Hb0' & Hlt & Hsz).
          replace (best =? 0) with false
            by (symmetry; apply Z.eqb_neq; assumption).
          rewrite Hfr1 by lia. rewrite Hsz. simpl orb.
          destruct (fst b1 <? sz); simpl.
          * repeat split; try lia; try assumption.
          * repeat split; try lia. rewrite Hfr1 by lia. assumption.
        + subst best. simpl. repeat split; try lia; try assumption.
      - destruct abest as [[o sz] |]; simpl in *.
        + destruct Hbest as (Eb & Hb0' & Hlt & Hsz).
          repeat split; try lia. rewrite Hfr1 by lia. assumption.
        + assumption. }
    destruct (IH r a1 e (set_mem m1 st) best1 a abest1 (off + (META + fst b1)))
      as (m' & last' & E' & Hseg' & Hfr' & Hlast'); try assumption.
    { lia. }
    { simpl in Hf, Hlen1. lia. }
    { unfold a1. lia. }
    exists m', last'. split; [| split; [| split]].
    + fold best1. cbn [set_mem mem] in E'. rewrite E'. reflexivity.
    + cbn [seg]. rewrite !Hfr' by (unfold a1; lia). cbn [mem set_mem].
      repeat split; try assumption.
      rewrite Hn1, a_merge_match. reflexivity.
    + intros x Hx. rewrite Hfr' by (unfold a1; lia). cbn [mem set_mem].
      apply Hfr1. lia.
    + rewrite Hlast'. cbn [last_off]. rewrite a_merge_match.
      destruct r; [lia | unfold a1; lia].
Qed.

Lemma find_block_in_heap_from_seg (bl : list ablock) :
  forall a e st fuel block,
    0 < a ->
    Forall block_ok bl ->
    hseg (mem st) a bl e ->
    (length bl < fuel)%nat ->
    find_block_in_heap_from fuel (cur_of a bl) block st
    = Done (if a_find META (block - a) bl then block else 0).
Proof.
  pose proof META_bounds as HM.
  induction bl as [| b bl IH]; intros a e st fuel block Ha Hok Hseg Hf;
    (destruct fuel as [| f]; [simpl in Hf; lia |]).
  - reflexivity.
  - simpl. replace (a =? 0) with false by (symmetry; apply Z.eqb_neq; lia).
    destruct Hseg as (Hs & Ht & Hn & Htl).
    apply block_ok_cons in Hok as [(Hb0 & _) Hok'].
    destruct (Z.eqb_spec a block) as [-> | Hne].
    + now rewrite Z.sub_diag.
    + replace (block - a =? 0) with false
        by (symmetry; apply Z.eqb_neq; lia).
      simpl orb.
      replace (block - a - (META + fst b))
        with (block - (a + (META + fst b))) by lia.
      rewrite <- (IH (a + (META + fst b)) e st f block);
        try assumption; try lia.
      * rewrite Hn. now destruct bl.
      * simpl in Hf. lia.
Qed.

Lemma a_find_nonneg (bl : list ablock) :
  forall off, Forall block_ok bl -> a_find META off bl = true -> 0 <= off.
Proof.
  pose proof META_bounds as HM.
  induction bl as [| b bl IH]; intros off Hok H; simpl in H; [discriminate |].
  apply block_ok_cons in Hok as [(Hb0 & _) Hok'].
  apply orb_true_iff in H as [H | H].
  - apply Z.eqb_eq in H. lia.
  - apply IH in H; [lia | assumption].
Qed.

Lemma a_find_status (bl : list ablock) :
  forall m a e off,
    Forall block_ok bl -> hseg m a bl e -> a_find META off bl = true ->
    status (m (a + off)) <> STATUS_MAPPED.
Proof.
  induction bl as [| b bl IH]; intros m a e off Hok Hseg H; simpl in H;
    [discriminate |].
  apply block_ok_cons in Hok as [(Hb0 & Hb8 & Hbt) Hok'].
  destruct Hseg as (Hs & Ht & Hn & Htl).
  destruct (Z.eqb_spec off 0) as [-> | Hne].
  - rewrite Z.add_0_r. congruence.
  - simpl in H.
    replace (a + off) with (a + (META + fst b) + (off - (META + fst b)))
      by lia.
    eapply IH; eassumption.
Qed.

(** What [split_block] stores. *)
Lemma split_block_mem (block bs : Z) (st : state) :
  bs <> 0 ->
  let st' := split_block sizeof_block_meta block bs st in
  st' = set_mem (mem st') st /\
  mem st' block
  = mk_block (wrap (bs - META)) (status (mem st block)) (block + bs) /\
  mem st' (block + bs)
  = mk_block (wrap (size (mem st block) - bs)) STATUS_FREE
      (next (mem st block)) /\
  (forall x, x <> block -> x <> block + bs -> mem st' x = mem st x).
Proof.
  intros Hbs. unfold split_block. cbn.
  assert (Hne : block + bs <> block) by lia.
  assert (Hne' : block <> block + bs) by lia.
  repeat split.
  - rewrite !upd_eq. cbn. rewrite !(upd_neq _ _ _ _ Hne'). reflexivity.
  - rewrite !(upd_neq _ _ _ _ Hne). rewrite !upd_eq. cbn.
    rewrite !(upd_neq _ _ _ _ Hne'). reflexivity.
  - intros x H1 H2. now rewrite !upd_neq.
Qed.

Lemma a_take_nil (off bs : Z) (bl : list ablock) :
  a_take META off bs bl = [] <-> bl = [].
Proof.
  destruct bl as [| [s t] bl]; simpl; [tauto |].
  split; [| discriminate].
  destruct (off =? 0); [destruct (bs <? s) |]; discriminate.
Qed.

Lemma a_take_match {A : Type} (off bs : Z) (r : list ablock) (x y : A) :
  match a_take META off bs r with [] => x | _ :: _ => y end
  = match r with [] => x | _ :: _ => y end.
Proof.
  destruct r as [| b r]; [reflexivity |].
  destruct (a_take META off bs (b :: r)) eqn:E; [| reflexivity].
  apply (proj1 (a_take_nil _ _ _)) in E. discriminate.
Qed.

Lemma take_seg (bs : Z) (bl : list ablock) :
  forall a e st off,
    0 < a -> e <= 2 ^ 63 ->
    Forall block_ok bl ->
    hseg (mem st) a bl e ->
    a_find META off bl = true ->
    META <= bs -> bs mod 8 = 0 ->
    let block := a + off in
    let st2 := set_status block STATUS_ALLOC st in
    let st3 :=
      if bs <? size (mem st2 block)
      then split_block sizeof_block_meta block bs st2 else st2 in
    st3 = set_mem (mem st3) st /\
    hseg (mem st3) a (a_take META off bs bl) e /\
    (forall x, x < a -> mem st3 x = mem st x) /\
    Forall block_ok (a_take META off bs bl).
Proof.
  pose proof META_bounds as HM.
  induction bl as [| [s t] bl IH];
    intros a e st off Ha He Hok Hseg Hfind Hbs Hbs8; simpl in Hfind;
    [discriminate |].
  apply block_ok_cons in Hok as [(Hb0 & Hb8 & Hbt) Hok'].
  destruct Hseg as (Hs & Ht & Hn & Htl). cbn [fst snd] in *.
  pose proof (seg_bound _ _ _ _ Hok' Htl) as Hbd.
  cbn zeta. simpl a_take.
  destruct (Z.eqb_spec off 0) as [-> | Hne].
  - rewrite Z.add_0_r.
    assert (Hsz : size (mem (set_status a STATUS_ALLOC st) a) = s).
    { cbn. rewrite upd_eq. exact Hs. }
    rewrite Hsz.
    destruct (Z.ltb_spec bs s) as [Hlt | Hge].
    + destruct (split_block_mem a bs (set_status a STATUS_ALLOC st))
        as (E & Hm & Hm' & Hfr); [lia |].
      set (st3 := split_block sizeof_block_meta a bs
                    (set_status a STATUS_ALLOC st)) in *.
      assert (Hst : status (mem (set_status a STATUS_ALLOC st) a)
                    = STATUS_ALLOC) by (cbn; now rewrite upd_eq).
      assert (Hnx : next (mem (set_status a STATUS_ALLOC st) a)
                    = next (mem st a)) by (cbn; now rewrite upd_eq).
      rewrite Hst in Hm. rewrite Hsz, Hnx in Hm'.
      assert (Hw1 : wrap (bs - META) = bs - META)
        by (unfold wrap; apply Z.mod_small; rewrite wB_eq; lia).
      assert (Hw2 : wrap (s - bs) = s - bs)
        by (unfold wrap; apply Z.mod_small; rewrite wB_eq; lia).
      rewrite Hw1 in Hm. rewrite Hw2 in Hm'.
      split; [exact E | split; [| split]].
      * cbn [seg fst snd]. rewrite Hm.
        replace (a + (META + (bs - META))) with (a + bs) by lia.
        rewrite Hm'. cbn [size status next].
        repeat split.
        -- rewrite Hn. destruct bl; [reflexivity | lia].
        -- replace (a + bs + (META + (s - bs))) with (a + (META + s)) by lia.
           apply seg_frame with (m := mem st); try assumption.
           intros x Hx. rewrite Hfr by lia. cbn. apply upd_neq. lia.
      * intros x Hx. rewrite Hfr by lia. cbn. apply upd_neq. lia.
      * apply block_ok_cons. split.
        { cbn [fst snd]. repeat split; try lia; try congruence. zmod. }
        apply block_ok_cons. split; [| assumption].
        cbn [fst snd]. repeat split; try lia; try congruence. zmod.
    + split; [reflexivity | split; [| split]].
      * cbn [seg fst snd]. cbn. rewrite upd_eq. cbn.
        repeat split; try assumption.
        apply seg_frame with (m := mem st); try assumption.
        intros x Hx. apply upd_neq. lia.
      * intros x Hx. cbn. apply upd_neq. lia.
      * apply block_ok_cons. split; [| assumption].
        cbn [fst snd]. repeat split; try lia; congruence.
  - simpl in Hfind.
    replace (a + off) with (a + (META + s) + (off - (META + s))) by lia.
    specialize (IH (a + (META + s)) e st (off - (META + s))).
    cbn zeta in IH.
    destruct IH as (E & Hseg' & Hfr & Hok3); try assumption; try lia.
    set (block := a + (META + s) + (off - (META + s))) in *.
    set (st3 := if bs <? size (mem (set_status block STATUS_ALLOC st) block)
                then split_block sizeof_block_meta block bs
                       (set_status block STATUS_ALLOC st)
                else set_status block STATUS_ALLOC st) in *.
    split; [exact E | split; [| split]].
    + cbn [seg fst snd]. rewrite Hfr by lia.
      repeat split; try assumption.
      rewrite Hn. now rewrite a_take_match.
    + intros x Hx. apply Hfr. lia.
    + apply block_ok_cons. split; [| assumption].
      cbn [fst snd]. repeat split; assumption.
Qed.

Lemma a_free_match {A : Type} (off : Z) (r : list ablock) (x y : A) :
  match a_free META off r with [] => x | _ :: _ => y end
  = match r with [] => x | _ :: _ => y end.
Proof.
  destruct r as [| [s t] r]; [reflexivity |].
  simpl. destruct (off =? 0); [| reflexivity].
  destruct (a_coalesce META s r). reflexivity.
Qed.

Lemma free_seg (bl : list ablock) :
  forall a e st off fuel,
    0 < a -> e <= 2 ^ 63 ->
    Forall block_ok bl ->
    hseg (mem st) a bl e ->
    a_find META off bl = true ->
    (length bl < fuel)%nat ->
    exists m',
      coalesce_blocks sizeof_block_meta fuel (a + off)
        (set_status (a + off) STATUS_FREE st)
      = Done (set_mem m' st) /\
      hseg m' a (a_free META off bl) e /\
      (forall x, x < a -> m' x = mem st x) /\
      Forall block_ok (a_free META off bl).
Proof.
  pose proof META_bounds as HM.
  induction bl as [| [s t] bl IH];
    intros a e st off fuel Ha He Hok Hseg Hfind Hf; simpl in Hfind;
    [discriminate |].
  pose proof Hok as Hok0.
  apply block_ok_cons in Hok as [(Hb0 & Hb8 & Hbt) Hok'].
  destruct Hseg as (Hs & Ht & Hn & Htl). cbn [fst snd] in *.
  pose proof (seg_bound _ _ _ _ Hok' Htl) as Hbd.
  simpl a_free.
  destruct (Z.eqb_spec off 0) as [-> | Hne].
  - rewrite Z.add_0_r.
    assert (Hok1 : Forall block_ok ((s, STATUS_FREE) :: bl)).
    { apply block_ok_cons. split; [| assumption].
      cbn [fst snd]. repeat split; try assumption. congruence. }
    destruct (coalesce_blocks_seg bl s a e (set_status a STATUS_FREE st) fuel)
      as (m' & E & Hseg' & Hfr); try assumption.
    + cbn [seg fst snd]. cbn. rewrite upd_eq. cbn.
      repeat split; try assumption.
      apply seg_frame with (m := mem st); try assumption.
      intros x Hx. apply upd_neq. lia.
    + simpl in Hf. lia.
    + exists m'. split; [exact E | split; [exact Hseg' | split]].
      * intros x Hx. rewrite Hfr by lia. cbn. apply upd_neq. lia.
      * exact (proj1 (a_coalesce_head_ok _ Hok1)).
  - simpl in Hfind.
    replace (a + off) with (a + (META + s) + (off - (META + s))) by lia.
    destruct (IH (a + (META + s)) e st (off - (META + s)) fuel)
      as (m' & E & Hseg' & Hfr & Hok3); try assumption; try lia.
    { simpl in Hf. lia. }
    exists m'. split; [exact E | split; [| split]].
    + cbn [seg fst snd]. rewrite Hfr by lia.
      repeat split; try assumption.
      rewrite Hn. now rewrite a_free_match.
    + intros x Hx. apply Hfr. lia.
    + apply block_ok_cons. split; [| assumption].
      cbn [fst snd]. repeat split; assumption.
Qed.

Lemma a_extend_cons (bs : Z) (b b' : ablock) (bl : list ablock) :
  a_extend META bs (b :: b' :: bl)
  = (META + fst b + fst (a_extend META bs (b' :: bl)),
     b :: snd (a_extend META bs (b' :: bl))).
Proof.
  assert (H : forall r : Z * list ablock,
             (let '(o, l) := r in (META + fst b + o, b :: l))
             = (META + fst b + fst r, b :: snd r))
    by (intros [o l]; reflexivity).
  rewrite <- H. destruct b as [s t]. destruct t; reflexivity.
Qed.

Lemma a_extend_nil (bs : Z) (bl : list ablock) :
  snd (a_extend META bs bl) <> [].
Proof.
  destruct bl as [| [s t] bl]; [discriminate |].
  destruct bl as [| b' bl].
  - destruct t; discriminate.
  - rewrite a_extend_cons. discriminate.
Qed.

Lemma sbrk_ok (inc : Z) (st : state) :
  0 <= inc -> 0 < brk st -> brk st + inc <= brk_limit ->
  sbrk brk_limit inc st = Done (brk st, set_brk (brk st + inc) st).
Proof.
  intros H0 Hb Hl. unfold sbrk, to_signed.
  replace (inc <? 2 ^ 63) with true by (symmetry; apply Z.ltb_lt; lia).
  replace (0 <=? brk st + inc) with true by (symmetry; apply Z.leb_le; lia).
  replace (brk st + inc <=? brk_limit) with true
    by (symmetry; apply Z.leb_le; lia).
  reflexivity.
Qed.

(** [request_space] on a non-empty heap followed by the ALLOC mark. *)
Lemma extend_seg (bs : Z) (bl : list ablock) :
  forall a st,
    bl <> [] ->
    0 < a ->
    Forall block_ok bl ->
    hseg (mem st) a bl (brk st) ->
    brk st + bs <= brk_limit ->
    Forall (fun b => fits META bs b = false) bl ->
    META <= bs -> bs mod 8 = 0 ->
    exists st0 m' e',
      request_space sizeof_block_meta brk_limit (a + last_off META bl) bs st
      = Done (a + fst (a_extend META bs bl), st0) /\
      set_status (a + fst (a_extend META bs bl)) STATUS_ALLOC st0
      = set_brk e' (set_mem m' st) /\
      hseg m' a (snd (a_extend META bs bl)) e' /\
      brk st <= e' <= brk st + bs /\
      (forall x, x < a -> m' x = mem st x) /\
      Forall block_ok (snd (a_extend META bs bl)).
Proof.
  pose proof META_bounds as HM.
  induction bl as [| [s t] bl IH];
    intros a st Hnil Ha Hok Hseg Hroom Hfits Hbs Hbs8; [congruence |].
  pose proof Hok as Hok0.
  apply block_ok_cons in Hok as [(Hb0 & Hb8 & Hbt) Hok'].
  destruct Hseg as (Hs & Ht & Hn & Htl). cbn [fst snd] in *.
  pose proof (seg_bound _ _ _ _ Hok' Htl) as Hbd.
  destruct bl as [| b' bl].
  - simpl in Htl. cbn [last_off]. rewrite Z.add_0_r.
    unfold request_space.
    replace (a =? 0) with false by (symmetry; apply Z.eqb_neq; lia).
    rewrite Ht, Hs. simpl negb.
    assert (Htot : TOT s = s + META).
    { apply TOT_aligned; try assumption. rewrite wB_eq. lia. }
    destruct t; simpl andb; cbv iota.
    + (* the tail is FREE: it grows *)
      apply Forall_inv in Hfits. unfold fits in Hfits. simpl in Hfits.
      apply Z.leb_gt in Hfits.
      rewrite Htot.
      assert (Hw : wrap (bs - (s + META)) = bs - (s + META))
        by (unfold wrap; apply Z.mod_small; rewrite wB_eq; lia).
      rewrite Hw. rewrite sbrk_ok by lia. cbn [bind]. cbn [mem set_brk].
      rewrite Hs, Htot, Hw.
      assert (Hw2 : wrap (s + (bs - (s + META))) = bs - META).
      { replace (s + (bs - (s + META))) with (bs - META) by lia.
        unfold wrap. apply Z.mod_small. rewrite wB_eq. lia. }
      rewrite Hw2. simpl a_extend. cbn [fst snd]. rewrite Z.add_0_r.
      set (st0 := set_size a (bs - META)
                    (set_brk (brk st + (bs - (s + META))) st)).
      exists st0, (mem (set_status a STATUS_ALLOC st0)),
        (brk st + (bs - (s + META))).
      split; [reflexivity | split; [reflexivity | split; [| split; [| split]]]].
      * cbn [seg fst snd]. unfold st0. mem_simpl.
        repeat split; try assumption. lia.
      * lia.
      * intros x Hx. unfold st0. mem_simpl. reflexivity.
      * apply block_ok_cons. split; [| constructor].
        cbn [fst snd]. repeat split; try lia; try congruence. zmod.
    + (* the tail is ALLOC: a new block follows it *)
      rewrite sbrk_ok by lia. cbn [bind].
      replace (a =? 0) with false by (symmetry; apply Z.eqb_neq; lia).
      assert (Hw : wrap (bs - META) = bs - META)
        by (unfold wrap; apply Z.mod_small; rewrite wB_eq; lia).
      rewrite Hw. simpl a_extend. cbn [fst snd].
      replace (a + (META + s + 0)) with (brk st) by lia.
      set (st0 := set_next a (brk st)
                    (set_next (brk st) 0
                       (set_status (brk st) STATUS_FREE
                          (set_size (brk st) (bs - META)
                             (set_brk (brk st + bs) st))))).
      exists st0, (mem (set_status (brk st) STATUS_ALLOC st0)),
        (brk st + bs).
      split; [reflexivity | split; [reflexivity | split; [| split; [| split]]]].
      * cbn [seg fst snd]. unfold st0. mem_simpl.
        rewrite <- Htl. mem_simpl.
        repeat split; try assumption; try lia.
      * lia.
      * intros x Hx. unfold st0. mem_simpl. reflexivity.
      * apply block_ok_cons. split.
        { cbn [fst snd]. repeat split; try lia; congruence. }
        apply block_ok_cons. split; [| constructor].
        cbn [fst snd]. repeat split; try lia; try congruence. zmod.
    + congruence.
  - rewrite a_extend_cons. cbn [fst snd].
    change (last_off META ((s, t) :: b' :: bl))
      with (META + fst (s, t) + last_off META (b' :: bl)).
    cbn [fst].
    apply Forall_inv_tail in Hfits.
    destruct (IH (a + (META + s)) st)
      as (st0 & m' & e' & E & E2 & Hseg' & He' & Hfr & Hok3);
      try assumption; try lia; try discriminate.
    replace (a + (META + s + last_off META (b' :: bl)))
      with (a + (META + s) + last_off META (b' :: bl)) by lia.
    replace (a + (META + s + fst (a_extend META bs (b' :: bl))))
      with (a + (META + s) + fst (a_extend META bs (b' :: bl))) by lia.
    rewrite E. exists st0, m', e'.
    split; [reflexivity | split; [exact E2 | split; [| split; [| split]]]].
    + cbn [seg fst snd]. rewrite Hfr by lia.
      repeat split; try assumption.
      rewrite Hn.
      pose proof (a_extend_nil bs (b' :: bl)) as Hnn.
      destruct (snd (a_extend META bs (b' :: bl))); [congruence | reflexivity].
    + lia.
    + intros x Hx. apply Hfr. lia.
    + apply block_ok_cons. split; [| assumption].
      cbn [fst snd]. repeat split; assumption.
Qed.

(** * Best fit on the block sequence *)

Lemma a_best_spec (bs : Z) (bl : list ablock) :
  forall off best,
    match a_best META bs off best bl with
    | None => best = None /\ Forall (fun b => fits META bs b = false) bl
    | Some (o, sz) =>
        (best = Some (o, sz) /\
         Forall (fun b => fits META bs b = true -> sz <= fst b) bl)
        \/
        (exists l1 l2,
            bl = l1 ++ (sz, STATUS_FREE) :: l2 /\
            o = off + hext l1 /\
            bs <= sz + META /\
            Forall (fun b => fits META bs b = true -> sz < fst b) l1 /\
            Forall (fun b => fits META bs b = true -> sz <= fst b) l2 /\
            (forall o' sz', best = Some (o', sz') -> sz < sz'))
    end.
Proof.
  induction bl as [| b bl IH]; intros off best.
  - simpl. destruct best as [[o sz] |]; [left |]; split; auto.
  - cbn [a_best].
    set (best' :=
           if fits META bs b then
             match best with
             | None => Some (off, fst b)
             | Some (_, bsz) =>
                 if fst b <? bsz then Some (off, fst b) else best
             end
           else best).
    specialize (IH (off + (META + fst b)) best').
    destruct (a_best META bs (off + (META + fst b)) best' bl)
      as [[o sz] |].
    + destruct IH as [[Eb Hall] | (l1 & l2 & El & Eo & Hfit & H1 & H2 & Hb)].
      * (* the block kept comes from [best'] *)
        unfold best' in Eb.
        destruct (fits META bs b) eqn:Efit.
        -- destruct best as [[o' bsz] |].
           ++ destruct (Z.ltb_spec (fst b) bsz) as [Hlt | Hge].
              ** injection Eb as <- <-. right. exists [], bl.
                 unfold fits in Efit. apply andb_true_iff in Efit as [Es Ef].
                 apply status_eqb_eq in Es. apply Z.leb_le in Ef.
                 destruct b as [s t]. cbn [fst snd] in *. subst t.
                 repeat split; auto.
                 { simpl. lia. }
                 { intros o'' sz'' [= <- <-]. assumption. }
              ** left. split; [assumption |].
                 constructor; [| assumption]. intros _.
                 injection Eb as <- <-. lia.
           ++ injection Eb as <- <-. right. exists [], bl.
              unfold fits in Efit. apply andb_true_iff in Efit as [Es Ef].
              apply status_eqb_eq in Es. apply Z.leb_le in Ef.
              destruct b as [s t]. cbn [fst snd] in *. subst t.
              repeat split; auto.
              { simpl. lia. }
              { intros o'' sz'' [=]. }
        -- left. split; [assumption |].
           constructor; [| assumption]. congruence.
      * (* the block kept lies in [bl] *)
        right. exists (b :: l1), l2. subst bl.
        repeat split; auto.
        -- simpl. lia.
        -- constructor; [| assumption]. intros Efit.
           unfold best' in Hb. rewrite Efit in Hb.
           destruct best as [[o' bsz] |].
           ++ destruct (Z.ltb_spec (fst b) bsz) as [Hlt | Hge].
              ** now apply (Hb off).
              ** specialize (Hb o' bsz eq_refl). lia.
           ++ now apply (Hb off).
        -- intros o' sz' ->. unfold best' in Hb.
           destruct (fits META bs b).
           ++ destruct (Z.ltb_spec (fst b) sz') as [Hlt | Hge].
              ** specialize (Hb off (fst b) eq_refl). lia.
              ** now apply (Hb o').
           ++ now apply (Hb o').
    + destruct IH as [Eb Hall]. unfold best' in Eb.
      destruct (fits META bs b) eqn:Efit.
      * destruct best as [[o' bsz] |]; [| discriminate].
        destruct (fst b <? bsz); discriminate.
      * split; [assumption | constructor; assumption].
Qed.

Lemma a_find_app (l1 l2 : list ablock) (b : ablock) :
  a_find META (hext l1) (l1 ++ b :: l2) = true.
Proof.
  induction l1 as [| c l1 IH]; simpl.
  - reflexivity.
  - replace (META + fst c + hext l1 - (META + fst c)) with (hext l1) by lia.
    rewrite IH. apply orb_true_r.
Qed.

Lemma a_best_found (bs : Z) (bl : list ablock) (o sz : Z) :
  a_best META bs 0 None bl = Some (o, sz) ->
  a_find META o bl = true.
Proof.
  intros E. pose proof (a_best_spec bs bl 0 None) as H. rewrite E in H.
  destruct H as [[? _] | (l1 & l2 & -> & -> & _)]; [discriminate |].
  apply a_find_app.
Qed.

Lemma a_best_none (bs : Z) (bl : list ablock) :
  a_best META bs 0 None bl = None ->
  Forall (fun b => fits META bs b = false) bl.
Proof.
  intros E. pose proof (a_best_spec bs bl 0 None) as H. rewrite E in H.
  apply H.
Qed.

(** * Heap [malloc] and [free] on a well-formed heap *)

Local Abbreviation hrepr := (heap_repr META brk_limit).

Lemma heap_repr_cons (st : state) (b : ablock) (bl : list ablock) :
  hrepr st (b :: bl) <->
  0 < brk st <= brk_limit /\ Forall block_ok (b :: bl) /\
  0 < heap_start st /\ hseg (mem st) (heap_start st) (b :: bl) (brk st).
Proof. unfold heap_repr. tauto. Qed.

Lemma a_extend_nonneg (bs : Z) (bl : list ablock) :
  Forall block_ok bl -> 0 <= fst (a_extend META bs bl).
Proof.
  pose proof META_bounds as HM.
  induction bl as [| b l IHl]; intros Hok.
  - simpl. lia.
  - apply block_ok_cons in Hok as [(Hb0 & _) Hok'].
    destruct l as [| b' l].
    + destruct b as [s t]. cbn [fst] in Hb0. destruct t; simpl; lia.
    + rewrite a_extend_cons. cbn [fst snd] in *.
      specialize (IHl Hok'). lia.
Qed.

Lemma os_malloc_sbrk_heap (st : state) (bl : list ablock) (sz : Z)
  (fuel : nat) :
  bl <> [] ->
  hrepr st bl ->
  0 <= sz -> sz mod 8 = 0 -> sz + META <= 2 ^ 62 ->
  (a_best META (sz + META) 0 None (a_merge META bl) = None ->
   brk st + (sz + META) <= brk_limit) ->
  (length bl < fuel)%nat ->
  exists st',
    os_malloc_sbrk sizeof_block_meta brk_limit fuel sz st
    = Done (heap_start st + fst (a_malloc_sbrk META sz bl) + META, st') /\
    hrepr st' (snd (a_malloc_sbrk META sz bl)) /\
    heap_start st' = heap_start st /\
    mmap_start st' = mmap_start st /\
    threshold st' = threshold st /\
    maps st' = maps st /\
    brk st <= brk st' <= brk st + (sz + META) /\
    (a_best META (sz + META) 0 None (a_merge META bl) <> None ->
     brk st' = brk st).
Proof.
  pose proof META_bounds as HM.
  intros Hnil Hrepr Hsz0 Hsz8 Hszb Hroom Hf.
  assert (Em : a_malloc_sbrk META sz bl
               = match a_best META (sz + META) 0 None (a_merge META bl) with
                 | Some (off, _) =>
                     (off, a_take META off (sz + META) (a_merge META bl))
                 | None => a_extend META (sz + META) (a_merge META bl)
                 end).
  { destruct bl; [congruence | reflexivity]. }
  assert (Ecur : cur_of (heap_start st) bl = heap_start st)
    by (destruct bl; [congruence | reflexivity]).
  assert (Hrepr' : 0 < brk st <= brk_limit /\ Forall block_ok bl /\
                   0 < heap_start st /\
                   hseg (mem st) (heap_start st) bl (brk st)).
  { destruct bl; [congruence |]. now apply heap_repr_cons. }
  destruct Hrepr' as (Hbrk & Hok & Hhs & Hseg).
  assert (He : brk st <= 2 ^ 63) by lia.
  assert (Htot : TOT sz = sz + META).
  { apply TOT_aligned; try assumption. rewrite wB_eq. lia. }
  unfold os_malloc_sbrk.
  replace (heap_start st =? 0) with false by (symmetry; apply Z.eqb_neq; lia).
  cbn [bind]. rewrite Htot. unfold find_best_fit.
  destruct (find_best_fit_from_seg (sz + META) (heap_start st) fuel bl
              (heap_start st) (brk st) st 0 (heap_start st) None 0)
    as (m1 & last1 & E1 & Hseg1 & Hfr1 & Hlast1);
    try assumption; try reflexivity; try lia.
  rewrite Ecur in E1. rewrite E1. cbn [bind].
  pose proof (a_merge_ok _ Hok) as (Hok1 & _ & _).
  assert (Hnil1 : a_merge META bl <> []).
  { intros E. apply (proj1 (a_merge_nil _)) in E. congruence. }
  assert (Hlast : last1 = heap_start st + last_off META (a_merge META bl)).
  { rewrite Hlast1. destruct bl; [congruence | reflexivity]. }
  clear Hlast1. rewrite Em. clear Em.
  remember (a_merge META bl) as mbl eqn:Embl in *.
  destruct (a_best META (sz + META) 0 None mbl) as [[o bsz] |] eqn:Eb.
  - (* a block fits *)
    pose proof (a_best_found _ _ _ _ Eb) as Hfind.
    pose proof (a_find_nonneg _ _ Hok1 Hfind) as Ho.
    cbn [best_addr fst snd].
    replace (heap_start st + o =? 0) with false
      by (symmetry; apply Z.eqb_neq; lia).
    destruct (take_seg (sz + META) mbl (heap_start st)
                (brk st) (set_mem m1 st) o)
      as (E3 & Hseg3 & Hfr3 & Hok3); try assumption; try lia.
    { zmod. }
    match goal with
    | |- exists st', Done (_, ?s) = _ /\ _ => set (st3 := s) in *
    end.
    exists st3. split; [reflexivity |].
    rewrite E3. cbn [heap_start mmap_start threshold maps brk set_mem].
    split; [| repeat split; lia].
    unfold heap_repr. cbn [heap_start brk mem set_mem].
    split; [lia | split; [assumption |]].
    rewrite a_take_match.
    destruct mbl; [congruence |]. split; assumption.
  - (* no block fits: the heap grows *)
    specialize (Hroom eq_refl).
    cbn [best_addr fst snd]. change (0 =? 0) with true. cbv iota.
    destruct (extend_seg (sz + META) mbl (heap_start st) (set_mem m1 st))
      as (st0 & m2 & e2 & E2 & E3 & Hseg2 & He2 & Hfr2 & Hok2);
      try assumption; try lia.
    { now apply a_best_none. }
    { zmod. }
    rewrite Hlast, E2. cbn [bind].
    pose proof (a_extend_nil (sz + META) mbl) as Hnn.
    pose proof (a_extend_nonneg (sz + META) mbl Hok1) as Hpos.
    replace (heap_start st + fst (a_extend META (sz + META) mbl) =? 0)
      with false by (symmetry; apply Z.eqb_neq; lia).
    rewrite E3. eexists. split; [reflexivity |].
    cbn [heap_start mmap_start threshold maps brk set_mem set_brk].
    cbn [brk set_mem] in He2.
    split; [| repeat split; try lia; congruence].
    unfold heap_repr. cbn [heap_start brk mem set_mem set_brk].
    split; [lia | split; [assumption |]].
    destruct (snd (a_extend META (sz + META) mbl)); [congruence |].
    split; assumption.
Qed.

Lemma heap_init_repr (st : state) :
  heap_start st = 0 ->
  0 < brk st -> brk st + INITIAL_HEAP_SIZE <= brk_limit ->
  exists st0,
    heap_init sizeof_block_meta brk_limit st = Done st0 /\
    hrepr st0 [(131072 - META, STATUS_FREE)] /\
    heap_start st0 = brk st /\
    mmap_start st0 = mmap_start st /\
    threshold st0 = threshold st /\
    maps st0 = maps st /\
    brk st0 = brk st + INITIAL_HEAP_SIZE.
Proof.
  pose proof META_bounds as HM.
  intros Hhs Hb Hroom. unfold heap_init, request_space.
  change INITIAL_HEAP_SIZE with 131072 in *.
  simpl (negb (0 =? 0) && _). cbv iota.
  rewrite sbrk_ok by lia. cbn [bind]. simpl (0 =? 0). cbv iota.
  assert (Hw : wrap (131072 - META) = 131072 - META)
    by (unfold wrap; apply Z.mod_small; rewrite wB_eq; lia).
  rewrite Hw.
  eexists. split; [reflexivity |].
  split; [| repeat split; cbn; lia].
  unfold heap_repr.
  cbn [heap_start brk set_heap_start set_next set_status set_size set_mem
         set_brk].
  split; [lia | split; [| split; [lia |]]].
  - constructor; [| constructor]. unfold block_ok. cbn [fst snd].
    repeat split; try lia; try congruence. zmod.
  - set (stx := set_next (brk st) 0 _).
    cbn [mem set_heap_start seg fst snd]. unfold stx. mem_simpl.
    repeat split. lia.
Qed.

(** The first header: [heap_start], or the program break when the heap is
    not set up yet. *)
Lemma os_malloc_sbrk_repr (st : state) (bl : list ablock) (sz : Z)
  (fuel : nat) :
  hrepr st bl ->
  0 <= sz -> sz mod 8 = 0 -> sz + META <= INITIAL_HEAP_SIZE ->
  brk st + INITIAL_HEAP_SIZE <= brk_limit ->
  (length bl + 2 <= fuel)%nat ->
  let base := if heap_start st =? 0 then brk st else heap_start st in
  exists st',
    os_malloc_sbrk sizeof_block_meta brk_limit fuel sz st
    = Done (base + fst (a_malloc_sbrk META sz bl) + META, st') /\
    hrepr st' (snd (a_malloc_sbrk META sz bl)) /\
    heap_start st' = base /\
    mmap_start st' = mmap_start st /\
    threshold st' = threshold st /\
    maps st' = maps st /\
    brk st <= brk st' <= brk st + INITIAL_HEAP_SIZE.
Proof.
  pose proof META_bounds as HM.
  intros Hrepr Hsz0 Hsz8 Hszb Hroom Hf base.
  change INITIAL_HEAP_SIZE with 131072 in *.
  destruct bl as [| b0 bl0].
  - destruct Hrepr as (Hbrk & _ & Hhs). unfold base. rewrite Hhs.
    simpl (0 =? 0). cbv iota.
    destruct (heap_init_repr st) as (st0 & E0 & Hr0 & G1 & G2 & G3 & G4 & G5);
      try assumption; try lia.
    change INITIAL_HEAP_SIZE with 131072 in *.
    assert (Hfit : a_best META (sz + META) 0 None
                     (a_merge META [(131072 - META, STATUS_FREE)]) <> None).
    { intros Eb.
      cbn [a_merge a_coalesce_head a_coalesce a_best] in Eb.
      unfold fits in Eb. cbn [fst snd status_eqb andb] in Eb.
      replace (sz + META <=? 131072 - META + META) with true in Eb
        by (symmetry; apply Z.leb_le; lia).
      discriminate. }
    destruct (os_malloc_sbrk_heap st0 [(131072 - META, STATUS_FREE)] sz fuel)
      as (st' & E & Hr & H1 & H2 & H3 & H4 & H5 & H6);
      try assumption; try lia; try discriminate.
    { intros Eb. contradiction. }
    specialize (H6 Hfit).
    exists st'.
    split; [| split; [exact Hr | repeat split; try congruence; lia]].
    rewrite <- G1. etransitivity; [| exact E].
    unfold os_malloc_sbrk. rewrite Hhs, E0.
    simpl (0 =? 0). cbv iota. cbn [bind].
    replace (heap_start st0 =? 0) with false
      by (symmetry; apply Z.eqb_neq; lia).
    reflexivity.
  - pose proof Hrepr as Hrepr0.
    apply heap_repr_cons in Hrepr as (Hbrk & Hok & Hhs & Hseg).
    unfold base.
    replace (heap_start st =? 0) with false
      by (symmetry; apply Z.eqb_neq; lia).
    destruct (os_malloc_sbrk_heap st (b0 :: bl0) sz fuel)
      as (st' & E & Hr & H1 & H2 & H3 & H4 & H5 & _);
      try assumption; try lia; try discriminate.
    exists st'.
    split; [exact E | split; [exact Hr | repeat split; try assumption; lia]].
Qed.

Lemma os_malloc_heap (st : state) (bl : list ablock) (n addr : Z)
  (fuel : nat) :
  hrepr st bl ->
  threshold st = MMAP_THRESHOLD ->
  0 < n <= MMAP_THRESHOLD - META - 8 ->
  brk st + INITIAL_HEAP_SIZE <= brk_limit ->
  (length bl + 2 <= fuel)%nat ->
  let base := if heap_start st =? 0 then brk st else heap_start st in
  exists st',
    os_malloc sizeof_block_meta brk_limit fuel addr n st
    = Done (base + fst (a_malloc_sbrk META (ALIGN n) bl) + META, st') /\
    hrepr st' (snd (a_malloc_sbrk META (ALIGN n) bl)) /\
    heap_start st' = base /\
    mmap_start st' = mmap_start st /\
    threshold st' = threshold st /\
    maps st' = maps st /\
    brk st <= brk st' <= brk st + INITIAL_HEAP_SIZE.
Proof.
  pose proof META_bounds as HM.
  intros Hrepr Hth Hn Hroom Hf.
  change MMAP_THRESHOLD with 131072 in *.
  change INITIAL_HEAP_SIZE with 131072 in *.
  pose proof (ALIGN_range n) as (Ha0 & Ha8).
  pose proof (ALIGN_round_up n) as Hup.
  rewrite wB_eq in Hup.
  assert (Htot : TOT (ALIGN n) = ALIGN n + META).
  { apply TOT_aligned; try lia. rewrite wB_eq. lia. }
  assert (Hos : os_malloc sizeof_block_meta brk_limit fuel addr n st
                = os_malloc_sbrk sizeof_block_meta brk_limit fuel (ALIGN n) st).
  { unfold os_malloc.
    replace (n <=? 0) with false by (symmetry; apply Z.leb_gt; lia).
    rewrite Htot, Hth.
    replace (ALIGN n + META <? 131072) with true
      by (symmetry; apply Z.ltb_lt; lia).
    reflexivity. }
  rewrite Hos.
  apply os_malloc_sbrk_repr; try assumption; try lia.
  change INITIAL_HEAP_SIZE with 131072. lia.
Qed.

Lemma os_free_heap (st : state) (bl : list ablock) (ptr : Z) (fuel : nat) :
  hrepr st bl ->
  a_find META (ptr - META - heap_start st) bl = true ->
  (length bl < fuel)%nat ->
  exists st',
    os_free sizeof_block_meta fuel ptr st = Done st' /\
    hrepr st' (a_free META (ptr - META - heap_start st) bl) /\
    heap_start st' = heap_start st /\
    mmap_start st' = mmap_start st /\
    threshold st' = threshold st /\
    maps st' = maps st /\
    brk st' = brk st.
Proof.
  pose proof META_bounds as HM.
  intros Hrepr Hfind Hf.
  destruct bl as [| b0 bl0]; [discriminate |].
  apply heap_repr_cons in Hrepr as (Hbrk & Hok & Hhs & Hseg).
  set (bl := b0 :: bl0) in *.
  set (off := ptr - META - heap_start st) in *.
  pose proof (a_find_nonneg _ _ Hok Hfind) as Hoff.
  assert (Hblock : get_block_ptr sizeof_block_meta ptr = heap_start st + off)
    by (unfold get_block_ptr, off; lia).
  unfold os_free.
  replace (ptr =? 0) with false by (symmetry; apply Z.eqb_neq; lia).
  rewrite Hblock.
  pose proof (a_find_status _ _ _ _ _ Hok Hseg Hfind) as Hst.
  apply status_eqb_neq in Hst. rewrite Hst.
  unfold os_free_sbrk, find_block_in_heap. rewrite Hblock.
  pose proof (find_block_in_heap_from_seg bl (heap_start st) (brk st) st fuel
                (heap_start st + off) Hhs Hok Hseg Hf) as Efind.
  change (cur_of (heap_start st) bl) with (heap_start st) in Efind.
  rewrite Efind.
  replace (heap_start st + off - heap_start st) with off by lia.
  rewrite Hfind. cbn [bind].
  replace (heap_start st + off =? 0) with false
    by (symmetry; apply Z.eqb_neq; lia).
  destruct (free_seg bl (heap_start st) (brk st) st off fuel)
    as (m' & E & Hseg' & Hfr & Hok'); try assumption; try lia.
  rewrite E. eexists. split; [reflexivity |].
  split; [| repeat split; reflexivity].
  unfold heap_repr. cbn [heap_start brk mem set_mem].
  split; [lia | split; [assumption |]].
  rewrite a_free_match. unfold bl at 1. split; assumption.
Qed.

Lemma walk_heap_seg (bl : list ablock) :
  forall a e st fuel,
    0 < a -> Forall block_ok bl ->
    hseg (mem st) a bl e -> (length bl < fuel)%nat ->
    walk_heap fuel (cur_of a bl) st = bl.
Proof.
  pose proof META_bounds as HM.
  induction bl as [| [s t] bl IH]; intros a e st fuel Ha Hok Hseg Hf;
    (destruct fuel as [| f]; [simpl in Hf; lia |]).
  - reflexivity.
  - apply block_ok_cons in Hok as [(Hb0 & _) Hok'].
    destruct Hseg as (Hs & Ht & Hn & Htl). cbn [fst snd] in *.
    simpl. replace (a =? 0) with false by (symmetry; apply Z.eqb_neq; lia).
    rewrite Hs, Ht. f_equal.
    rewrite <- (IH (a + (META + s)) e st f); try assumption; try lia.
    + rewrite Hn. now destruct bl.
    + simpl in Hf. lia.
Qed.

Lemma walk_heap_repr (st : state) (bl : list ablock) (fuel : nat) :
  hrepr st bl -> (length bl < fuel)%nat ->
  walk_heap fuel (heap_start st) st = bl.
Proof.
  intros Hr Hf. destruct bl as [| b bl].
  - destruct Hr as (_ & _ & ->). destruct fuel; reflexivity.
  - apply heap_repr_cons in Hr as (_ & Hok & Hhs & Hseg).
    now apply (walk_heap_seg (b :: bl) (heap_start st) (brk st)).
Qed.

Lemma META_cases : In META [8; 16; 24; 32; 40; 48; 56; 64].
Proof.
  pose proof META_bounds as (Hb & Hm). simpl.
  assert (H : META = 8 \/ META = 16 \/ META = 24 \/ META = 32 \/
              META = 40 \/ META = 48 \/ META = 56 \/ META = 64)
    by (Z.div_mod_to_equations; lia).
  intuition congruence.
Qed.

(** Case analysis on the header size, for facts that only need the block
    sequence functions to be run. *)
Ltac meta_cases :=
  let H := fresh in
  pose proof META_cases as H; simpl In in H;
  generalize dependent (META_SIZE sizeof_block_meta); intros M H;
  repeat (destruct H as [<- | H]; [vm_compute; repeat split; congruence |]);
  contradiction.

Lemma initial_state_repr (b0 : Z) (m : memory) :
  0 < b0 <= brk_limit -> hrepr (initial_state b0 m) [].
Proof. intros H. repeat split; try apply H. constructor. Qed.

Lemma first_malloc_blocks :
  a_malloc_sbrk META 104 []
  = (0, [(104, STATUS_ALLOC); (131072 - 2 * META - 104, STATUS_FREE)]).
Proof. meta_cases. Qed.

(** * Adjacent FREE blocks *)

Lemma naf_cons_free (s : Z) (bl : list ablock) :
  no_adjacent_free ((s, STATUS_FREE) :: bl)
  <-> head_not_free bl /\ no_adjacent_free bl.
Proof.
  destruct bl as [| [s1 t1] bl]; simpl; [tauto |].
  destruct t1; tauto.
Qed.

Lemma naf_cons_other (s : Z) (t : status_t) (bl : list ablock) :
  t <> STATUS_FREE ->
  (no_adjacent_free ((s, t) :: bl) <-> no_adjacent_free bl).
Proof. destruct t; simpl; tauto. Qed.

Lemma naf_tail (b : ablock) (bl : list ablock) :
  no_adjacent_free (b :: bl) -> no_adjacent_free bl.
Proof.
  destruct b as [s t]. destruct t.
  - intros H. now apply naf_cons_free in H.
  - now apply naf_cons_other.
  - now apply naf_cons_other.
Qed.

Lemma a_coalesce_naf (bl : list ablock) :
  forall s,
    no_adjacent_free bl ->
    no_adjacent_free (snd (a_coalesce META s bl)).
Proof.
  induction bl as [| [s1 t1] bl IH]; intros s H; simpl; [exact I |].
  destruct t1; try exact H. apply IH. now apply naf_tail in H.
Qed.

Lemma a_coalesce_head_naf (bl : list ablock) :
  no_adjacent_free (match bl with [] => [] | _ :: r => r end) ->
  no_adjacent_free (a_coalesce_head META bl).
Proof.
  destruct bl as [| [s t] bl]; simpl; [tauto |]. intros H.
  destruct t.
  - pose proof (a_coalesce_naf bl s H) as H1.
    pose proof (a_coalesce_stop bl s) as H2.
    destruct (a_coalesce META s bl) as [s' r]. cbn [snd] in *.
    apply naf_cons_free. split; [| exact H1].
    destruct r as [| [s1 t1] r]; [exact I |].
    destruct t1; [contradiction | exact I | exact I].
  - now apply naf_cons_other.
  - now apply naf_cons_other.
Qed.

Lemma a_merge_naf (bl : list ablock) : no_adjacent_free (a_merge META bl).
Proof.
  induction bl as [| b bl IH]; [exact I |].
  change (a_merge META (b :: bl))
    with (a_coalesce_head META (b :: a_merge META bl)).
  now apply a_coalesce_head_naf.
Qed.

Lemma a_coalesce_hnf (bl : list ablock) (s : Z) :
  head_not_free bl -> a_coalesce META s bl = (s, bl).
Proof.
  destruct bl as [| [s1 t1] bl]; [reflexivity |].
  destruct t1; simpl; [contradiction | reflexivity | reflexivity].
Qed.

Lemma a_merge_fixed (bl : list ablock) :
  no_adjacent_free bl -> a_merge META bl = bl.
Proof.
  induction bl as [| [s t] bl IH]; intros H; [reflexivity |].
  change (a_merge META ((s, t) :: bl))
    with (a_coalesce_head META ((s, t) :: a_merge META bl)).
  rewrite IH by (now apply naf_tail in H).
  destruct t; try reflexivity.
  apply naf_cons_free in H as [Hh _]. simpl.
  now rewrite a_coalesce_hnf.
Qed.

Lemma extent_pos (b : ablock) (l : list ablock) :
  Forall block_ok (b :: l) -> (hext (b :: l) =? 0) = false.
Proof.
  pose proof META_bounds as HM. intros Hok.
  pose proof (extent_nonneg _ Hok) as H.
  apply block_ok_cons in Hok as [(Hb0 & _) Hok'].
  pose proof (extent_nonneg _ Hok') as H'.
  apply Z.eqb_neq. simpl in *. lia.
Qed.

Lemma extent_cons_sub (s : Z) (t : status_t) (l : list ablock) :
  hext ((s, t) :: l) - (META + s) = hext l.
Proof. simpl. lia. Qed.

Lemma a_take_app (bs s : Z) (t : status_t) (l1 l2 : list ablock) :
  Forall block_ok l1 ->
  a_take META (hext l1) bs (l1 ++ (s, t) :: l2)
  = l1 ++ (if bs <? s
           then [(bs - META, STATUS_ALLOC); (s - bs, STATUS_FREE)]
           else [(s, STATUS_ALLOC)]) ++ l2.
Proof.
  induction l1 as [| [s1 t1] l1 IH]; intros Hok.
  - simpl. destruct (bs <? s); reflexivity.
  - rewrite <- app_comm_cons. cbn [a_take].
    rewrite extent_pos by assumption.
    apply block_ok_cons in Hok as [_ Hok'].
    rewrite extent_cons_sub.
    rewrite IH by assumption. reflexivity.
Qed.

Lemma a_free_app (s : Z) (t : status_t) (l1 l2 : list ablock) :
  Forall block_ok l1 ->
  a_free META (hext l1) (l1 ++ (s, t) :: l2)
  = l1 ++ a_coalesce_head META ((s, STATUS_FREE) :: l2).
Proof.
  induction l1 as [| [s1 t1] l1 IH]; intros Hok.
  - reflexivity.
  - rewrite <- app_comm_cons. cbn [a_free].
    rewrite extent_pos by assumption.
    apply block_ok_cons in Hok as [_ Hok'].
    rewrite extent_cons_sub.
    rewrite IH by assumption. reflexivity.
Qed.

Lemma naf_app_free (l1 l2 : list ablock) (s : Z) :
  no_adjacent_free (l1 ++ (s, STATUS_FREE) :: l2) ->
  head_not_free l2 /\ no_adjacent_free l2 /\
  forall s1 s2,
    no_adjacent_free (l1 ++ (s1, STATUS_ALLOC) :: l2) /\
    no_adjacent_free (l1 ++ (s1, STATUS_ALLOC) :: (s2, STATUS_FREE) :: l2).
Proof.
  induction l1 as [| [s1 t1] l1 IH]; intros H.
  - simpl app in *. apply naf_cons_free in H as [Hh Hn].
    split; [exact Hh | split; [exact Hn |]]. intros s1 s2. split.
    + apply naf_cons_other; [discriminate | exact Hn].
    + apply naf_cons_other; [discriminate |].
      apply naf_cons_free. now split.
  - rewrite <- app_comm_cons in H.
    pose proof (naf_tail _ _ H) as Ht.
    destruct (IH Ht) as (Hh & Hn & Hall).
    split; [exact Hh | split; [exact Hn |]]. intros s3 s4.
    destruct (Hall s3 s4) as [H1 H2].
    rewrite <- !app_comm_cons.
    destruct t1.
    + apply naf_cons_free in H as [Hhd _].
      destruct l1 as [| [s5 t5] l1]; [contradiction |].
      split; apply naf_cons_free; (split; [exact Hhd | assumption]).
    + split; apply naf_cons_other; try discriminate; assumption.
    + split; apply naf_cons_other; try discriminate; assumption.
Qed.

Lemma a_extend_naf (bs : Z) (bl : list ablock) :
  no_adjacent_free bl ->
  no_adjacent_free (snd (a_extend META bs bl)) /\
  (head_not_free bl -> head_not_free (snd (a_extend META bs bl))).
Proof.
  induction bl as [| [s t] bl IH]; intros H.
  - simpl. tauto.
  - destruct bl as [| b' bl].
    + destruct t; simpl; tauto.
    + rewrite a_extend_cons. cbn [fst snd].
      destruct (IH (naf_tail _ _ H)) as [H1 H2].
      split.
      * destruct t.
        -- apply naf_cons_free in H as [Hh _].
           apply naf_cons_free. split; [now apply H2 | exact H1].
        -- apply naf_cons_other; [discriminate | exact H1].
        -- apply naf_cons_other; [discriminate | exact H1].
      * destruct t; simpl; tauto.
Qed.

Lemma a_malloc_sbrk_naf (sz : Z) (bl : list ablock) :
  Forall block_ok bl ->
  no_adjacent_free (snd (a_malloc_sbrk META sz bl)).
Proof.
  intros Hok. unfold a_malloc_sbrk.
  set (bl0 := match bl with
              | [] => [(131072 - META, STATUS_FREE)]
              | _ :: _ => bl
              end).
  assert (Hok0 : Forall block_ok bl0).
  { destruct bl; [| exact Hok]. subst bl0.
    pose proof META_bounds. constructor; [| constructor].
    unfold block_ok. cbn [fst snd].
    repeat split; try lia; try congruence. zmod. }
  pose proof (a_merge_naf bl0) as Hn.
  pose proof (a_merge_ok _ Hok0) as (Hok1 & _ & _).
  pose proof (a_best_spec (sz + META) (a_merge META bl0) 0 None) as Hs.
  destruct (a_best META (sz + META) 0 None (a_merge META bl0))
    as [[o bsz] |]; cbn [snd].
  - destruct Hs as [[? _] | (l1 & l2 & El & -> & _)]; [discriminate |].
    rewrite El in *. apply Forall_app in Hok1 as [Hok1 _].
    rewrite Z.add_0_l, a_take_app by assumption.
    destruct (naf_app_free _ _ _ Hn) as (_ & _ & Hall).
    destruct (sz + META <? bsz);
      [apply (Hall (sz + META - META) (bsz - (sz + META)))
      | apply (Hall bsz 0)].
  - now apply a_extend_naf.
Qed.

Lemma a_free_split (bl : list ablock) :
  forall off,
    a_find META off bl = true ->
    exists l1 s l2,
      a_free META off bl = l1 ++ (s, STATUS_FREE) :: l2 /\
      hext l1 = off /\ head_not_free l2.
Proof.
  induction bl as [| [s t] bl IH]; intros off H; simpl in H;
    [discriminate |].
  cbn [a_free]. destruct (Z.eqb_spec off 0) as [E0 | Hne].
  - exists []. simpl.
    pose proof (a_coalesce_stop bl s) as Hst.
    destruct (a_coalesce META s bl) as [s' r]. cbn [snd] in Hst.
    exists s', r. split; [reflexivity | split; [simpl; lia |]].
    destruct r as [| [s1 t1] r]; [exact I |]. destruct t1; simpl in *; tauto.
  - simpl in H. destruct (IH _ H) as (l1 & s' & l2 & E & Hx & Hh).
    exists ((s, t) :: l1), s', l2. rewrite E. repeat split; auto.
    simpl. lia.
Qed.

Lemma a_free_take (bs s : Z) (l1 l2 : list ablock) :
  Forall block_ok l1 ->
  head_not_free l2 ->
  a_free META (hext l1) (a_take META (hext l1) bs (l1 ++ (s, STATUS_FREE) :: l2))
  = l1 ++ (s, STATUS_FREE) :: l2 /\
  a_find META (hext l1)
    (a_take META (hext l1) bs (l1 ++ (s, STATUS_FREE) :: l2)) = true.
Proof.
  intros Hok Hh. rewrite a_take_app by assumption.
  destruct (bs <? s); cbn [app].
  - split; [| apply a_find_app].
    rewrite a_free_app by assumption. f_equal. simpl.
    replace (bs - META + (s - bs + META)) with s by lia.
    now rewrite a_coalesce_hnf.
  - split; [| apply a_find_app].
    rewrite a_free_app by assumption. f_equal. simpl.
    now rewrite a_coalesce_hnf.
Qed.

Lemma a_take_length (off bs : Z) (bl : list ablock) :
  (length (a_take META off bs bl) <= S (length bl))%nat.
Proof.
  revert off. induction bl as [| [s t] bl IH]; intros off; simpl; [lia |].
  destruct (off =? 0).
  - destruct (bs <? s); simpl; lia.
  - simpl. specialize (IH (off - (META + s))). lia.
Qed.

Lemma a_extend_length (bs : Z) (bl : list ablock) :
  (length (snd (a_extend META bs bl)) <= S (length bl))%nat.
Proof.
  induction bl as [| [s t] bl IH]; [simpl; lia |].
  destruct bl as [| b' bl].
  - destruct t; simpl; lia.
  - rewrite a_extend_cons. cbn [snd]. simpl length in *. lia.
Qed.

Lemma a_coalesce_length (bl : list ablock) (s : Z) :
  (length (snd (a_coalesce META s bl)) <= length bl)%nat.
Proof.
  revert s. induction bl as [| [s1 t1] bl IH]; intros s; simpl; [lia |].
  destruct t1; simpl; try lia. specialize (IH (s + (s1 + META))). lia.
Qed.

Lemma a_coalesce_head_length (bl : list ablock) :
  (length (a_coalesce_head META bl) <= length bl)%nat.
Proof.
  destruct bl as [| [s t] bl]; simpl; [lia |].
  destruct t; simpl; try lia.
  pose proof (a_coalesce_length bl s).
  destruct (a_coalesce META s bl). simpl in *. lia.
Qed.

Lemma a_merge_length (bl : list ablock) :
  (length (a_merge META bl) <= length bl)%nat.
Proof.
  induction bl as [| b bl IH]; [simpl; lia |].
  change (a_merge META (b :: bl))
    with (a_coalesce_head META (b :: a_merge META bl)).
  pose proof (a_coalesce_head_length (b :: a_merge META bl)).
  simpl length in *. lia.
Qed.

Lemma a_free_length (off : Z) (bl : list ablock) :
  (length (a_free META off bl) <= length bl)%nat.
Proof.
  revert off. induction bl as [| [s t] bl IH]; intros off; [simpl; lia |].
  cbn [a_free]. destruct (off =? 0).
  - pose proof (a_coalesce_head_length ((s, STATUS_FREE) :: bl)).
    simpl length in *. lia.
  - specialize (IH (off - (META + s))). simpl length. lia.
Qed.

Lemma a_malloc_sbrk_length (sz : Z) (bl : list ablock) :
  (length (snd (a_malloc_sbrk META sz bl)) <= length bl + 2)%nat.
Proof.
  unfold a_malloc_sbrk.
  set (bl0 := match bl with
              | [] => [(131072 - META, STATUS_FREE)]
              | _ :: _ => bl
              end).
  assert (Hl0 : (length bl0 <= length bl + 1)%nat)
    by (subst bl0; destruct bl; simpl; lia).
  pose proof (a_merge_length bl0) as Hl1.
  destruct (a_best META (sz + META) 0 None (a_merge META bl0))
    as [[o bsz] |]; cbn [snd].
  - pose proof (a_take_length o (sz + META) (a_merge META bl0)). lia.
  - pose proof (a_extend_length (sz + META) (a_merge META bl0)). lia.
Qed.

(** * The entry points *)

(** C3 (as amended): with the default threshold, every request whose total
    size reaches [MMAP_THRESHOLD] is served by mapping, and this includes the
    request of exactly [MMAP_THRESHOLD - META_SIZE] bytes, whose total is the
    threshold itself; every request with a smaller total is served from the
    heap.  The total is computed in [size_t]: for [0 < n < 2^64] it is below
    the threshold exactly when [n <= MMAP_THRESHOLD - META_SIZE - 8] or
    [n >= 2^64 - META_SIZE - 7], where it wraps around. *)
Theorem malloc_threshold_boundary (st : state) (fuel : nat) (addr : Z) :
  threshold st = MMAP_THRESHOLD ->
  addr <> MAP_FAILED ->
  (forall n, 0 < n < wB -> MMAP_THRESHOLD <= TOT n ->
     os_malloc sizeof_block_meta brk_limit fuel addr n st
     = os_malloc_mmap sizeof_block_meta addr (ALIGN n) st /\
     exists st',
       os_malloc sizeof_block_meta brk_limit fuel addr n st
       = Done (addr + META, st') /\
       status (mem st' addr) = STATUS_MAPPED /\
       mmap_start st' = addr /\
       next (mem st' addr) = mmap_start st /\
       heap_start st' = heap_start st /\ brk st' = brk st /\
       (forall x, x <> addr -> mem st' x = mem st x)) /\
  TOT (MMAP_THRESHOLD - META) = MMAP_THRESHOLD /\
  (forall n, 0 < n < wB -> TOT n < MMAP_THRESHOLD ->
     os_malloc sizeof_block_meta brk_limit fuel addr n st
     = os_malloc_sbrk sizeof_block_meta brk_limit fuel (ALIGN n) st) /\
  TOT (MMAP_THRESHOLD - META - 8) = MMAP_THRESHOLD - 8 /\
  (forall n, 0 < n < wB ->
     (TOT n < MMAP_THRESHOLD <->
      n <= MMAP_THRESHOLD - META - 8 \/ wB - META - 7 <= n)).
Proof.
  pose proof META_bounds as HM.
  intros Hth Haddr. change MMAP_THRESHOLD with 131072 in *.
  split; [| split; [| split; [| split]]]; cycle 4.
  { intros n Hn. unfold TOT_SIZE. rewrite ALIGN_spec.
    destruct HM as [HM1 HM8]. clear - Hn HM1 HM8.
    split; [intros H | intros [H | H]]; revert H; zmod. }
  - intros n Hn Htot.
    assert (Hos : os_malloc sizeof_block_meta brk_limit fuel addr n st
                  = os_malloc_mmap sizeof_block_meta addr (ALIGN n) st).
    { unfold os_malloc.
      replace (n <=? 0) with false by (symmetry; apply Z.leb_gt; lia).
      rewrite TOT_ALIGN by lia. rewrite Hth.
      replace (TOT n <? 131072) with false
        by (symmetry; apply Z.ltb_ge; lia).
      reflexivity. }
    split; [exact Hos |].
    rewrite Hos. unfold os_malloc_mmap, mmap.
    replace (addr =? MAP_FAILED) with false
      by (symmetry; apply Z.eqb_neq; assumption).
    cbn [bind]. eexists. split; [reflexivity |].
    cbn [mmap_start heap_start brk set_mmap_start].
    mem_simpl. repeat split.
    intros x Hx. mem_simpl. reflexivity.
  - rewrite TOT_aligned; try lia; [rewrite wB_eq; lia | zmod].
  - intros n Hn Htot. unfold os_malloc.
    replace (n <=? 0) with false by (symmetry; apply Z.leb_gt; lia).
    rewrite TOT_ALIGN by lia. rewrite Hth.
    replace (TOT n <? 131072) with true by (symmetry; apply Z.ltb_lt; lia).
    reflexivity.
  - rewrite TOT_aligned; try lia; [rewrite wB_eq; lia | zmod].
Qed.

(** C7: [realloc(NULL, size)] is [malloc(size)]; [realloc(ptr, 0)] with a
    non-null [ptr] frees [ptr] and returns [NULL]; [realloc(ptr, size)] with
    non-null [ptr] and non-zero [size] on a block whose status is FREE
    returns [NULL] (and changes nothing). *)
Theorem realloc_preliminary_cases (st : state) (fuel : nat) (addr : Z) :
  (forall sz,
     os_realloc sizeof_block_meta brk_limit fuel addr 0 sz st
     = os_malloc sizeof_block_meta brk_limit fuel addr sz st) /\
  (forall ptr, ptr <> 0 ->
     os_realloc sizeof_block_meta brk_limit fuel addr ptr 0 st
     = (st1 <- os_free sizeof_block_meta fuel ptr st ;; Done (0, st1))) /\
  (forall ptr sz, ptr <> 0 -> sz <> 0 ->
     status (mem st (get_block_ptr sizeof_block_meta ptr)) = STATUS_FREE ->
     os_realloc sizeof_block_meta brk_limit fuel addr ptr sz st
     = Done (0, st)).
Proof.
  split; [| split].
  - intros sz. reflexivity.
  - intros ptr Hp. unfold os_realloc.
    replace (ptr =? 0) with false by (symmetry; now apply Z.eqb_neq).
    reflexivity.
  - intros ptr sz Hp Hs Hst. unfold os_realloc.
    replace (ptr =? 0) with false by (symmetry; now apply Z.eqb_neq).
    replace (sz =? 0) with false by (symmetry; now apply Z.eqb_neq).
    now rewrite Hst.
Qed.

Lemma find_block_in_heap_from_absent (st : state) (block : Z) (l : list Z) :
  forall a fuel,
    heap_path (mem st) a l -> ~ In block l -> (length l < fuel)%nat ->
    find_block_in_heap_from fuel a block st = Done 0.
Proof.
  clear Hsizeof Hlimit.
  induction l as [| b l IH]; intros a fuel Hp Hin Hf;
    (destruct fuel as [| f]; [simpl in Hf; lia |]); simpl in *.
  - subst a. reflexivity.
  - destruct Hp as (Ha & -> & Hp).
    replace (a =? 0) with false by (symmetry; now apply Z.eqb_neq).
    replace (a =? block) with false
      by (symmetry; apply Z.eqb_neq; intros ->; apply Hin; now left).
    apply IH; [assumption | tauto | lia].
Qed.

(** C8: for a non-null pointer whose header is not MAPPED and is not met
    when the heap list is walked from [heap_start], [free] leaves the whole
    state as it is, and [realloc] with a non-zero size returns [NULL] and
    leaves the whole state as it is. *)
Theorem foreign_pointer_ignored (st : state) (l : list Z) (fuel : nat)
  (ptr : Z) :
  ptr <> 0 ->
  status (mem st (get_block_ptr sizeof_block_meta ptr)) <> STATUS_MAPPED ->
  heap_path (mem st) (heap_start st) l ->
  ~ In (get_block_ptr sizeof_block_meta ptr) l ->
  (length l < fuel)%nat ->
  os_free sizeof_block_meta fuel ptr st = Done st /\
  (forall addr sz, sz <> 0 ->
     os_realloc sizeof_block_meta brk_limit fuel addr ptr sz st
     = Done (0, st)).
Proof.
  clear Hsizeof Hlimit.
  intros Hp Hst Hpath Hin Hf.
  pose proof (find_block_in_heap_from_absent st _ l _ fuel Hpath Hin Hf)
    as Hfind.
  apply status_eqb_neq in Hst.
  split.
  - unfold os_free.
    replace (ptr =? 0) with false by (symmetry; now apply Z.eqb_neq).
    rewrite Hst. unfold os_free_sbrk, find_block_in_heap. rewrite Hfind.
    reflexivity.
  - intros addr sz Hsz. unfold os_realloc.
    replace (ptr =? 0) with false by (symmetry; now apply Z.eqb_neq).
    replace (sz =? 0) with false by (symmetry; now apply Z.eqb_neq).
    destruct (status_eqb (status (mem st (get_block_ptr sizeof_block_meta ptr)))
                STATUS_FREE); [reflexivity |].
    rewrite Hst. unfold os_realloc_sbrk, find_block_in_heap. rewrite Hfind.
    reflexivity.
Qed.

(** C10: when the product [nmemb * size], computed in [size_t], is zero (in
    particular when [nmemb] or [size] is zero), [calloc] returns [NULL],
    creates no block and leaves the lists and the threshold as they were. *)
Theorem calloc_zero (st : state) (fuel : nat) (addr nmemb sz : Z) :
  threshold st = MMAP_THRESHOLD ->
  (wrap (nmemb * sz) = 0 ->
   os_calloc sizeof_block_meta pagesize brk_limit fuel addr nmemb sz st
   = Done (0, st)) /\
  (nmemb = 0 \/ sz = 0 ->
   os_calloc sizeof_block_meta pagesize brk_limit fuel addr nmemb sz st
   = Done (0, st)).
Proof.
  intros Hth.
  assert (H : wrap (nmemb * sz) = 0 ->
              os_calloc sizeof_block_meta pagesize brk_limit fuel addr
                nmemb sz st = Done (0, st)).
  { intros Hz. unfold os_calloc, os_malloc. rewrite Hz.
    change (0 <=? 0) with true. cbn [bind].
    destruct st as [hs ms th m b mp]. cbn in *. now subst th. }
  split; [exact H |].
  intros [-> | ->]; apply H; [| rewrite Z.mul_0_r]; reflexivity.
Qed.

(** C2 (as amended): when a block with payload size [s] is split to serve a
    required total of [required_total] bytes, at least [META_SIZE] and at
    most [s], the new FREE block created at [block + required_total] has
    payload size [s - required_total] (its own header is taken from the
    surplus) and the first block keeps [required_total - META_SIZE] bytes;
    on a fresh allocator [malloc(100)] leaves the heap list as a block of
    size 104, ALLOC, followed by a block of size
    [131072 - 2 * META_SIZE - 104], FREE. *)
Theorem split_block_surplus :
  (forall st block required_total,
     META <= required_total <= size (mem st block) ->
     size (mem st block) < wB ->
     let st' := split_block sizeof_block_meta block required_total st in
     mem st' (block + required_total)
     = mk_block (size (mem st block) - required_total) STATUS_FREE
         (next (mem st block)) /\
     mem st' block
     = mk_block (required_total - META) (status (mem st block))
         (block + required_total)) /\
  (forall b0 m fuel addr,
     0 < b0 -> b0 + INITIAL_HEAP_SIZE <= brk_limit -> (2 <= fuel)%nat ->
     exists st',
       os_malloc sizeof_block_meta brk_limit fuel addr 100
         (initial_state b0 m)
       = Done (b0 + META, st') /\
       heap_start st' = b0 /\
       walk_heap (S fuel) (heap_start st') st'
       = [(104, STATUS_ALLOC);
          (INITIAL_HEAP_SIZE - 2 * META - 104, STATUS_FREE)] /\
       hrepr st'
         [(104, STATUS_ALLOC);
          (INITIAL_HEAP_SIZE - 2 * META - 104, STATUS_FREE)]).
Proof.
  pose proof META_bounds as HM. split.
  - intros st block rt Hrt Hs st'.
    destruct (split_block_mem block rt st) as (_ & Hb & Hn & _); [lia |].
    fold st' in Hb, Hn. split.
    + rewrite Hn. f_equal. unfold wrap. apply Z.mod_small. lia.
    + rewrite Hb. f_equal. unfold wrap. apply Z.mod_small. lia.
  - intros b0 m fuel addr Hb0 Hroom Hf.
    change INITIAL_HEAP_SIZE with 131072 in *.
    destruct (os_malloc_heap (initial_state b0 m) [] 100 addr fuel)
      as (st' & E & Hr & H1 & _); try reflexivity.
    + apply initial_state_repr. lia.
    + change MMAP_THRESHOLD with 131072. lia.
    + exact Hroom.
    + simpl length. lia.
    + change (ALIGN 100) with 104 in *.
      rewrite first_malloc_blocks in *. cbn [fst snd] in *.
      cbn [heap_start initial_state brk] in E, H1.
      change (0 =? 0) with true in E, H1. cbv iota in E, H1.
      exists st'. split; [| split; [exact H1 | split; [| exact Hr]]].
      * rewrite E. f_equal. f_equal. lia.
      * apply walk_heap_repr; [exact Hr | simpl length; lia].
Qed.

(** ** Best fit *)

Lemma seg_sizes (m : memory) (bl : list ablock) :
  forall a e,
    Forall block_ok bl -> hseg m a bl e ->
    Forall (fun b => a + (META + fst b) <= e) bl.
Proof.
  pose proof META_bounds as HM.
  induction bl as [| b bl IH]; intros a e Hok Hseg; constructor.
  - apply block_ok_cons in Hok as [_ Hok'].
    destruct Hseg as (_ & _ & _ & Htl).
    now apply seg_bound in Htl.
  - apply block_ok_cons in Hok as [(Hb0 & _) Hok'].
    destruct Hseg as (_ & _ & _ & Htl).
    specialize (IH _ _ Hok' Htl).
    eapply Forall_impl; [| exact IH]. cbv beta. intros c Hc. lia.
Qed.

Lemma fits_candidate (bs : Z) (b : ablock) :
  block_ok b -> fst b + META <= 2 ^ 63 ->
  (fits META bs b = true <-> candidate sizeof_block_meta bs b).
Proof.
  pose proof META_bounds as HM.
  intros (Hb0 & Hb8 & _) Hb. unfold fits, candidate.
  rewrite TOT_aligned by (try assumption; rewrite wB_eq; lia).
  rewrite andb_true_iff, status_eqb_eq, Z.leb_le. tauto.
Qed.

Lemma bf_facts :
  fst (bf_r1 META) = 0 /\
  length (snd (bf_r1 META)) = 2%nat /\
  length (snd (bf_r2 META)) = 3%nat /\
  length (snd (bf_r3 META)) = 4%nat /\
  a_find META (fst (bf_r1 META)) (snd (bf_r3 META)) = true /\
  length (bf_l4 META) = 4%nat /\
  a_find META (fst (bf_r3 META)) (bf_l4 META) = true /\
  length (bf_l5 META) = 3%nat /\
  fst (bf_r6 META) = 0.
Proof. meta_cases. Qed.

(** C6: on every well-formed heap [find_best_fit] ends, leaves the heap list
    with each block coalesced as at its visit ([a_merge]), and returns, among
    the blocks of that list that are FREE with [TOT_SIZE(size) >= block_size],
    the one of smallest size, the earliest such on ties ([l1] holds the
    blocks before it, [l2] those after it), or [NULL] when there is none;
    and after [A = malloc(100)], [B = malloc(200)], [C = malloc(100)],
    [free(A)], [free(C)] on a fresh allocator, [malloc(90)] returns [A]. *)
Theorem find_best_fit_smallest_earliest :
  (forall st bl block_size fuel last,
     hrepr st bl -> (length bl < fuel)%nat ->
     exists r last' st',
       find_best_fit sizeof_block_meta fuel last (heap_start st)
         block_size st
       = Done (r, last', st') /\
       hrepr st' (a_merge META bl) /\
       ((r = 0 /\
         Forall (fun b => ~ candidate sizeof_block_meta block_size b)
           (a_merge META bl))
        \/
        (exists l1 sz l2,
            a_merge META bl = l1 ++ (sz, STATUS_FREE) :: l2 /\
            r = heap_start st + hext l1 /\
            candidate sizeof_block_meta block_size (sz, STATUS_FREE) /\
            Forall (fun b => candidate sizeof_block_meta block_size b ->
                             sz < fst b) l1 /\
            Forall (fun b => candidate sizeof_block_meta block_size b ->
                             sz <= fst b) l2))) /\
  (forall b0 m fuel addr,
     0 < b0 -> b0 + 2 ^ 20 <= brk_limit -> (6 <= fuel)%nat ->
     best_fit_scenario sizeof_block_meta brk_limit fuel addr
       (initial_state b0 m)
     = Done (b0 + META, b0 + META)).
Proof.
  pose proof META_bounds as HM. split.
  - intros st bl bs fuel last Hr Hf.
    destruct bl as [| b0 bl0].
    + destruct Hr as (Hbrk & Hok & Hhs). rewrite Hhs.
      destruct fuel as [| f]; [simpl in Hf; lia |].
      exists 0, last, st. split; [reflexivity | split].
      * repeat split; auto; lia.
      * left. split; [reflexivity | constructor].
    + pose proof Hr as Hr0.
      apply heap_repr_cons in Hr as (Hbrk & Hok & Hhs & Hseg).
      set (bl := b0 :: bl0) in *.
      destruct (find_best_fit_from_seg bs (heap_start st) fuel bl
                  (heap_start st) (brk st) st 0 last None 0)
        as (m1 & last1 & E1 & Hseg1 & Hfr1 & Hlast1);
        try assumption; try reflexivity; try lia.
      change (cur_of (heap_start st) bl) with (heap_start st) in E1.
      pose proof (a_merge_ok _ Hok) as (Hok1 & _ & _).
      pose proof (seg_sizes _ _ _ _ Hok1 Hseg1) as Hsz.
      assert (Hcand : Forall (fun b => fits META bs b = true
                                       <-> candidate sizeof_block_meta bs b)
                        (a_merge META bl)).
      { rewrite Forall_forall in *. intros b Hb.
        apply fits_candidate; [now apply Hok1 |].
        specialize (Hsz b Hb). cbv beta in Hsz. lia. }
      eexists _, last1, (set_mem m1 st).
      split; [unfold find_best_fit; exact E1 | split].
      * unfold heap_repr. cbn [heap_start brk mem set_mem].
        split; [assumption | split; [assumption |]].
        rewrite a_merge_match. unfold bl at 1. split; assumption.
      * pose proof (a_best_spec bs (a_merge META bl) 0 None) as Hspec.
        destruct (a_best META bs 0 None (a_merge META bl))
          as [[o sz] |].
        -- right.
           destruct Hspec as [[? _] | (l1 & l2 & El & Eo & Hfit & H1 & H2 & _)];
             [discriminate |].
           exists l1, sz, l2. rewrite El in Hcand.
           apply Forall_app in Hcand as [Hc1 Hc2].
           apply Forall_cons_iff in Hc2 as [Hc Hc2].
           split; [exact El | split; [cbn; lia | split; [| split]]].
           ++ apply Hc. unfold fits. cbn [fst snd status_eqb andb].
              now apply Z.leb_le.
           ++ rewrite Forall_forall in *. intros b Hb Hcb.
              apply H1; [assumption |]. now apply Hc1.
           ++ rewrite Forall_forall in *. intros b Hb Hcb.
              apply H2; [assumption |]. now apply Hc2.
        -- left. split; [reflexivity |].
           destruct Hspec as [_ Hall].
           rewrite Forall_forall in *. intros b Hb Hcb.
           apply (Hcand b Hb) in Hcb. rewrite (Hall b Hb) in Hcb.
           discriminate.
  - intros b0 m fuel addr Hb0 Hroom Hf.
    change (2 ^ 20) with 1048576 in Hroom.
    destruct bf_facts as (F1 & L1 & L2 & L3 & A3 & L4 & A4 & L5 & F6).
    assert (Hn : forall n, 0 < n <= 200 ->
                           0 < n <= MMAP_THRESHOLD - META - 8)
      by (change MMAP_THRESHOLD with 131072; lia).
    change INITIAL_HEAP_SIZE with 131072 in *.
    unfold best_fit_scenario.
    (* A = malloc(100) *)
    destruct (os_malloc_heap (initial_state b0 m) [] 100 addr fuel)
      as (s1 & E1 & R1 & HS1 & _ & T1 & _ & B1);
      try reflexivity; try (apply Hn; lia); try (simpl length; lia).
    { apply initial_state_repr. lia. }
    { change INITIAL_HEAP_SIZE with 131072. cbn [brk initial_state]. lia. }
    cbn [heap_start initial_state brk threshold] in E1, HS1, T1, B1.
    change (0 =? 0) with true in E1, HS1. cbv iota in E1, HS1.
    change (a_malloc_sbrk META (ALIGN 100) []) with (bf_r1 META) in *.
    rewrite E1. cbn [bind].
    (* B = malloc(200) *)
    destruct (os_malloc_heap s1 (snd (bf_r1 META)) 200 addr fuel)
      as (s2 & E2 & R2 & HS2 & _ & T2 & _ & B2);
      try assumption; try (apply Hn; lia); try (change INITIAL_HEAP_SIZE with 131072 in *; lia).
    rewrite HS1 in E2, HS2.
    replace (b0 =? 0) with false in E2, HS2
      by (symmetry; apply Z.eqb_neq; lia).
    change (a_malloc_sbrk META (ALIGN 200) (snd (bf_r1 META)))
      with (bf_r2 META) in *.
    rewrite E2. cbn [bind].
    (* C = malloc(100) *)
    destruct (os_malloc_heap s2 (snd (bf_r2 META)) 100 addr fuel)
      as (s3 & E3 & R3 & HS3 & _ & T3 & _ & B3);
      try (apply Hn; lia); try (change INITIAL_HEAP_SIZE with 131072 in *; lia); try congruence; try assumption.
    rewrite HS2 in E3, HS3.
    replace (b0 =? 0) with false in E3, HS3
      by (symmetry; apply Z.eqb_neq; lia).
    change (a_malloc_sbrk META (ALIGN 100) (snd (bf_r2 META)))
      with (bf_r3 META) in *.
    rewrite E3. cbn [bind].
    (* free(A) *)
    destruct (os_free_heap s3 (snd (bf_r3 META))
                (b0 + fst (bf_r1 META) + META) fuel)
      as (s4 & E4 & R4 & HS4 & _ & T4 & _ & B4); try assumption; try (change INITIAL_HEAP_SIZE with 131072 in *; lia).
    { rewrite HS3.
      replace (b0 + fst (bf_r1 META) + META - META - b0)
        with (fst (bf_r1 META)) by lia.
      exact A3. }
    rewrite HS3 in R4.
    replace (b0 + fst (bf_r1 META) + META - META - b0)
      with (fst (bf_r1 META)) in R4 by lia.
    change (a_free META (fst (bf_r1 META)) (snd (bf_r3 META)))
      with (bf_l4 META) in R4.
    rewrite E4. cbn [bind].
    (* free(C) *)
    destruct (os_free_heap s4 (bf_l4 META)
                (b0 + fst (bf_r3 META) + META) fuel)
      as (s5 & E5 & R5 & HS5 & _ & T5 & _ & B5); try assumption; try (change INITIAL_HEAP_SIZE with 131072 in *; lia).
    { rewrite HS4, HS3.
      replace (b0 + fst (bf_r3 META) + META - META - b0)
        with (fst (bf_r3 META)) by lia.
      exact A4. }
    rewrite HS4, HS3 in R5.
    replace (b0 + fst (bf_r3 META) + META - META - b0)
      with (fst (bf_r3 META)) in R5 by lia.
    change (a_free META (fst (bf_r3 META)) (bf_l4 META))
      with (bf_l5 META) in R5.
    rewrite E5. cbn [bind].
    (* D = malloc(90) *)
    destruct (os_malloc_heap s5 (bf_l5 META) 90 addr fuel)
      as (s6 & E6 & R6 & HS6 & _ & T6 & _ & B6);
      try (apply Hn; lia); try (change INITIAL_HEAP_SIZE with 131072 in *; lia); try congruence; try assumption.
    rewrite HS5, HS4, HS3 in E6.
    replace (b0 =? 0) with false in E6 by (symmetry; apply Z.eqb_neq; lia).
    change (a_malloc_sbrk META (ALIGN 90) (bf_l5 META))
      with (bf_r6 META) in *.
    rewrite E6. cbn [bind]. rewrite F1, F6. f_equal. f_equal; lia.
Qed.

(** ** Coalescing *)

Lemma os_calloc_heap (st : state) (bl : list ablock)
  (nmemb sz addr : Z) (fuel : nat) :
  hrepr st bl ->
  0 < wrap (nmemb * sz) <= MMAP_THRESHOLD - META - 8 ->
  ALIGN (wrap (nmemb * sz)) + META < wrap pagesize ->
  brk st + INITIAL_HEAP_SIZE <= brk_limit ->
  (length bl + 2 <= fuel)%nat ->
  exists p st',
    os_calloc sizeof_block_meta pagesize brk_limit fuel addr nmemb sz st
    = Done (p, st') /\
    hrepr st' (snd (a_malloc_sbrk META (ALIGN (wrap (nmemb * sz))) bl)).
Proof.
  pose proof META_bounds as HM.
  intros Hrepr Hn Hpg Hroom Hf.
  change MMAP_THRESHOLD with 131072 in *.
  change INITIAL_HEAP_SIZE with 131072 in *.
  set (total := wrap (nmemb * sz)) in *.
  pose proof (ALIGN_range total) as (Ha0 & Ha8).
  pose proof (ALIGN_round_up total) as Hup.
  rewrite wB_eq in Hup. specialize (Hup ltac:(lia) ltac:(lia)).
  assert (Htot : TOT (ALIGN total) = ALIGN total + META).
  { apply TOT_aligned; try lia. rewrite wB_eq. lia. }
  unfold os_calloc, os_malloc. fold total.
  replace (total <=? 0) with false by (symmetry; apply Z.leb_gt; lia).
  rewrite Htot. cbn [threshold set_threshold].
  replace (ALIGN total + META <? wrap pagesize) with true
    by (symmetry; apply Z.ltb_lt; lia).
  destruct (os_malloc_sbrk_repr (set_threshold (wrap pagesize) st) bl
              (ALIGN total) fuel)
    as (st1 & E & Hr1 & _);
    try assumption; try lia;
    try (change INITIAL_HEAP_SIZE with 131072; cbn [brk set_threshold]; lia).
  rewrite E. cbn [bind]. eexists _, _. split; [reflexivity |].
  exact Hr1.
Qed.

(** C4 (as amended): on a well-formed heap, after a [malloc] of
    [0 < n <= MMAP_THRESHOLD - META_SIZE - 8] bytes, and after a [calloc]
    whose product modulo [2^64] is in that range and has a total below the
    page size (the requests served from the heap whose total does not wrap
    around), no two consecutive blocks of the heap list are both FREE; after
    the [free] of a heap block that block is FREE and the block after it,
    if any, is not FREE.  (A FREE block may stay directly before the freed
    block: [free] does not merge backwards.) *)
Theorem coalescing_after_malloc_and_free (st : state) (bl : list ablock)
  (fuel : nat) :
  hrepr st bl ->
  (length bl + 2 <= fuel)%nat ->
  (forall n addr,
     threshold st = MMAP_THRESHOLD ->
     0 < n <= MMAP_THRESHOLD - META - 8 ->
     brk st + INITIAL_HEAP_SIZE <= brk_limit ->
     exists p st' bl',
       os_malloc sizeof_block_meta brk_limit fuel addr n st = Done (p, st') /\
       hrepr st' bl' /\
       walk_heap (S fuel) (heap_start st') st' = bl' /\
       no_adjacent_free bl') /\
  (forall nmemb sz addr,
     0 < wrap (nmemb * sz) <= MMAP_THRESHOLD - META - 8 ->
     ALIGN (wrap (nmemb * sz)) + META < wrap pagesize ->
     brk st + INITIAL_HEAP_SIZE <= brk_limit ->
     exists p st' bl',
       os_calloc sizeof_block_meta pagesize brk_limit fuel addr nmemb sz st
       = Done (p, st') /\
       hrepr st' bl' /\
       walk_heap (S fuel) (heap_start st') st' = bl' /\
       no_adjacent_free bl') /\
  (forall ptr,
     a_find META (ptr - META - heap_start st) bl = true ->
     exists st' l1 s l2,
       os_free sizeof_block_meta fuel ptr st = Done st' /\
       hrepr st' (l1 ++ (s, STATUS_FREE) :: l2) /\
       walk_heap fuel (heap_start st') st' = l1 ++ (s, STATUS_FREE) :: l2 /\
       heap_start st' + hext l1 = ptr - META /\
       head_not_free l2).
Proof.
  intros Hr Hf. split; [| split].
  - intros n addr Hth Hn Hroom.
    destruct (os_malloc_heap st bl n addr fuel Hr Hth Hn Hroom Hf)
      as (st' & E & Hr' & _).
    assert (Hok : Forall block_ok bl) by apply Hr.
    pose proof (a_malloc_sbrk_naf (ALIGN n) bl Hok) as Hnaf.
    pose proof (a_malloc_sbrk_length (ALIGN n) bl) as Hlen.
    eexists _, st', _. split; [exact E | split; [exact Hr' | split]].
    + apply walk_heap_repr; [exact Hr' | lia].
    + exact Hnaf.
  - intros nmemb sz addr Hn Hpg Hroom.
    destruct (os_calloc_heap st bl nmemb sz addr fuel Hr Hn Hpg Hroom Hf)
      as (p & st' & E & Hr').
    assert (Hok : Forall block_ok bl) by apply Hr.
    pose proof (a_malloc_sbrk_naf (ALIGN (wrap (nmemb * sz))) bl Hok) as Hnaf.
    pose proof (a_malloc_sbrk_length (ALIGN (wrap (nmemb * sz))) bl) as Hlen.
    eexists p, st', _. split; [exact E | split; [exact Hr' | split]].
    + apply walk_heap_repr; [exact Hr' | lia].
    + exact Hnaf.
  - intros ptr Hfind.
    destruct (os_free_heap st bl ptr fuel Hr Hfind)
      as (st' & E & Hr' & HS & _); [lia |].
    destruct (a_free_split _ _ Hfind) as (l1 & s & l2 & El & Hx & Hh).
    rewrite El in Hr'.
    exists st', l1, s, l2.
    split; [exact E | split; [exact Hr' | split; [| split]]].
    + apply walk_heap_repr; [exact Hr' |].
      rewrite <- El. pose proof (a_free_length (ptr - META - heap_start st) bl).
      lia.
    + rewrite HS. lia.
    + exact Hh.
Qed.

(** ** Round trip *)

(** C9 (as amended): on a well-formed heap in which no two consecutive
    blocks are FREE and some FREE block can hold the request,
    [free(malloc(n))] for [0 < n <= MMAP_THRESHOLD - META_SIZE - 8] (the
    requests served from the heap whose total does not wrap around) restores
    the heap list block for block: the same number of blocks and the same
    total of free bytes. *)
Theorem free_malloc_round_trip (st : state) (bl : list ablock) (fuel : nat)
  (n addr : Z) :
  hrepr st bl ->
  no_adjacent_free bl ->
  Exists (candidate sizeof_block_meta (TOT (ALIGN n))) bl ->
  threshold st = MMAP_THRESHOLD ->
  0 < n <= MMAP_THRESHOLD - META - 8 ->
  brk st + INITIAL_HEAP_SIZE <= brk_limit ->
  (length bl + 2 <= fuel)%nat ->
  exists p st1 st2,
    os_malloc sizeof_block_meta brk_limit fuel addr n st = Done (p, st1) /\
    os_free sizeof_block_meta fuel p st1 = Done st2 /\
    hrepr st2 bl /\
    walk_heap fuel (heap_start st2) st2 = walk_heap fuel (heap_start st) st /\
    length (walk_heap fuel (heap_start st2) st2)
    = length (walk_heap fuel (heap_start st) st) /\
    free_bytes (walk_heap fuel (heap_start st2) st2)
    = free_bytes (walk_heap fuel (heap_start st) st).
Proof.
  pose proof META_bounds as HM.
  intros Hr Hnaf Hex Hth Hn Hroom Hf.
  change MMAP_THRESHOLD with 131072 in *.
  pose proof (ALIGN_range n) as (Ha0 & Ha8).
  pose proof (ALIGN_round_up n) as Hup. rewrite wB_eq in Hup.
  assert (Htot : TOT (ALIGN n) = ALIGN n + META).
  { apply TOT_aligned; try lia. rewrite wB_eq. lia. }
  rewrite Htot in Hex.
  destruct (os_malloc_heap st bl n addr fuel Hr Hth Hn Hroom Hf)
    as (st1 & E1 & Hr1 & HS1 & _).
  destruct bl as [| b0 bl0]; [now apply Exists_nil in Hex |].
  pose proof Hr as Hr0.
  apply heap_repr_cons in Hr as (Hbrk & Hok & Hhs & Hseg).
  set (bl := b0 :: bl0) in *.
  replace (heap_start st =? 0) with false in E1, HS1
    by (symmetry; apply Z.eqb_neq; lia).
  (* the block sequence after [malloc] *)
  assert (Em : exists l1 sz l2,
             bl = l1 ++ (sz, STATUS_FREE) :: l2 /\
             a_malloc_sbrk META (ALIGN n) bl
             = (hext l1, a_take META (hext l1) (ALIGN n + META) bl)).
  { unfold a_malloc_sbrk.
    change (match bl with
            | [] => [(131072 - META, STATUS_FREE)]
            | _ :: _ => bl
            end) with bl.
    rewrite (a_merge_fixed bl Hnaf).
    pose proof (a_best_spec (ALIGN n + META) bl 0 None) as Hs.
    destruct (a_best META (ALIGN n + META) 0 None bl) as [[o bsz] |].
    - destruct Hs as [[? _] | (l1 & l2 & El & -> & _)]; [discriminate |].
      exists l1, bsz, l2. split; [exact El |]. now rewrite Z.add_0_l.
    - exfalso. destruct Hs as [_ Hall].
      pose proof (seg_sizes _ _ _ _ Hok Hseg) as Hsz.
      apply Exists_exists in Hex as (b & Hb & Hc).
      rewrite Forall_forall in Hall, Hsz, Hok.
      apply fits_candidate in Hc; [| now apply Hok |].
      + rewrite (Hall b Hb) in Hc. discriminate.
      + specialize (Hsz b Hb). cbv beta in Hsz. lia. }
  destruct Em as (l1 & sz & l2 & El & Em). rewrite Em in *.
  cbn [fst snd] in *.
  assert (Hok1 : Forall block_ok l1).
  { rewrite El in Hok. now apply Forall_app in Hok as [Hok1 _]. }
  assert (Hh2 : head_not_free l2).
  { rewrite El in Hnaf. now apply naf_app_free in Hnaf as (Hh & _). }
  destruct (a_free_take (ALIGN n + META) sz l1 l2 Hok1 Hh2) as [Eft Efind].
  rewrite <- El in Eft, Efind.
  destruct (os_free_heap st1 _ (heap_start st + hext l1 + META) fuel Hr1)
    as (st2 & E2 & Hr2 & HS2 & _).
  { rewrite HS1.
    replace (heap_start st + hext l1 + META - META - heap_start st)
      with (hext l1) by lia.
    exact Efind. }
  { pose proof (a_take_length (hext l1) (ALIGN n + META) bl). lia. }
  rewrite HS1 in Hr2.
  replace (heap_start st + hext l1 + META - META - heap_start st)
    with (hext l1) in Hr2 by lia.
  rewrite Eft in Hr2.
  assert (Hw : walk_heap fuel (heap_start st2) st2
               = walk_heap fuel (heap_start st) st).
  { rewrite (walk_heap_repr st2 bl fuel Hr2) by lia.
    rewrite (walk_heap_repr st bl fuel Hr0) by lia. reflexivity. }
  exists (heap_start st + hext l1 + META), st1, st2.
  split; [exact E1 | split; [exact E2 | split; [exact Hr2 |]]].
  rewrite Hw. repeat split.
Qed.

(** * Blocks in use *)

Ltac split_all := repeat match goal with |- _ /\ _ => split end.

Lemma a_lookup_nonneg (bl : list ablock) :
  forall off b,
    Forall block_ok bl -> a_lookup META off bl = Some b ->
    0 <= off /\ off mod 8 = 0.
Proof.
  pose proof META_bounds as HM.
  induction bl as [| c bl IH]; intros off b Hok H; simpl in H;
    [discriminate |].
  apply block_ok_cons in Hok as [(Hc0 & Hc8 & _) Hok'].
  destruct (Z.eqb_spec off 0) as [-> | Hne]; [split; [lia | reflexivity] |].
  destruct (IH _ _ Hok' H) as [H0 H8]. split; [lia |].
  clear - H8 Hc8 HM. zmod.
Qed.

Lemma a_lookup_find (bl : list ablock) :
  forall off b, a_lookup META off bl = Some b -> a_find META off bl = true.
Proof.
  induction bl as [| c bl IH]; intros off b H; simpl in *; [discriminate |].
  destruct (off =? 0); [reflexivity |]. simpl. eapply IH; eassumption.
Qed.

Lemma a_find_lookup (bl : list ablock) :
  forall off, a_find META off bl = true ->
              exists b, a_lookup META off bl = Some b.
Proof.
  induction bl as [| c bl IH]; intros off H; simpl in *; [discriminate |].
  destruct (off =? 0); [eauto |]. simpl in H. now apply IH.
Qed.

Lemma seg_lookup (bl : list ablock) :
  forall m a e off b,
    hseg m a bl e -> a_lookup META off bl = Some b ->
    size (m (a + off)) = fst b /\ status (m (a + off)) = snd b.
Proof.
  induction bl as [| c bl IH]; intros m a e off b Hseg H; simpl in H;
    [discriminate |].
  destruct Hseg as (Hs & Ht & _ & Htl).
  destruct (Z.eqb_spec off 0) as [-> | Hne].
  - injection H as <-. rewrite Z.add_0_r. now split.
  - replace (a + off) with (a + (META + fst c) + (off - (META + fst c)))
      by lia.
    eapply IH; eassumption.
Qed.

Lemma a_lookup_app (l1 l2 : list ablock) (b : ablock) :
  Forall block_ok l1 ->
  a_lookup META (hext l1) (l1 ++ b :: l2) = Some b.
Proof.
  induction l1 as [| [s1 t1] l1 IH]; intros Hok; [reflexivity |].
  rewrite <- app_comm_cons. cbn [a_lookup fst].
  rewrite extent_pos by assumption. rewrite extent_cons_sub.
  apply block_ok_cons in Hok as [_ Hok']. now apply IH.
Qed.

Lemma a_coalesce_lookup (l : list ablock) :
  forall s0 x s,
    a_lookup META x l = Some (s, STATUS_ALLOC) ->
    a_lookup META (x - (fst (a_coalesce META s0 l) - s0))
      (snd (a_coalesce META s0 l))
    = Some (s, STATUS_ALLOC).
Proof.
  induction l as [| [s1 t1] l IH]; intros s0 x s H; [discriminate |].
  destruct t1; cbn [a_coalesce fst snd];
    try (replace (x - (s0 - s0)) with x by lia; exact H).
  cbn [a_lookup fst] in H.
  destruct (x =? 0); [discriminate |].
  specialize (IH (s0 + (s1 + META)) _ _ H).
  replace (x - (fst (a_coalesce META (s0 + (s1 + META)) l) - s0))
    with (x - (META + s1)
          - (fst (a_coalesce META (s0 + (s1 + META)) l)
             - (s0 + (s1 + META)))) by lia.
  exact IH.
Qed.

Lemma a_coalesce_head_lookup (bl : list ablock) (o s : Z) :
  a_lookup META o bl = Some (s, STATUS_ALLOC) ->
  a_lookup META o (a_coalesce_head META bl) = Some (s, STATUS_ALLOC).
Proof.
  destruct bl as [| [s0 t0] l]; intros H; [discriminate |].
  destruct t0; try exact H.
  cbn [a_lookup fst] in H. cbn [a_coalesce_head].
  pose proof (a_coalesce_lookup l s0 (o - (META + s0)) s) as Hc.
  destruct (a_coalesce META s0 l) as [s' r]. cbn [fst snd] in Hc.
  cbn [a_lookup fst].
  destruct (o =? 0); [discriminate |].
  replace (o - (META + s')) with (o - (META + s0) - (s' - s0)) by lia.
  now apply Hc.
Qed.

Lemma a_merge_lookup (bl : list ablock) :
  forall o s,
    a_lookup META o bl = Some (s, STATUS_ALLOC) ->
    a_lookup META o (a_merge META bl) = Some (s, STATUS_ALLOC).
Proof.
  induction bl as [| b bl IH]; intros o s H; [discriminate |].
  change (a_merge META (b :: bl))
    with (a_coalesce_head META (b :: a_merge META bl)).
  apply a_coalesce_head_lookup.
  cbn [a_lookup] in *. destruct (o =? 0); [exact H | now apply IH].
Qed.

Lemma a_take_lookup (bs : Z) (bl : list ablock) :
  forall off o s bsz,
    Forall block_ok bl -> 0 < bs ->
    a_lookup META off bl = Some (bsz, STATUS_FREE) ->
    a_lookup META o bl = Some (s, STATUS_ALLOC) ->
    a_lookup META o (a_take META off bs bl) = Some (s, STATUS_ALLOC).
Proof.
  pose proof META_bounds as HM.
  induction bl as [| [s0 t0] bl IH]; intros off o s bsz Hok Hbs Hoff Ho;
    [discriminate |].
  apply block_ok_cons in Hok as [(Hc0 & _) Hok']. cbn [fst] in Hc0.
  cbn [a_lookup a_take fst] in *.
  destruct (Z.eqb_spec off 0) as [-> | Hne].
  - injection Hoff as -> ->.
    destruct (Z.eqb_spec o 0) as [-> | Hno]; [discriminate |].
    destruct (a_lookup_nonneg _ _ _ Hok' Ho) as [Hpos _].
    destruct (Z.ltb_spec bs bsz) as [Hlt | Hge]; cbn [a_lookup fst].
    + replace (o =? 0) with false by (symmetry; apply Z.eqb_neq; lia).
      replace (o - (META + (bs - META)) =? 0) with false
        by (symmetry; apply Z.eqb_neq; lia).
      replace (o - (META + (bs - META)) - (META + (bsz - bs)))
        with (o - (META + bsz)) by lia.
      exact Ho.
    + replace (o =? 0) with false by (symmetry; apply Z.eqb_neq; lia).
      exact Ho.
  - cbn [a_lookup fst]. destruct (o =? 0); [exact Ho |].
    eapply IH; eassumption.
Qed.

Lemma a_extend_lookup (bs : Z) (bl : list ablock) :
  forall o s,
    a_lookup META o bl = Some (s, STATUS_ALLOC) ->
    a_lookup META o (snd (a_extend META bs bl)) = Some (s, STATUS_ALLOC).
Proof.
  induction bl as [| [s0 t0] bl IH]; intros o s H; [discriminate |].
  destruct bl as [| b' bl].
  - cbn [a_lookup fst] in H.
    destruct (o =? 0) eqn:Eo; [| discriminate].
    injection H as -> ->. simpl. now rewrite Eo.
  - rewrite a_extend_cons. cbn [fst snd a_lookup] in *.
    destruct (o =? 0); [exact H | now apply IH].
Qed.

Lemma a_extend_block (bs : Z) (bl : list ablock) :
  Forall block_ok bl ->
  a_lookup META (fst (a_extend META bs bl)) (snd (a_extend META bs bl))
  = Some (bs - META, STATUS_ALLOC) /\
  forall s, a_lookup META (fst (a_extend META bs bl)) bl
            <> Some (s, STATUS_ALLOC).
Proof.
  pose proof META_bounds as HM.
  induction bl as [| [s0 t0] bl IH]; intros Hok.
  - split; [reflexivity | discriminate].
  - apply block_ok_cons in Hok as [(Hc0 & _) Hok']. cbn [fst] in Hc0.
    destruct bl as [| b' bl].
    + destruct t0; simpl; (split; [| intros s; try discriminate]);
        try reflexivity;
        replace (META + s0 + 0 =? 0) with false
          by (symmetry; apply Z.eqb_neq; lia);
        try discriminate;
        replace (META + s0 + 0 - (META + s0)) with 0 by lia; reflexivity.
    + rewrite a_extend_cons. cbn [fst snd a_lookup].
      pose proof (a_extend_nonneg bs (b' :: bl) Hok') as Hpos.
      replace (META + s0 + fst (a_extend META bs (b' :: bl)) =? 0)
        with false by (symmetry; apply Z.eqb_neq; lia).
      replace (META + s0 + fst (a_extend META bs (b' :: bl)) - (META + s0))
        with (fst (a_extend META bs (b' :: bl))) by lia.
      now apply IH.
Qed.

(** What a heap [malloc] of [sz] bytes does to the blocks in use. *)
Lemma a_malloc_sbrk_block (sz : Z) (bl : list ablock) :
  Forall block_ok bl -> 0 <= sz -> sz mod 8 = 0 ->
  exists s',
    a_lookup META (fst (a_malloc_sbrk META sz bl))
      (snd (a_malloc_sbrk META sz bl))
    = Some (s', STATUS_ALLOC) /\
    sz <= s' /\
    (forall s, a_lookup META (fst (a_malloc_sbrk META sz bl)) bl
               <> Some (s, STATUS_ALLOC)) /\
    (forall o s,
        a_lookup META o bl = Some (s, STATUS_ALLOC) ->
        a_lookup META o (snd (a_malloc_sbrk META sz bl))
        = Some (s, STATUS_ALLOC)).
Proof.
  pose proof META_bounds as HM.
  intros Hok Hsz0 Hsz8. unfold a_malloc_sbrk.
  set (bl0 := match bl with
              | [] => [(131072 - META, STATUS_FREE)]
              | _ :: _ => bl
              end).
  assert (Hok0 : Forall block_ok bl0).
  { destruct bl; [| exact Hok]. subst bl0.
    constructor; [| constructor]. unfold block_ok. cbn [fst snd].
    repeat split; try lia; try congruence. zmod. }
  assert (Hlive : forall o s, a_lookup META o bl = Some (s, STATUS_ALLOC) ->
                              a_lookup META o (a_merge META bl0)
                              = Some (s, STATUS_ALLOC)).
  { intros o s H. apply a_merge_lookup.
    destruct bl; [discriminate | exact H]. }
  pose proof (a_merge_ok _ Hok0) as (Hok1 & _ & _).
  pose proof (a_best_spec (sz + META) (a_merge META bl0) 0 None) as Hs.
  destruct (a_best META (sz + META) 0 None (a_merge META bl0))
    as [[o bsz] |]; cbn [fst snd].
  - destruct Hs as [[? _] | (l1 & l2 & El & -> & Hfit & _)]; [discriminate |].
    rewrite Z.add_0_l.
    assert (Hok1' : Forall block_ok l1).
    { rewrite El in Hok1. now apply Forall_app in Hok1 as [H _]. }
    assert (Hat : a_lookup META (hext l1) (a_merge META bl0)
                  = Some (bsz, STATUS_FREE)).
    { rewrite El. now apply a_lookup_app. }
    exists (if sz + META <? bsz then sz + META - META else bsz).
    split; [| split; [| split]].
    + rewrite El, a_take_app by assumption.
      destruct (sz + META <? bsz); cbn [app]; now apply a_lookup_app.
    + destruct (Z.ltb_spec (sz + META) bsz); lia.
    + intros s H. apply Hlive in H. rewrite Hat in H. discriminate.
    + intros o s H. apply Hlive in H.
      apply a_take_lookup with (bsz := bsz); try assumption. lia.
  - destruct (a_extend_block (sz + META) (a_merge META bl0) Hok1)
      as [Hnew Hfresh].
    exists (sz + META - META). split; [exact Hnew | split; [lia | split]].
    + intros s H. apply Hlive in H. now apply Hfresh in H.
    + intros o s H. apply Hlive in H. now apply a_extend_lookup.
Qed.

Lemma a_coalesce_ge (l : list ablock) :
  forall s, Forall block_ok l -> s <= fst (a_coalesce META s l).
Proof.
  pose proof META_bounds as HM.
  induction l as [| [s1 t1] l IH]; intros s Hok; simpl; [lia |].
  apply block_ok_cons in Hok as [(Hc0 & _) Hok']. cbn [fst] in Hc0.
  destruct t1; simpl; try lia.
  specialize (IH (s + (s1 + META)) Hok'). lia.
Qed.

Lemma a_free_lookup (bl : list ablock) :
  forall off o s,
    o <> off ->
    a_lookup META o bl = Some (s, STATUS_ALLOC) ->
    a_lookup META o (a_free META off bl) = Some (s, STATUS_ALLOC).
Proof.
  induction bl as [| [s0 t0] bl IH]; intros off o s Hne H; [discriminate |].
  cbn [a_free]. destruct (Z.eqb_spec off 0) as [-> | Hoff].
  - apply a_coalesce_head_lookup. cbn [a_lookup fst] in *.
    replace (o =? 0) with false in * by (symmetry; now apply Z.eqb_neq).
    exact H.
  - cbn [a_lookup fst] in *. destruct (Z.eqb_spec o 0) as [-> | Ho].
    + exact H.
    + apply IH; [lia | exact H].
Qed.

Lemma a_free_block (bl : list ablock) :
  forall off b,
    Forall block_ok bl ->
    a_lookup META off bl = Some b ->
    exists s', a_lookup META off (a_free META off bl)
               = Some (s', STATUS_FREE) /\ fst b <= s'.
Proof.
  induction bl as [| [s0 t0] bl IH]; intros off b Hok H; [discriminate |].
  apply block_ok_cons in Hok as [_ Hok'].
  cbn [a_free a_lookup fst] in *.
  destruct (Z.eqb_spec off 0) as [-> | Hoff].
  - injection H as <-. cbn [fst a_coalesce_head].
    pose proof (a_coalesce_ge bl s0 Hok') as Hge.
    destruct (a_coalesce META s0 bl) as [s' r]. cbn [fst] in Hge.
    exists s'. split; [reflexivity | exact Hge].
  - cbn [a_lookup fst].
    replace (off =? 0) with false by (symmetry; now apply Z.eqb_neq).
    now apply IH.
Qed.

Lemma a_free_idem (bl : list ablock) :
  forall off, a_free META off (a_free META off bl) = a_free META off bl.
Proof.
  induction bl as [| [s0 t0] bl IH]; intros off; [reflexivity |].
  cbn [a_free]. destruct (off =? 0) eqn:Eo.
  - cbn [a_coalesce_head].
    pose proof (a_coalesce_stop bl s0) as Hst.
    destruct (a_coalesce META s0 bl) as [s' r]. cbn [snd] in Hst.
    cbn [a_free]. rewrite Eo. cbn [a_coalesce_head].
    rewrite a_coalesce_hnf; [reflexivity |].
    destruct r as [| [s1 t1] r]; [exact I |]. destruct t1; simpl in *; tauto.
  - cbn [a_free]. rewrite Eo. now rewrite IH.
Qed.

Lemma seg_last_next (bl : list ablock) :
  forall m a e,
    bl <> [] -> hseg m a bl e -> next (m (a + last_off META bl)) = 0.
Proof.
  induction bl as [| b bl IH]; intros m a e Hnil Hseg; [congruence |].
  destruct Hseg as (_ & _ & Hn & Htl).
  destruct bl as [| b' bl].
  - cbn [last_off]. now rewrite Z.add_0_r.
  - change (last_off META (b :: b' :: bl))
      with (META + fst b + last_off META (b' :: bl)).
    replace (a + (META + fst b + last_off META (b' :: bl)))
      with (a + (META + fst b) + last_off META (b' :: bl)) by lia.
    eapply IH; [discriminate | eassumption].
Qed.

Lemma a_find_cons (o : Z) (c : ablock) (l : list ablock) :
  a_find META o (c :: l) = (o =? 0) || a_find META (o - (META + fst c)) l.
Proof. reflexivity. Qed.

Lemma a_find_last (bl : list ablock) :
  Forall block_ok bl -> bl <> [] ->
  a_find META (last_off META bl) bl = true.
Proof.
  induction bl as [| c l IH]; intros Hok Hnil; [congruence |].
  destruct l as [| c' l]; [reflexivity |].
  apply block_ok_cons in Hok as [_ Hok'].
  change (last_off META (c :: c' :: l))
    with (META + fst c + last_off META (c' :: l)).
  rewrite a_find_cons.
  replace (META + fst c + last_off META (c' :: l) - (META + fst c))
    with (last_off META (c' :: l)) by lia.
  rewrite IH by (assumption || discriminate). apply orb_true_r.
Qed.

(** * More on the entry points *)

(** X1: on a well-formed heap a heap-sized [malloc(n)] ends, keeps the heap
    well formed, and returns the payload pointer of a block of the heap list
    that is ALLOC and holds at least [n] bytes, at a multiple of 8 bytes
    from [heap_start]; that block was not in use before, and every block
    that was in use is still in use at the same place with the same size. *)
Theorem malloc_gives_unused_block (st : state) (bl : list ablock)
  (n addr : Z) (fuel : nat) :
  hrepr st bl ->
  threshold st = MMAP_THRESHOLD ->
  0 < n <= MMAP_THRESHOLD - META - 8 ->
  brk st + INITIAL_HEAP_SIZE <= brk_limit ->
  (length bl + 2 <= fuel)%nat ->
  exists p st' bl' s',
    os_malloc sizeof_block_meta brk_limit fuel addr n st = Done (p, st') /\
    hrepr st' bl' /\
    a_lookup META (p - META - heap_start st') bl' = Some (s', STATUS_ALLOC) /\
    n <= s' /\
    (p - META - heap_start st') mod 8 = 0 /\
    size (mem st' (get_block_ptr sizeof_block_meta p)) = s' /\
    status (mem st' (get_block_ptr sizeof_block_meta p)) = STATUS_ALLOC /\
    (forall s, a_lookup META (p - META - heap_start st') bl
               <> Some (s, STATUS_ALLOC)) /\
    (forall o s,
        a_lookup META o bl = Some (s, STATUS_ALLOC) ->
        a_lookup META o bl' = Some (s, STATUS_ALLOC)).
Proof.
  pose proof META_bounds as HM.
  intros Hr Hth Hn Hroom Hf.
  destruct (os_malloc_heap st bl n addr fuel Hr Hth Hn Hroom Hf)
    as (st' & E & Hr' & HS & _).
  assert (Hok : Forall block_ok bl) by apply Hr.
  pose proof (ALIGN_range n) as (Ha0 & Ha8).
  pose proof (ALIGN_round_up n) as Hup. rewrite wB_eq in Hup.
  change MMAP_THRESHOLD with 131072 in *.
  destruct (a_malloc_sbrk_block (ALIGN n) bl Hok) as (s' & Hnew & Hsz & Hfresh & Hlive);
    [lia | assumption |].
  set (r := a_malloc_sbrk META (ALIGN n) bl) in *.
  set (base := if heap_start st =? 0 then brk st else heap_start st) in *.
  assert (Eoff : base + fst r + META - META - heap_start st' = fst r)
    by (rewrite HS; lia).
  exists (base + fst r + META), st', (snd r), s'.
  rewrite Eoff.
  assert (Hok' : Forall block_ok (snd r)) by apply Hr'.
  destruct (a_lookup_nonneg _ _ _ Hok' Hnew) as [_ H8].
  assert (Hmem : size (mem st' (heap_start st' + fst r)) = s' /\
                 status (mem st' (heap_start st' + fst r)) = STATUS_ALLOC).
  { destruct (snd r) as [| b0 l0] eqn:Er; [discriminate |].
    apply heap_repr_cons in Hr' as (_ & _ & _ & Hseg).
    now apply (seg_lookup _ _ _ _ _ _ Hseg Hnew). }
  unfold get_block_ptr.
  replace (base + fst r + META - META) with (heap_start st' + fst r)
    by (rewrite HS; lia).
  destruct Hmem as [Hm1 Hm2].
  split; [exact E | split; [exact Hr' | split; [exact Hnew |]]].
  split; [lia | split; [exact H8 | split; [exact Hm1 | split; [exact Hm2 |]]]].
  split; assumption.
Qed.

(** X2: on a well-formed heap [free] of the payload pointer of a heap-list
    block ends, keeps the heap well formed, leaves that block FREE with at
    least its former size, changes neither the break nor the mapped list,
    and leaves every other block in use as it was. *)
Theorem free_releases_one_block (st : state) (bl : list ablock) (ptr : Z)
  (b : ablock) (fuel : nat) :
  hrepr st bl ->
  a_lookup META (ptr - META - heap_start st) bl = Some b ->
  (length bl < fuel)%nat ->
  exists st' s',
    os_free sizeof_block_meta fuel ptr st = Done st' /\
    hrepr st' (a_free META (ptr - META - heap_start st) bl) /\
    a_lookup META (ptr - META - heap_start st)
      (a_free META (ptr - META - heap_start st) bl)
    = Some (s', STATUS_FREE) /\
    fst b <= s' /\
    status (mem st' (get_block_ptr sizeof_block_meta ptr)) = STATUS_FREE /\
    heap_start st' = heap_start st /\ brk st' = brk st /\
    mmap_start st' = mmap_start st /\ maps st' = maps st /\
    (forall o s,
        o <> ptr - META - heap_start st ->
        a_lookup META o bl = Some (s, STATUS_ALLOC) ->
        a_lookup META o (a_free META (ptr - META - heap_start st) bl)
        = Some (s, STATUS_ALLOC)).
Proof.
  intros Hr Hat Hf.
  pose proof (a_lookup_find _ _ _ Hat) as Hfind.
  destruct (os_free_heap st bl ptr fuel Hr Hfind Hf)
    as (st' & E & Hr' & HS & HM' & _ & Hmaps & Hbrk).
  assert (Hok : Forall block_ok bl) by apply Hr.
  destruct (a_free_block _ _ _ Hok Hat) as (s' & Hnew & Hge).
  exists st', s'.
  assert (Hst : status (mem st' (get_block_ptr sizeof_block_meta ptr))
                = STATUS_FREE).
  { unfold get_block_ptr.
    replace (ptr - META)
      with (heap_start st' + (ptr - META - heap_start st))
      by (rewrite HS; lia).
    destruct (a_free META (ptr - META - heap_start st) bl) as [| b0 l0]
      eqn:Ef; [discriminate |].
    apply heap_repr_cons in Hr' as (_ & _ & _ & Hseg).
    now apply (seg_lookup _ _ _ _ _ _ Hseg Hnew). }
  split_all; try assumption.
  intros o s Hne Ho. now apply a_free_lookup.
Qed.

(** X3: freeing the same heap block twice in a row is harmless: the second
    [free] ends and leaves the heap list as the first one left it. *)
Theorem double_free_is_harmless (st : state) (bl : list ablock) (ptr : Z)
  (b : ablock) (fuel : nat) :
  hrepr st bl ->
  a_lookup META (ptr - META - heap_start st) bl = Some b ->
  (length bl < fuel)%nat ->
  exists st1 st2 bl',
    os_free sizeof_block_meta fuel ptr st = Done st1 /\
    os_free sizeof_block_meta fuel ptr st1 = Done st2 /\
    hrepr st1 bl' /\ hrepr st2 bl' /\
    walk_heap fuel (heap_start st2) st2 = walk_heap fuel (heap_start st1) st1.
Proof.
  intros Hr Hat Hf.
  pose proof (a_lookup_find _ _ _ Hat) as Hfind.
  destruct (os_free_heap st bl ptr fuel Hr Hfind Hf)
    as (st1 & E1 & Hr1 & HS1 & _).
  assert (Hok : Forall block_ok bl) by apply Hr.
  destruct (a_free_block _ _ _ Hok Hat) as (s' & Hnew & _).
  set (off := ptr - META - heap_start st) in *.
  pose proof (a_free_length off bl) as Hlen.
  destruct (os_free_heap st1 (a_free META off bl) ptr fuel Hr1)
    as (st2 & E2 & Hr2 & HS2 & _).
  - rewrite HS1. fold off. eapply a_lookup_find. exact Hnew.
  - lia.
  - rewrite HS1 in Hr2. fold off in Hr2. rewrite a_free_idem in Hr2.
    exists st1, st2, (a_free META off bl).
    split_all; try assumption.
    rewrite (walk_heap_repr _ _ _ Hr2), (walk_heap_repr _ _ _ Hr1) by lia.
    reflexivity.
Qed.

(** X4: on a well-formed heap [find_block_in_heap] answers the address
    it is given when a header of the heap list starts there, and
    [NULL] otherwise. *)
Theorem find_block_in_heap_membership (st : state) (bl : list ablock)
  (block : Z) (fuel : nat) :
  hrepr st bl ->
  (length bl < fuel)%nat ->
  (a_find META (block - heap_start st) bl = true ->
   find_block_in_heap fuel block st = Done block) /\
  (a_find META (block - heap_start st) bl = false ->
   find_block_in_heap fuel block st = Done 0) /\
  (a_find META (block - heap_start st) bl = true <->
   exists b, a_lookup META (block - heap_start st) bl = Some b).
Proof.
  intros Hr Hf.
  assert (E : find_block_in_heap fuel block st
              = Done (if a_find META (block - heap_start st) bl
                      then block else 0)).
  { destruct bl as [| b0 bl0].
    - destruct Hr as (_ & _ & Hhs). unfold find_block_in_heap. rewrite Hhs.
      destruct fuel; [simpl in Hf; lia | reflexivity].
    - apply heap_repr_cons in Hr as (_ & Hok & Hhs & Hseg).
      unfold find_block_in_heap.
      now apply (find_block_in_heap_from_seg (b0 :: bl0) (heap_start st)
                   (brk st)). }
  split; [| split].
  - intros H. now rewrite E, H.
  - intros H. now rewrite E, H.
  - split.
    + apply a_find_lookup.
    + intros [b H]. eapply a_lookup_find. exact H.
Qed.

(** X5: on a well-formed heap that is set up, [find_best_fit] leaves in
    [*last] the last block of the heap list as it is after the search: a
    header of the list whose [next] is [NULL]; on a heap that is not set up
    it leaves [*last] as it was. *)
Theorem find_best_fit_last_block (st : state) (bl : list ablock)
  (block_size last : Z) (fuel : nat) :
  hrepr st bl ->
  (length bl < fuel)%nat ->
  exists r last' st',
    find_best_fit sizeof_block_meta fuel last (heap_start st) block_size st
    = Done (r, last', st') /\
    match bl with
    | [] => last' = last
    | _ =>
        last' = heap_start st + last_off META (a_merge META bl) /\
        next (mem st' last') = 0 /\
        find_block_in_heap fuel last' st' = Done last'
    end.
Proof.
  intros Hr Hf. destruct bl as [| b0 bl0].
  - destruct Hr as (_ & _ & Hhs). rewrite Hhs.
    destruct fuel as [| f]; [simpl in Hf; lia |].
    exists 0, last, st. split; reflexivity.
  - apply heap_repr_cons in Hr as (Hbrk & Hok & Hhs & Hseg).
    set (bl := b0 :: bl0) in *.
    destruct (find_best_fit_from_seg block_size (heap_start st) fuel bl
                (heap_start st) (brk st) st 0 last None 0)
      as (m1 & last1 & E1 & Hseg1 & Hfr1 & Hlast1);
      try assumption; try reflexivity; try lia.
    change (cur_of (heap_start st) bl) with (heap_start st) in E1.
    eexists _, last1, (set_mem m1 st).
    split; [unfold find_best_fit; exact E1 |].
    assert (Hnil : a_merge META bl <> []).
    { intros E. apply (proj1 (a_merge_nil _)) in E. discriminate. }
    pose proof (a_merge_ok _ Hok) as (Hok1 & _ & Hlen).
    unfold bl in Hlast1. fold bl in Hlast1.
    split; [exact Hlast1 | split].
    + rewrite Hlast1. cbn [mem set_mem].
      now apply (seg_last_next _ _ _ (brk st)).
    + unfold find_block_in_heap. cbn [heap_start set_mem].
      pose proof (find_block_in_heap_from_seg (a_merge META bl)
                    (heap_start st) (brk st) (set_mem m1 st) fuel last1
                    Hhs Hok1 Hseg1) as Efind.
      assert (Hcur : cur_of (heap_start st) (a_merge META bl)
                     = heap_start st)
        by (destruct (a_merge META bl); [congruence | reflexivity]).
      rewrite Hcur in Efind. rewrite Efind by lia.
      replace (last1 - heap_start st) with (last_off META (a_merge META bl))
        by lia.
      assert (Hlf : a_find META (last_off META (a_merge META bl))
                      (a_merge META bl) = true)
        by now apply a_find_last.
      now rewrite Hlf.
Qed.

(** * The threshold *)

Lemma bind_done {A B : Type} (r : result A) (k : A -> result B) (b : B) :
  bind r k = Done b -> exists a, r = Done a /\ k a = Done b.
Proof. destruct r; simpl; intros H; try discriminate. eauto. Qed.

Lemma sbrk_threshold (inc : Z) (st st' : state) (p : Z) :
  sbrk brk_limit inc st = Done (p, st') -> threshold st' = threshold st.
Proof.
  unfold sbrk. destruct (_ && _); intros H; [| discriminate].
  now injection H as <- <-.
Qed.

Lemma request_space_threshold (last bs : Z) (st st' : state) (p : Z) :
  request_space sizeof_block_meta brk_limit last bs st = Done (p, st') ->
  threshold st' = threshold st.
Proof.
  unfold request_space. destruct (_ && _); intros H;
    apply bind_done in H as ([q s1] & E & H);
    apply sbrk_threshold in E.
  - injection H as <- <-. exact E.
  - injection H as <- <-. destruct (last =? 0); exact E.
Qed.

Lemma coalesce_one_block_threshold (a : Z) (st : state) :
  threshold (coalesce_one_block sizeof_block_meta a st) = threshold st.
Proof. unfold coalesce_one_block. now destruct (can_coalesce_one_block a st). Qed.

Lemma coalesce_blocks_threshold (fuel : nat) :
  forall a st st',
    coalesce_blocks sizeof_block_meta fuel a st = Done st' ->
    threshold st' = threshold st.
Proof.
  induction fuel as [| f IH]; intros a st st' H; [discriminate |].
  simpl in H. destruct (can_coalesce_one_block a st).
  - apply IH in H. now rewrite coalesce_one_block_threshold in H.
  - now injection H as <-.
Qed.

Lemma grow_in_place_threshold (fuel : nat) :
  forall a bs st st',
    grow_in_place sizeof_block_meta fuel a bs st = Done st' ->
    threshold st' = threshold st.
Proof.
  induction fuel as [| f IH]; intros a bs st st' H; [discriminate |].
  simpl in H. destruct (_ && _).
  - apply IH in H. now rewrite coalesce_one_block_threshold in H.
  - now injection H as <-.
Qed.

Lemma find_best_fit_from_threshold (fuel : nat) :
  forall best cur last bs st r last' st',
    find_best_fit_from sizeof_block_meta fuel best cur last bs st
    = Done (r, last', st') ->
    threshold st' = threshold st.
Proof.
  induction fuel as [| f IH]; intros best cur last bs st r last' st' H;
    [discriminate |].
  simpl in H. destruct (cur =? 0).
  - now injection H as <- <- <-.
  - apply bind_done in H as (s1 & E & H).
    apply coalesce_blocks_threshold in E. apply IH in H. congruence.
Qed.

Lemma os_malloc_sbrk_threshold (fuel : nat) (sz : Z) (st st' : state)
  (p : Z) :
  os_malloc_sbrk sizeof_block_meta brk_limit fuel sz st = Done (p, st') ->
  threshold st' = threshold st.
Proof.
  unfold os_malloc_sbrk, heap_init, find_best_fit. intros H.
  apply bind_done in H as (s0 & E0 & H).
  assert (T0 : threshold s0 = threshold st).
  { destruct (heap_start st =? 0).
    - apply bind_done in E0 as ([q s1] & E1 & E0).
      apply request_space_threshold in E1. now injection E0 as <-.
    - now injection E0 as <-. }
  apply bind_done in H as ([[block last] s1] & E1 & H).
  apply find_best_fit_from_threshold in E1.
  destruct (block =? 0).
  - apply bind_done in H as ([b1 s2] & E2 & H).
    apply request_space_threshold in E2.
    destruct (b1 =? 0); injection H as <- <-; cbn; congruence.
  - injection H as <- <-.
    destruct (_ <? _); cbn; congruence.
Qed.

Lemma os_malloc_mmap_threshold (addr sz : Z) (st st' : state) (p : Z) :
  os_malloc_mmap sizeof_block_meta addr sz st = Done (p, st') ->
  threshold st' = threshold st.
Proof.
  unfold os_malloc_mmap, mmap. destruct (addr =? MAP_FAILED); intros H;
    [discriminate |].
  cbn in H. now injection H as <- <-.
Qed.

Lemma os_malloc_threshold (fuel : nat) (addr n : Z) (st st' : state)
  (p : Z) :
  os_malloc sizeof_block_meta brk_limit fuel addr n st = Done (p, st') ->
  threshold st' = threshold st.
Proof.
  unfold os_malloc. destruct (n <=? 0); intros H.
  - now injection H as <- <-.
  - destruct (_ <? _).
    + eapply os_malloc_sbrk_threshold; eassumption.
    + eapply os_malloc_mmap_threshold; eassumption.
Qed.

Lemma os_free_sbrk_threshold (fuel : nat) (ptr : Z) (st st' : state) :
  os_free_sbrk sizeof_block_meta fuel ptr st = Done st' ->
  threshold st' = threshold st.
Proof.
  unfold os_free_sbrk. intros H. apply bind_done in H as (f & _ & H).
  destruct (f =? 0).
  - now injection H as <-.
  - now apply coalesce_blocks_threshold in H.
Qed.

Lemma os_free_mmap_from_threshold (fuel : nat) :
  forall prev cur block st st',
    os_free_mmap_from sizeof_block_meta fuel prev cur block st = Done st' ->
    threshold st' = threshold st.
Proof.
  induction fuel as [| f IH]; intros prev cur block st st' H;
    [discriminate |].
  simpl in H. destruct (cur =? 0).
  - now injection H as <-.
  - destruct (cur =? block).
    + injection H as <-. now destruct (prev =? 0).
    + now apply IH in H.
Qed.

Lemma os_free_threshold (fuel : nat) (ptr : Z) (st st' : state) :
  os_free sizeof_block_meta fuel ptr st = Done st' ->
  threshold st' = threshold st.
Proof.
  unfold os_free, os_free_mmap. destruct (ptr =? 0); intros H.
  - now injection H as <-.
  - destruct (status_eqb _ _).
    + now apply os_free_mmap_from_threshold in H.
    + now apply os_free_sbrk_threshold in H.
Qed.

Lemma os_realloc_sbrk_threshold (fuel : nat) (addr ptr sz : Z)
  (st st' : state) (p : Z) :
  os_realloc_sbrk sizeof_block_meta brk_limit fuel addr ptr sz st
  = Done (p, st') ->
  threshold st' = threshold st.
Proof.
  unfold os_realloc_sbrk, find_best_fit. intros H.
  apply bind_done in H as (f & _ & H).
  destruct (f =? 0); [now injection H as <- <- |].
  destruct (threshold st <=? _).
  { apply bind_done in H as ([q s1] & E1 & H).
    apply bind_done in H as (s2 & E2 & H). injection H as <- <-.
    apply os_malloc_mmap_threshold in E1.
    apply os_free_sbrk_threshold in E2. congruence. }
  apply bind_done in H as (s2 & E2 & H).
  apply grow_in_place_threshold in E2. cbn in E2.
  destruct (_ <=? _).
  { injection H as <- <-. destruct (_ <? _); cbn; exact E2. }
  destruct (_ =? 0).
  - apply bind_done in H as ([[nb last] s5] & E5 & H).
    apply find_best_fit_from_threshold in E5. cbn in E5.
    destruct (nb =? 0).
    + apply bind_done in H as ([b1 s7] & E7 & H).
      apply request_space_threshold in E7. cbn in E7.
      destruct (b1 =? 0); injection H as <- <-; cbn; congruence.
    + apply bind_done in H as (s7 & E7 & H). injection H as <- <-.
      apply os_free_sbrk_threshold in E7. cbn in E7. congruence.
  - apply bind_done in H as ([q s5] & E5 & H).
    apply bind_done in H as (s6 & E6 & H). injection H as <- <-.
    apply os_malloc_sbrk_threshold in E5.
    apply os_free_sbrk_threshold in E6.
    destruct (_ =? _); cbn in E5; congruence.
Qed.

Lemma os_realloc_threshold (fuel : nat) (addr ptr sz : Z) (st st' : state)
  (p : Z) :
  os_realloc sizeof_block_meta brk_limit fuel addr ptr sz st = Done (p, st') ->
  threshold st' = threshold st.
Proof.
  unfold os_realloc, os_realloc_mmap, os_free_mmap.
  destruct (ptr =? 0); intros H.
  - now apply os_malloc_threshold in H.
  - destruct (sz =? 0).
    + apply bind_done in H as (s1 & E & H). injection H as <- <-.
      now apply os_free_threshold in E.
    + destruct (status_eqb _ STATUS_FREE); [now injection H as <- <- |].
      destruct (status_eqb _ STATUS_MAPPED).
      * apply bind_done in H as ([q s1] & E1 & H).
        apply bind_done in H as (s2 & E2 & H). injection H as <- <-.
        apply os_malloc_threshold in E1.
        apply os_free_mmap_from_threshold in E2. congruence.
      * now apply os_realloc_sbrk_threshold in H.
Qed.

(** X6: the threshold is [MMAP_THRESHOLD] between calls: [malloc], [free]
    and [realloc] never change it, and every [calloc] that returns has put
    [MMAP_THRESHOLD] back, whatever the state, the arguments and the
    page size. *)
Theorem threshold_between_calls (st st' : state) (fuel : nat) (addr : Z) :
  (forall n p,
     os_malloc sizeof_block_meta brk_limit fuel addr n st = Done (p, st') ->
     threshold st' = threshold st) /\
  (forall ptr,
     os_free sizeof_block_meta fuel ptr st = Done st' ->
     threshold st' = threshold st) /\
  (forall ptr n p,
     os_realloc sizeof_block_meta brk_limit fuel addr ptr n st
     = Done (p, st') ->
     threshold st' = threshold st) /\
  (forall nmemb n p,
     os_calloc sizeof_block_meta pagesize brk_limit fuel addr nmemb n st
     = Done (p, st') ->
     threshold st' = MMAP_THRESHOLD).
Proof.
  split_all.
  - intros n p. apply os_malloc_threshold.
  - intros ptr. apply os_free_threshold.
  - intros ptr n p. apply os_realloc_threshold.
  - intros nmemb n p H. unfold os_calloc in H.
    apply bind_done in H as ([q s2] & _ & H). now injection H as <- <-.
Qed.

(** * The mapped list *)

Lemma filter_absent (addr len : Z) (l : list (Z * Z)) :
  ~ In (addr, len) l ->
  filter (fun r => negb ((fst r =? addr) && (snd r =? len))) l = l.
Proof.
  induction l as [| [a b] l IH]; intros H; [reflexivity |].
  simpl. destruct ((a =? addr) && (b =? len)) eqn:E.
  - apply andb_true_iff in E as [E1 E2].
    apply Z.eqb_eq in E1, E2. subst. exfalso. apply H. now left.
  - simpl. f_equal. apply IH. intros Hin. apply H. now right.
Qed.

(** X7: a request that is served by mapping and then freed.  [malloc]
    returns [addr + META_SIZE]; [free] of that pointer ends after one step,
    unmaps exactly the length that was mapped and puts the mapped list, the
    mappings, the heap list and the break back as they were; no header
    other than the one at [addr] is written. *)
Theorem mapped_malloc_free_round_trip (st : state) (fuel : nat)
  (addr n : Z) :
  threshold st = MMAP_THRESHOLD ->
  0 < addr -> addr <> MAP_FAILED ->
  0 < n < wB -> MMAP_THRESHOLD <= TOT n ->
  ~ In (addr, TOT n) (maps st) ->
  (1 <= fuel)%nat ->
  exists st1 st2,
    os_malloc sizeof_block_meta brk_limit fuel addr n st
    = Done (addr + META, st1) /\
    maps st1 = (addr, TOT n) :: maps st /\
    os_free sizeof_block_meta fuel (addr + META) st1 = Done st2 /\
    mmap_start st2 = mmap_start st /\
    maps st2 = maps st /\
    heap_start st2 = heap_start st /\ brk st2 = brk st /\
    threshold st2 = threshold st /\
    (forall x, x <> addr -> mem st2 x = mem st x).
Proof.
  pose proof META_bounds as HM.
  intros Hth Hpos Haddr Hn Htot Hfresh Hf.
  change MMAP_THRESHOLD with 131072 in *.
  assert (Htr : 0 <= TOT n < wB /\ TOT n mod 8 = 0)
    by (unfold TOT_SIZE; apply ALIGN_range).
  destruct Htr as [Hr1 Hr8]. rewrite wB_eq in Hr1.
  assert (Hw : wrap (TOT n - META) = TOT n - META)
    by (unfold wrap; apply Z.mod_small; rewrite wB_eq; lia).
  assert (Hback : TOT (TOT n - META) = TOT n).
  { destruct HM as [HM1 HM8].
    rewrite TOT_aligned; [lia | lia | rewrite wB_eq | ];
      clear - Hr1 Hr8 HM1 HM8 Htot; zmod. }
  unfold os_malloc.
  replace (n <=? 0) with false by (symmetry; apply Z.leb_gt; lia).
  rewrite TOT_ALIGN by lia. rewrite Hth.
  replace (TOT n <? 131072) with false by (symmetry; apply Z.ltb_ge; lia).
  unfold os_malloc_mmap, mmap. rewrite TOT_ALIGN by lia.
  replace (addr =? MAP_FAILED) with false
    by (symmetry; now apply Z.eqb_neq).
  cbn [bind]. rewrite Hw.
  eexists. eexists. split; [reflexivity |]. split; [reflexivity |].
  unfold os_free.
  replace (addr + META =? 0) with false by (symmetry; apply Z.eqb_neq; lia).
  unfold get_block_ptr. replace (addr + META - META) with addr by lia.
  cbn [mem set_mmap_start]. mem_simpl. cbn [status_eqb].
  unfold os_free_mmap, get_block_ptr.
  replace (addr + META - META) with addr by lia.
  destruct fuel as [| f]; [lia |]. cbn [os_free_mmap_from mmap_start
    set_mmap_start].
  replace (addr =? 0) with false by (symmetry; apply Z.eqb_neq; lia).
  rewrite Z.eqb_refl. change (0 =? 0) with true. cbv iota.
  split; [reflexivity |].
  cbn [mem set_mmap_start]. mem_simpl. rewrite Hback.
  unfold munmap.
  cbn [mmap_start maps heap_start brk threshold mem set_maps set_mmap_start
         set_next set_status set_size set_mem filter fst snd].
  rewrite !Z.eqb_refl. cbn [andb negb].
  rewrite filter_absent by assumption.
  split_all; try reflexivity; try exact Hth.
  intros x Hx. now rewrite !upd_neq.
Qed.

Lemma os_free_mmap_from_absent (st : state) (block : Z) (l : list Z) :
  forall prev cur fuel,
    heap_path (mem st) cur l -> ~ In block l -> (length l < fuel)%nat ->
    os_free_mmap_from sizeof_block_meta fuel prev cur block st = Done st.
Proof.
  clear Hsizeof Hlimit.
  induction l as [| b l IH]; intros prev cur fuel Hp Hin Hf;
    (destruct fuel as [| f]; [simpl in Hf; lia |]); simpl in *.
  - subst cur. reflexivity.
  - destruct Hp as (Ha & -> & Hp).
    replace (cur =? 0) with false by (symmetry; now apply Z.eqb_neq).
    replace (cur =? block) with false
      by (symmetry; apply Z.eqb_neq; intros ->; apply Hin; now left).
    apply IH; [assumption | tauto | lia].
Qed.

(** X8: [free] of a non-null pointer whose header lies in memory the
    allocator holds (the heap or a live mapping), reads MAPPED, and is not
    a block of the mapped list (for instance a pointer into the payload of
    a mapped block) walks the list, whose blocks all lie in live mappings,
    to its end and leaves the whole state as it is: nothing is unlinked
    and nothing is unmapped.  A pointer to a block that has been unmapped
    is not covered: its header cannot be read. *)
Theorem free_of_unlisted_mapped_pointer (st : state) (l : list Z)
  (fuel : nat) (ptr : Z) :
  ptr <> 0 ->
  readable sizeof_block_meta st (get_block_ptr sizeof_block_meta ptr) = true ->
  Forall (fun b => in_mapping sizeof_block_meta st b = true) l ->
  status (mem st (get_block_ptr sizeof_block_meta ptr)) = STATUS_MAPPED ->
  heap_path (mem st) (mmap_start st) l ->
  ~ In (get_block_ptr sizeof_block_meta ptr) l ->
  (length l < fuel)%nat ->
  os_free sizeof_block_meta fuel ptr st = Done st.
Proof.
  clear Hsizeof Hlimit.
  intros Hp _ _ Hst Hpath Hin Hf. unfold os_free.
  replace (ptr =? 0) with false by (symmetry; now apply Z.eqb_neq).
  rewrite Hst. cbn [status_eqb]. unfold os_free_mmap.
  now apply os_free_mmap_from_absent with (l := l).
Qed.

Lemma heap_path_frame (m m' : memory) (l : list Z) :
  forall a,
    (forall x, In x l -> m' x = m x) ->
    heap_path m a l -> heap_path m' a l.
Proof.
  clear Hsizeof Hlimit.
  induction l as [| b l IH]; intros a Hfr H; [exact H |].
  destruct H as (Ha & -> & H). split; [exact Ha | split; [reflexivity |]].
  rewrite (Hfr a) by now left.
  apply IH; [| exact H]. intros x Hx. apply Hfr. now right.
Qed.

Lemma heap_path_nonzero (m : memory) (l : list Z) :
  forall a, heap_path m a l -> ~ In 0 l.
Proof.
  clear Hsizeof Hlimit.
  induction l as [| b l IH]; intros a H; [tauto |].
  destruct H as (Ha & -> & H). intros [E | Hin]; [congruence |].
  now apply (IH _ H).
Qed.

Lemma heap_path_unlink (st : state) (block : Z) (l2 : list Z) :
  forall l1 a,
    l1 <> [] ->
    heap_path (mem st) a (l1 ++ block :: l2) ->
    NoDup (l1 ++ block :: l2) ->
    heap_path
      (mem (set_next (last l1 0) (next (mem st block)) st)) a (l1 ++ l2).
Proof.
  clear Hsizeof Hlimit.
  induction l1 as [| p l1 IH]; intros a Hnil Hp Hnd; [congruence |].
  rewrite <- app_comm_cons in *.
  destruct Hp as (Ha & -> & Hp).
  apply NoDup_cons_iff in Hnd as [Hnotin Hnd].
  destruct l1 as [| q l1].
  - cbn [last app] in *. destruct Hp as (Hb & Eb & Hp).
    split; [exact Ha | split; [reflexivity |]].
    rewrite mem_set_next_eq. cbn [next].
    apply heap_path_frame with (m := mem st); [| now rewrite Eb].
    intros x Hx. apply mem_set_next_neq. intros ->.
    apply Hnotin. now right.
  - change (last (a :: q :: l1) 0) with (last (q :: l1) 0).
    assert (Hlast : In (last (q :: l1) 0) (q :: l1))
      by (apply (exists_last (l := q :: l1)) in Hnil as (l' & z & E) || idtac;
          destruct (@exists_last _ (q :: l1) ltac:(discriminate))
            as (l' & z & E);
          rewrite E, last_last; apply in_or_app; right; now left).
    split; [exact Ha | split; [reflexivity |]].
    rewrite mem_set_next_neq.
    + apply IH; [discriminate | exact Hp | exact Hnd].
    + intros ->. apply Hnotin. apply in_or_app. left. exact Hlast.
Qed.

Lemma last_cons_default (l : list Z) :
  forall z d d', last (z :: l) d = last (z :: l) d'.
Proof.
  clear Hsizeof Hlimit.
  induction l as [| y l IH]; intros z d d'; [reflexivity |].
  change (last (y :: l) d = last (y :: l) d'). apply IH.
Qed.

Lemma os_free_mmap_from_found (st : state) (block : Z) (l2 : list Z) :
  forall l1 prev cur fuel,
    heap_path (mem st) cur (l1 ++ block :: l2) ->
    ~ In block l1 ->
    (length l1 < fuel)%nat ->
    os_free_mmap_from sizeof_block_meta fuel prev cur block st
    = let st1 :=
        if last l1 prev =? 0
        then set_mmap_start (next (mem st block)) st
        else set_next (last l1 prev) (next (mem st block)) st in
      Done (munmap block (TOT (size (mem st1 block))) st1).
Proof.
  clear Hsizeof Hlimit.
  induction l1 as [| p l1 IH]; intros prev cur fuel Hp Hin Hf;
    (destruct fuel as [| f]; [simpl in Hf; lia |]).
  - destruct Hp as (Ha & <- & Hp). cbn [last os_free_mmap_from].
    replace (block =? 0) with false by (symmetry; now apply Z.eqb_neq).
    now rewrite Z.eqb_refl.
  - rewrite <- app_comm_cons in Hp. destruct Hp as (Ha & -> & Hp).
    cbn [os_free_mmap_from].
    replace (cur =? 0) with false by (symmetry; now apply Z.eqb_neq).
    replace (cur =? block) with false
      by (symmetry; apply Z.eqb_neq; intros ->; apply Hin; now left).
    rewrite (IH cur (next (mem st cur)) f); [| exact Hp | | simpl in Hf; lia].
    + destruct l1 as [| z l1]; [reflexivity |].
      change (last (cur :: z :: l1) prev) with (last (z :: l1) prev).
      now rewrite (last_cons_default l1 z cur prev).
    + intros H. apply Hin. now right.
Qed.

Lemma os_free_mmap_unlink (st : state) (l1 l2 : list Z) (block : Z)
  (fuel : nat) :
  heap_path (mem st) (mmap_start st) (l1 ++ block :: l2) ->
  NoDup (l1 ++ block :: l2) ->
  (length l1 < fuel)%nat ->
  exists st',
    os_free_mmap sizeof_block_meta fuel (block + META) st = Done st' /\
    heap_path (mem st') (mmap_start st') (l1 ++ l2) /\
    (l1 <> [] -> mmap_start st' = mmap_start st) /\
    maps st'
    = filter (fun r => negb ((fst r =? block)
                             && (snd r =? TOT (size (mem st block)))))
        (maps st) /\
    heap_start st' = heap_start st /\ brk st' = brk st /\
    threshold st' = threshold st /\
    (forall x, x <> last l1 0 -> mem st' x = mem st x).
Proof.
  clear Hsizeof Hlimit.
  intros Hpath Hnd Hf.
  unfold os_free_mmap, get_block_ptr.
  replace (block + META - META) with block by lia.
  assert (Hin : ~ In block l1).
  { intros H. apply NoDup_remove_2 in Hnd. apply Hnd.
    apply in_or_app. now left. }
  rewrite (os_free_mmap_from_found st block l2 l1 0 (mmap_start st) fuel
             Hpath Hin Hf).
  cbv zeta. eexists. split; [reflexivity |].
  destruct l1 as [| p l1].
  - cbn [last app] in *. change (0 =? 0) with true. cbv iota.
    destruct Hpath as (Hb & Eb & Hpath).
    unfold munmap.
    cbn [mem mmap_start maps heap_start brk threshold set_maps
           set_mmap_start].
    split_all; try reflexivity; try congruence.
  - assert (Hlast : In (last (p :: l1) 0) (p :: l1)).
    { destruct (@exists_last _ (p :: l1) ltac:(discriminate))
        as (l' & z & E).
      rewrite E, last_last. apply in_or_app. right. now left. }
    assert (Hnz : last (p :: l1) 0 <> 0).
    { intros E. apply (heap_path_nonzero _ _ _ Hpath).
      apply in_or_app. left. now rewrite <- E. }
    replace (last (p :: l1) 0 =? 0) with false
      by (symmetry; now apply Z.eqb_neq).
    assert (Hne : block <> last (p :: l1) 0) by (intros ->; now apply Hin).
    unfold munmap.
    cbn [mem mmap_start maps heap_start brk threshold set_maps set_next
           set_mem].
    rewrite (upd_neq _ _ _ _ Hne).
    split_all; try reflexivity.
    + apply (heap_path_unlink st block l2 (p :: l1) (mmap_start st));
        [discriminate | exact Hpath | exact Hnd].
    + intros x Hx. now rewrite upd_neq.
Qed.

(** X9: [free] of a block of the mapped list unlinks it and unmaps it.
    When the list is [l1 ++ block :: l2] (no address twice), the list after
    the call is [l1 ++ l2]; [mmap_start] changes only when the block is the
    head; the only header written is that of the block before it; the heap
    list pointers and the break are untouched, and the mapping of [block]
    with its recorded total size is dropped. *)
Theorem free_unlinks_mapped_block (st : state) (l1 l2 : list Z)
  (block : Z) (fuel : nat) :
  block + META <> 0 ->
  status (mem st block) = STATUS_MAPPED ->
  heap_path (mem st) (mmap_start st) (l1 ++ block :: l2) ->
  NoDup (l1 ++ block :: l2) ->
  (length l1 < fuel)%nat ->
  exists st',
    os_free sizeof_block_meta fuel (block + META) st = Done st' /\
    heap_path (mem st') (mmap_start st') (l1 ++ l2) /\
    (l1 <> [] -> mmap_start st' = mmap_start st) /\
    maps st'
    = filter (fun r => negb ((fst r =? block)
                             && (snd r =? TOT (size (mem st block)))))
        (maps st) /\
    heap_start st' = heap_start st /\ brk st' = brk st /\
    threshold st' = threshold st /\
    (forall x, x <> last l1 0 -> mem st' x = mem st x).
Proof.
  clear Hsizeof Hlimit.
  intros Hp Hst Hpath Hnd Hf. unfold os_free.
  replace (block + META =? 0) with false by (symmetry; now apply Z.eqb_neq).
  unfold get_block_ptr.
  replace (block + META - META) with block by lia.
  rewrite Hst. cbn [status_eqb].
  now apply os_free_mmap_unlink.
Qed.

(** * Reallocation in place *)

Lemma a_grow_ge (bs : Z) (l : list ablock) :
  forall s, Forall block_ok l -> s <= fst (a_grow META bs s l).
Proof.
  pose proof META_bounds as HM.
  induction l as [| [s1 t1] l IH]; intros s Hok; [simpl; lia |].
  apply block_ok_cons in Hok as [(H0 & _) Hok']. cbn [fst] in H0.
  destruct t1; cbn [a_grow fst]; try lia.
  destruct (s + META <? bs); cbn [fst]; [| lia].
  specialize (IH (s + (s1 + META)) Hok'). lia.
Qed.

Lemma a_grow_lookup (bs : Z) (l : list ablock) :
  forall s0 x s,
    a_lookup META x l = Some (s, STATUS_ALLOC) ->
    a_lookup META (x - (fst (a_grow META bs s0 l) - s0))
      (snd (a_grow META bs s0 l))
    = Some (s, STATUS_ALLOC).
Proof.
  induction l as [| [s1 t1] l IH]; intros s0 x s H; [discriminate |].
  destruct t1; cbn [a_grow fst snd];
    try (replace (x - (s0 - s0)) with x by lia; exact H).
  destruct (s0 + META <? bs); cbn [fst snd];
    [| replace (x - (s0 - s0)) with x by lia; exact H].
  cbn [a_lookup fst] in H.
  destruct (x =? 0); [discriminate |].
  specialize (IH (s0 + (s1 + META)) _ _ H).
  replace (x - (fst (a_grow META bs (s0 + (s1 + META)) l) - s0))
    with (x - (META + s1)
          - (fst (a_grow META bs (s0 + (s1 + META)) l)
             - (s0 + (s1 + META)))) by lia.
  exact IH.
Qed.

Lemma grow_in_place_seg (bs : Z) (bl : list ablock) :
  forall s a e st fuel,
    0 < a -> e <= 2 ^ 63 ->
    Forall block_ok ((s, STATUS_FREE) :: bl) ->
    hseg (mem st) a ((s, STATUS_FREE) :: bl) e ->
    (length bl < fuel)%nat ->
    exists m',
      grow_in_place sizeof_block_meta fuel a bs st = Done (set_mem m' st) /\
      hseg m' a
        ((fst (a_grow META bs s bl), STATUS_FREE)
           :: snd (a_grow META bs s bl)) e /\
      (forall x, x <> a -> m' x = mem st x) /\
      Forall block_ok
        ((fst (a_grow META bs s bl), STATUS_FREE)
           :: snd (a_grow META bs s bl)).
Proof.
  pose proof META_bounds as HM.
  induction bl as [| [s1 t1] bl IH]; intros s a e st fuel Ha He Hok Hseg Hf;
    (destruct fuel as [| f]; [simpl in Hf; lia |]);
    pose proof Hok as Hok0; pose proof Hseg as Hseg0;
    destruct Hseg as (Hs & Ht & Hn & Htl); cbn [fst snd] in *;
    cbn [grow_in_place a_grow].
  - assert (Hc : can_coalesce_one_block a st = false).
    { unfold can_coalesce_one_block. rewrite Ht, Hn. reflexivity. }
    rewrite Hc, andb_false_r. exists (mem st). rewrite set_mem_id.
    cbn [fst snd]. split_all; auto.
  - apply block_ok_cons in Hok as [(Hb0 & Hb8 & _) Hok'].
    apply block_ok_cons in Hok' as [(Hc0 & Hc8 & Hct) Hok''].
    destruct Htl as (Hs1 & Ht1 & Hn1 & Htl). cbn [fst snd] in *.
    pose proof (seg_bound _ _ _ _ Hok'' Htl) as Hb.
    set (a1 := a + (META + s)) in *.
    assert (Hcan : can_coalesce_one_block a st = status_eqb t1 STATUS_FREE).
    { unfold can_coalesce_one_block. rewrite Ht, Hn. simpl.
      replace (a1 =? 0) with false by (symmetry; apply Z.eqb_neq; lia).
      now rewrite Ht1. }
    rewrite Hcan, Hs.
    assert (Htots : TOT s = s + META).
    { apply TOT_aligned; try assumption. rewrite wB_eq. unfold a1 in Hb.
      lia. }
    rewrite Htots.
    destruct t1; cbn [status_eqb]; rewrite ?andb_false_r, ?andb_true_r.
    + destruct (s + META <? bs).
      * destruct (coalesce_one_block_can a st) as (m1 & E1 & Hm1 & Hfr1).
        { rewrite Hcan. reflexivity. }
        { rewrite Hn. lia. }
        rewrite E1. rewrite Hn, Hs, Ht, Hs1, Hn1 in Hm1.
        assert (Htot : TOT s1 = s1 + META).
        { apply TOT_aligned; try assumption. rewrite wB_eq. lia. }
        rewrite Htot in Hm1.
        assert (Hw : wrap (s + (s1 + META)) = s + (s1 + META)).
        { unfold wrap. apply Z.mod_small. rewrite wB_eq. lia. }
        rewrite Hw in Hm1.
        destruct (IH (s + (s1 + META)) a e (set_mem m1 st) f)
          as (m' & E' & Hseg' & Hfr' & Hok3); try assumption.
        -- apply block_ok_cons. split; [| assumption]. cbn [fst snd].
           repeat split; try lia; try congruence. zmod.
        -- cbn [mem set_mem]. simpl. rewrite Hm1. cbn [size status next].
           repeat split.
           ++ destruct bl; [reflexivity | unfold a1; lia].
           ++ replace (a + (META + (s + (s1 + META))))
                with (a1 + (META + s1)) by (unfold a1; lia).
              apply seg_frame with (m := mem st); try assumption.
              intros x Hx. apply Hfr1. unfold a1 in Hx. lia.
        -- simpl in Hf. lia.
        -- exists m'. split; [exact E' | split; [exact Hseg' | split]].
           ++ intros x Hx. rewrite Hfr' by assumption. cbn. now apply Hfr1.
           ++ exact Hok3.
      * exists (mem st). rewrite set_mem_id. cbn [fst snd].
        split_all; auto.
    + exists (mem st). rewrite set_mem_id. cbn [fst snd]. split_all; auto.
    + exists (mem st). rewrite set_mem_id. cbn [fst snd]. split_all; auto.
Qed.

Lemma a_realloc_in_place_cons (off bs : Z) (bl r : list ablock) :
  a_realloc_in_place META off bs bl = Some r -> bl <> [] /\ r <> [].
Proof.
  destruct bl as [| [s t] bl]; [discriminate |]. cbn [a_realloc_in_place].
  intros H. split; [discriminate |].
  destruct (off =? 0).
  - destruct (a_grow META bs s bl) as [s' r']. destruct (bs <=? s' + META);
      [| discriminate].
    injection H as <-. destruct (bs <? s'); discriminate.
  - destruct (a_realloc_in_place META (off - (META + s)) bs bl);
      [| discriminate].
    injection H as <-. discriminate.
Qed.

Lemma realloc_in_place_seg (bs : Z) (bl : list ablock) :
  forall a e st off fuel bl',
    0 < a -> e <= 2 ^ 63 ->
    Forall block_ok bl ->
    hseg (mem st) a bl e ->
    a_realloc_in_place META off bs bl = Some bl' ->
    META <= bs -> bs mod 8 = 0 ->
    (length bl < fuel)%nat ->
    let block := a + off in
    exists st2,
      grow_in_place sizeof_block_meta fuel block bs
        (set_status block STATUS_FREE st) = Done st2 /\
      let st3 := set_status block STATUS_ALLOC st2 in
      (bs <=? TOT (size (mem st3 block))) = true /\
      let st4 :=
        if bs <? size (mem st3 block)
        then split_block sizeof_block_meta block bs st3 else st3 in
      st4 = set_mem (mem st4) st /\
      hseg (mem st4) a bl' e /\
      (forall x, x < a -> mem st4 x = mem st x) /\
      Forall block_ok bl'.
Proof.
  pose proof META_bounds as HM.
  induction bl as [| [s t] bl IH];
    intros a e st off fuel bl' Ha He Hok Hseg Hre Hbs Hbs8 Hf;
    [discriminate |].
  cbn [a_realloc_in_place] in Hre. cbn zeta.
  pose proof Hok as Hok0.
  apply block_ok_cons in Hok as [(Hb0 & Hb8 & Hbt) Hok'].
  pose proof Hseg as Hseg0.
  destruct Hseg as (Hs & Ht & Hn & Htl). cbn [fst snd] in *.
  pose proof (seg_bound _ _ _ _ Hok' Htl) as Hbd.
  destruct (Z.eqb_spec off 0) as [-> | Hne].
  - rewrite Z.add_0_r.
    assert (Hok1 : Forall block_ok ((s, STATUS_FREE) :: bl)).
    { apply block_ok_cons. split; [| assumption].
      cbn [fst snd]. repeat split; try assumption. congruence. }
    destruct (grow_in_place_seg bs bl s a e (set_status a STATUS_FREE st)
                fuel) as (m' & E & Hseg' & Hfr & Hok2); try assumption.
    { cbn [seg fst snd]. cbn. rewrite upd_eq. cbn.
      repeat split; try assumption.
      apply seg_frame with (m := mem st); try assumption.
      intros x Hx. apply upd_neq. lia. }
    { simpl in Hf. lia. }
    destruct (a_grow META bs s bl) as [s' r]. cbn [fst snd] in *.
    destruct (Z.leb_spec bs (s' + META)) as [Hfit | Hno]; [| discriminate].
    injection Hre as <-.
    rewrite E. eexists. split; [reflexivity |].
    set (st2 := set_mem m' (set_status a STATUS_FREE st)).
    pose proof (take_seg bs ((s', STATUS_FREE) :: r) a e st2 0 Ha He Hok2
                  Hseg' eq_refl Hbs Hbs8) as T.
    cbn zeta in T. rewrite Z.add_0_r in T.
    destruct T as (E4 & Hseg4 & Hfr4 & Hok4).
    cbn [a_take] in Hseg4, Hok4. change (0 =? 0) with true in Hseg4, Hok4.
    cbv iota in Hseg4, Hok4.
    assert (Hsz : size (mem (set_status a STATUS_ALLOC st2) a) = s').
    { cbn. rewrite upd_eq. cbn. apply Hseg'. }
    pose proof (seg_bound _ _ _ _
                  (proj2 (proj1 (block_ok_cons _ _) Hok2))
                  (proj2 (proj2 (proj2 Hseg')))) as Hbd'.
    cbn [fst] in Hbd'.
    pose proof (proj1 (proj1 (block_ok_cons _ _) Hok2)) as (Hs0 & Hs8 & _).
    cbn [fst] in Hs0, Hs8.
    split.
    { rewrite Hsz. rewrite TOT_aligned; try assumption;
        [apply Z.leb_le; lia | rewrite wB_eq; lia]. }
    split; [| split; [| split]].
    + etransitivity; [exact E4 |]. reflexivity.
    + rewrite Hsz in *. destruct (bs <? s'); exact Hseg4.
    + intros x Hx. rewrite Hfr4 by assumption. unfold st2. cbn [mem set_mem].
      rewrite Hfr by lia. cbn. apply upd_neq. lia.
    + rewrite Hsz in *. destruct (bs <? s'); exact Hok4.
  - destruct (a_realloc_in_place META (off - (META + s)) bs bl) as [r |] eqn:Er;
      [| discriminate].
    injection Hre as <-.
    replace (a + off) with (a + (META + s) + (off - (META + s))) by lia.
    specialize (IH (a + (META + s)) e st (off - (META + s)) fuel r).
    cbn zeta in IH.
    destruct IH as (st2 & E & Hle & E4 & Hseg4 & Hfr4 & Hok4);
      try assumption; try lia.
    { simpl in Hf. lia. }
    exists st2. split; [exact E |]. split; [exact Hle |].
    split; [exact E4 | split; [| split]].
    + cbn [seg fst snd]. rewrite Hfr4 by lia.
      repeat split; try assumption.
      rewrite Hn. destruct (a_realloc_in_place_cons _ _ _ _ Er) as [H1 H2].
      destruct bl; [congruence |]. destruct r; [congruence | reflexivity].
    + intros x Hx. apply Hfr4. lia.
    + apply block_ok_cons. split; [| assumption].
      cbn [fst snd]. repeat split; assumption.
Qed.

Lemma a_grow_ok (bs : Z) (l : list ablock) :
  forall s, Forall block_ok l -> Forall block_ok (snd (a_grow META bs s l)).
Proof.
  induction l as [| [s1 t1] l IH]; intros s Hok; [exact Hok |].
  destruct t1; cbn [a_grow snd]; try exact Hok.
  destruct (s + META <? bs); cbn [snd]; [| exact Hok].
  apply IH. now apply block_ok_cons in Hok as [_ Hok'].
Qed.

Lemma a_realloc_in_place_block (bs : Z) (bl : list ablock) :
  forall off bl' s t,
    Forall block_ok bl -> META <= bs ->
    a_lookup META off bl = Some (s, t) ->
    a_realloc_in_place META off bs bl = Some bl' ->
    exists s',
      a_lookup META off bl' = Some (s', STATUS_ALLOC) /\
      bs - META <= s' /\ (s <= s' \/ s' = bs - META).
Proof.
  induction bl as [| [s0 t0] bl IH]; intros off bl' s t Hok Hbs Hl Hre;
    [discriminate |].
  apply block_ok_cons in Hok as [_ Hok'].
  cbn [a_lookup a_realloc_in_place fst] in *.
  destruct (Z.eqb_spec off 0) as [-> | Hne].
  - injection Hl as -> ->.
    pose proof (a_grow_ge bs bl s Hok') as Hge.
    destruct (a_grow META bs s bl) as [s' r]. cbn [fst] in Hge.
    destruct (Z.leb_spec bs (s' + META)); [| discriminate].
    injection Hre as <-.
    destruct (Z.ltb_spec bs s'); cbn [a_lookup]; change (0 =? 0) with true;
      cbv iota; eexists; (split; [reflexivity |]); lia.
  - destruct (a_realloc_in_place META (off - (META + s0)) bs bl) as [r |] eqn:Er;
      [| discriminate].
    injection Hre as <-. cbn [a_lookup fst].
    replace (off =? 0) with false by (symmetry; now apply Z.eqb_neq).
    eapply IH; eassumption.
Qed.

Lemma a_realloc_in_place_lookup (bs : Z) (bl : list ablock) :
  forall off bl' o s,
    Forall block_ok bl -> META <= bs ->
    a_realloc_in_place META off bs bl = Some bl' ->
    o <> off ->
    a_lookup META o bl = Some (s, STATUS_ALLOC) ->
    a_lookup META o bl' = Some (s, STATUS_ALLOC).
Proof.
  pose proof META_bounds as HM.
  induction bl as [| [s0 t0] bl IH]; intros off bl' o s Hok Hbs Hre Hne Hl;
    [discriminate |].
  apply block_ok_cons in Hok as [(H0 & _) Hok']. cbn [fst] in H0.
  cbn [a_lookup a_realloc_in_place fst] in *.
  destruct (Z.eqb_spec off 0) as [-> | Hoff].
  - replace (o =? 0) with false in Hl by (symmetry; now apply Z.eqb_neq).
    pose proof (a_grow_lookup bs bl s0 _ _ Hl) as Hg.
    pose proof (a_grow_ok bs bl s0 Hok') as Hokr.
    destruct (a_grow META bs s0 bl) as [s' r]. cbn [fst snd] in *.
    destruct (a_lookup_nonneg _ _ _ Hokr Hg) as [Hpos _].
    destruct (Z.leb_spec bs (s' + META)); [| discriminate].
    injection Hre as <-.
    destruct (Z.ltb_spec bs s'); cbn [a_lookup fst].
    + replace (o =? 0) with false by (symmetry; now apply Z.eqb_neq).
      replace (o - (META + (bs - META)) =? 0) with false
        by (symmetry; apply Z.eqb_neq; lia).
      replace (o - (META + (bs - META)) - (META + (s' - bs)))
        with (o - (META + s0) - (s' - s0)) by lia.
      exact Hg.
    + replace (o =? 0) with false by (symmetry; now apply Z.eqb_neq).
      replace (o - (META + s')) with (o - (META + s0) - (s' - s0)) by lia.
      exact Hg.
  - destruct (a_realloc_in_place META (off - (META + s0)) bs bl) as [r |] eqn:Er;
      [| discriminate].
    injection Hre as <-. cbn [a_lookup fst].
    destruct (Z.eqb_spec o 0) as [-> | Ho]; [exact Hl |].
    apply (IH (off - (META + s0)) r); try assumption. lia.
Qed.

Lemma a_realloc_in_place_shrink (bs : Z) (bl : list ablock) :
  forall off s t,
    a_lookup META off bl = Some (s, t) -> bs <= s + META ->
    a_realloc_in_place META off bs bl = Some (a_take META off bs bl).
Proof.
  induction bl as [| [s0 t0] bl IH]; intros off s t Hl Hbs; [discriminate |].
  cbn [a_lookup a_realloc_in_place a_take fst] in *.
  destruct (Z.eqb_spec off 0) as [-> | Hoff].
  - injection Hl as -> ->.
    assert (Hg : a_grow META bs s bl = (s, bl)).
    { destruct bl as [| [s1 t1] bl]; [reflexivity |].
      destruct t1; cbn [a_grow]; try reflexivity.
      replace (s + META <? bs) with false
        by (symmetry; apply Z.ltb_ge; lia).
      reflexivity. }
    rewrite Hg.
    replace (bs <=? s + META) with true by (symmetry; apply Z.leb_le; lia).
    reflexivity.
  - now rewrite (IH _ _ _ Hl Hbs).
Qed.

Lemma os_realloc_in_place_heap (st : state) (bl bl' : list ablock)
  (ptr n s : Z) (addr : Z) (fuel : nat) :
  hrepr st bl ->
  threshold st = MMAP_THRESHOLD ->
  0 < n <= MMAP_THRESHOLD - META - 8 ->
  a_lookup META (ptr - META - heap_start st) bl = Some (s, STATUS_ALLOC) ->
  a_realloc_in_place META (ptr - META - heap_start st) (ALIGN n + META) bl
  = Some bl' ->
  (length bl < fuel)%nat ->
  exists st',
    os_realloc sizeof_block_meta brk_limit fuel addr ptr n st
    = Done (ptr, st') /\
    hrepr st' bl' /\
    heap_start st' = heap_start st /\
    mmap_start st' = mmap_start st /\
    threshold st' = threshold st /\
    maps st' = maps st /\
    brk st' = brk st.
Proof.
  pose proof META_bounds as HM.
  intros Hrepr Hth Hn Hl Hre Hf.
  change MMAP_THRESHOLD with 131072 in *.
  destruct bl as [| b0 bl0]; [discriminate |].
  apply heap_repr_cons in Hrepr as (Hbrk & Hok & Hhs & Hseg).
  set (bl := b0 :: bl0) in *.
  set (off := ptr - META - heap_start st) in *.
  destruct (a_lookup_nonneg _ _ _ Hok Hl) as [Hoff _].
  pose proof (a_lookup_find _ _ _ Hl) as Hfind.
  assert (Hblock : get_block_ptr sizeof_block_meta ptr = heap_start st + off)
    by (unfold get_block_ptr, off; lia).
  pose proof (ALIGN_range n) as (Ha0 & Ha8).
  pose proof (ALIGN_round_up n) as Hup.
  rewrite wB_eq in Hup.
  assert (Htot : TOT (ALIGN n) = ALIGN n + META).
  { apply TOT_aligned; try lia. rewrite wB_eq. lia. }
  destruct (seg_lookup _ _ _ _ _ _ Hseg Hl) as [_ Hst]. cbn [snd] in Hst.
  unfold os_realloc.
  replace (ptr =? 0) with false by (symmetry; apply Z.eqb_neq; lia).
  replace (n =? 0) with false by (symmetry; apply Z.eqb_neq; lia).
  rewrite Hblock, Hst. cbn [status_eqb].
  unfold os_realloc_sbrk, find_block_in_heap. rewrite Hblock, Htot.
  pose proof (find_block_in_heap_from_seg bl (heap_start st) (brk st) st fuel
                (heap_start st + off) Hhs Hok Hseg Hf) as Efind.
  change (cur_of (heap_start st) bl) with (heap_start st) in Efind.
  rewrite Efind.
  replace (heap_start st + off - heap_start st) with off by lia.
  rewrite Hfind. cbn [bind].
  replace (heap_start st + off =? 0) with false
    by (symmetry; apply Z.eqb_neq; lia).
  rewrite Hth.
  replace (131072 <=? ALIGN n + META) with false
    by (symmetry; apply Z.leb_gt; lia).
  destruct (realloc_in_place_seg (ALIGN n + META) bl (heap_start st) (brk st)
              st off fuel bl')
    as (st2 & E & Hle & E4 & Hseg4 & Hfr4 & Hok4);
    try assumption; try lia.
  { clear - Ha8 HM. zmod. }
  rewrite E. cbn [bind]. rewrite Hle.
  eexists. split; [reflexivity |].
  rewrite E4.
  split; [| split_all; try reflexivity; exact Hth].
  unfold heap_repr. cbn [heap_start brk mem set_mem].
  split; [lia | split; [assumption |]].
  destruct (a_realloc_in_place_cons _ _ _ _ Hre) as [_ Hne].
  destruct bl' as [| b' r']; [congruence |]. split; assumption.
Qed.

(** X10: [realloc] in place.  For a block in use on the heap and a request
    below the mapping threshold ([0 < n <= MMAP_THRESHOLD - META_SIZE - 8]),
    when the block together with the FREE blocks that follow it (taken one by one, only as long as the block is
    still too small) can hold the request, [realloc] returns the same
    pointer; the block is ALLOC with at least the requested payload, every
    other block in use keeps its place and size, and the heap bounds, the
    mapped list and the threshold are unchanged. *)
Theorem realloc_in_place (st : state) (bl bl' : list ablock)
  (ptr n s : Z) (addr : Z) (fuel : nat) :
  hrepr st bl ->
  threshold st = MMAP_THRESHOLD ->
  0 < n <= MMAP_THRESHOLD - META - 8 ->
  a_lookup META (ptr - META - heap_start st) bl = Some (s, STATUS_ALLOC) ->
  a_realloc_in_place META (ptr - META - heap_start st) (ALIGN n + META) bl
  = Some bl' ->
  (length bl < fuel)%nat ->
  exists st' s',
    os_realloc sizeof_block_meta brk_limit fuel addr ptr n st
    = Done (ptr, st') /\
    hrepr st' bl' /\
    a_lookup META (ptr - META - heap_start st') bl'
    = Some (s', STATUS_ALLOC) /\
    n <= s' /\
    (forall o s0,
        o <> ptr - META - heap_start st ->
        a_lookup META o bl = Some (s0, STATUS_ALLOC) ->
        a_lookup META o bl' = Some (s0, STATUS_ALLOC)) /\
    heap_start st' = heap_start st /\
    brk st' = brk st /\
    mmap_start st' = mmap_start st /\
    maps st' = maps st /\
    threshold st' = threshold st.
Proof.
  pose proof META_bounds as HM.
  intros Hrepr Hth Hn Hl Hre Hf.
  destruct (os_realloc_in_place_heap st bl bl' ptr n s addr fuel)
    as (st' & E & Hrepr' & Hhs & Hms & Hth' & Hmaps & Hbrk); try assumption.
  assert (Hok : Forall block_ok bl) by apply Hrepr.
  change MMAP_THRESHOLD with 131072 in Hn.
  pose proof (ALIGN_round_up n) as Hup. rewrite wB_eq in Hup.
  specialize (Hup ltac:(lia) ltac:(lia)).
  assert (Hbs : META <= ALIGN n + META) by lia.
  destruct (a_realloc_in_place_block _ _ _ _ _ _ Hok Hbs Hl Hre)
    as (s' & Hl' & Hs' & _).
  exists st', s'. rewrite Hhs.
  split_all; try assumption; try lia.
  intros o s0 Ho Hlo.
  apply (a_realloc_in_place_lookup _ _ _ _ _ _ Hok Hbs Hre Ho Hlo).
Qed.

(** X11: on a well-formed heap with the default threshold, [realloc] of a
    heap block in use to [n] bytes, [0 < n <= MMAP_THRESHOLD - META_SIZE - 8],
    that the block already holds ([ALIGN n] is at most its size) does not
    move it and does not fail: the same pointer comes back, and the heap
    list is the one obtained by splitting the block when its payload exceeds
    the requested total size, the rest becoming a FREE block that is not
    merged with a FREE block after it.  (A request whose total reaches the
    threshold moves the block to a mapping even when the block could hold
    it.) *)
Theorem realloc_shrink_keeps_pointer (st : state) (bl : list ablock)
  (ptr n s : Z) (addr : Z) (fuel : nat) :
  hrepr st bl ->
  threshold st = MMAP_THRESHOLD ->
  0 < n <= MMAP_THRESHOLD - META - 8 ->
  a_lookup META (ptr - META - heap_start st) bl = Some (s, STATUS_ALLOC) ->
  ALIGN n <= s ->
  (length bl < fuel)%nat ->
  exists st',
    os_realloc sizeof_block_meta brk_limit fuel addr ptr n st
    = Done (ptr, st') /\
    hrepr st'
      (a_take META (ptr - META - heap_start st) (ALIGN n + META) bl) /\
    heap_start st' = heap_start st /\
    brk st' = brk st /\
    mmap_start st' = mmap_start st /\
    maps st' = maps st.
Proof.
  intros Hrepr Hth Hn Hl Hs Hf.
  assert (Hbs : ALIGN n + META <= s + META) by lia.
  destruct (os_realloc_in_place_heap st bl _ ptr n s addr fuel Hrepr Hth Hn Hl
              (a_realloc_in_place_shrink _ _ _ _ _ Hl Hbs) Hf)
    as (st' & E & Hrepr' & Hhs & Hms & Hth' & Hmaps & Hbrk).
  exists st'. split_all; assumption.
Qed.

(** * [calloc] and the page-size threshold *)

(** X12: [calloc] compares the block size with the page size, not with
    [MMAP_THRESHOLD]: when the product [nmemb * size], taken modulo 2^64, is
    not zero and its total block size reaches the page size, the block is
    mapped, however small it is.  It becomes the head of the mapped list,
    the heap list and the break are untouched, and the threshold is
    [MMAP_THRESHOLD] again afterwards. *)
Theorem calloc_maps_from_page_size (st : state) (nmemb sz addr : Z)
  (fuel : nat) :
  0 < wrap (nmemb * sz) ->
  wrap pagesize <= TOT (wrap (nmemb * sz)) ->
  addr <> MAP_FAILED ->
  exists st',
    os_calloc sizeof_block_meta pagesize brk_limit fuel addr nmemb sz st
    = Done (addr + META, st') /\
    mmap_start st' = addr /\
    maps st' = (addr, TOT (wrap (nmemb * sz))) :: maps st /\
    mem st' addr
    = mk_block (wrap (TOT (wrap (nmemb * sz)) - META)) STATUS_MAPPED
        (mmap_start st) /\
    (forall x, x <> addr -> mem st' x = mem st x) /\
    threshold st' = MMAP_THRESHOLD /\
    heap_start st' = heap_start st /\ brk st' = brk st.
Proof.
  intros Hpos Hpg Haddr.
  assert (Hr : 0 <= wrap (nmemb * sz) < wB)
    by (unfold wrap; apply Z.mod_pos_bound; rewrite wB_eq; lia).
  unfold os_calloc, os_malloc.
  replace (wrap (nmemb * sz) <=? 0) with false
    by (symmetry; apply Z.leb_gt; lia).
  rewrite TOT_ALIGN by assumption.
  cbn [threshold set_threshold].
  replace (TOT (wrap (nmemb * sz)) <? wrap pagesize) with false
    by (symmetry; apply Z.ltb_ge; lia).
  unfold os_malloc_mmap, mmap. rewrite TOT_ALIGN by assumption.
  replace (addr =? MAP_FAILED) with false
    by (symmetry; now apply Z.eqb_neq).
  cbn [bind]. eexists. split; [reflexivity |].
  cbn [mmap_start maps heap_start brk threshold mem set_maps set_mmap_start
         set_next set_status set_size set_mem set_threshold].
  split_all; try reflexivity.
  - rewrite !upd_eq. cbn [size status next]. reflexivity.
  - intros x Hx. now rewrite !upd_neq.
Qed.

(** X13: a [calloc] whose product modulo [2^64] is at least 1 and at most
    [MMAP_THRESHOLD - META_SIZE - 8] and whose total block size is below the
    page size is served from the heap list exactly as a heap [malloc] of the
    product would be: same search, split or extension of the heap; the heap
    stays well formed and the threshold is [MMAP_THRESHOLD] again
    afterwards. *)
Theorem calloc_below_page_size_on_heap (st : state) (bl : list ablock)
  (nmemb sz addr : Z) (fuel : nat) :
  hrepr st bl ->
  0 < wrap (nmemb * sz) <= MMAP_THRESHOLD - META - 8 ->
  ALIGN (wrap (nmemb * sz)) + META < wrap pagesize ->
  brk st + INITIAL_HEAP_SIZE <= brk_limit ->
  (length bl + 2 <= fuel)%nat ->
  exists st',
    os_calloc sizeof_block_meta pagesize brk_limit fuel addr nmemb sz st
    = Done ((if heap_start st =? 0 then brk st else heap_start st)
            + fst (a_malloc_sbrk META (ALIGN (wrap (nmemb * sz))) bl) + META,
            st') /\
    hrepr st' (snd (a_malloc_sbrk META (ALIGN (wrap (nmemb * sz))) bl)) /\
    threshold st' = MMAP_THRESHOLD /\
    mmap_start st' = mmap_start st /\ maps st' = maps st /\
    brk st <= brk st' <= brk st + INITIAL_HEAP_SIZE.
Proof.
  pose proof META_bounds as HM.
  intros Hrepr Hn Hpg Hroom Hf.
  change MMAP_THRESHOLD with 131072 in *.
  change INITIAL_HEAP_SIZE with 131072 in *.
  set (total := wrap (nmemb * sz)) in *.
  pose proof (ALIGN_range total) as (Ha0 & Ha8).
  pose proof (ALIGN_round_up total) as Hup.
  rewrite wB_eq in Hup. specialize (Hup ltac:(lia) ltac:(lia)).
  assert (Htot : TOT (ALIGN total) = ALIGN total + META).
  { apply TOT_aligned; try lia. rewrite wB_eq. lia. }
  unfold os_calloc, os_malloc. fold total.
  replace (total <=? 0) with false by (symmetry; apply Z.leb_gt; lia).
  rewrite Htot. cbn [threshold set_threshold].
  replace (ALIGN total + META <? wrap pagesize) with true
    by (symmetry; apply Z.ltb_lt; lia).
  destruct (os_malloc_sbrk_repr (set_threshold (wrap pagesize) st) bl
              (ALIGN total) fuel)
    as (st1 & E & Hr1 & G1 & G2 & G3 & G4 & G5);
    try assumption; try lia;
    try (change INITIAL_HEAP_SIZE with 131072; cbn [brk set_threshold]; lia).
  cbn [heap_start brk mmap_start maps set_threshold] in E, G1, G2, G4, G5.
  rewrite E. cbn [bind]. eexists. split; [reflexivity |].
  change INITIAL_HEAP_SIZE with 131072 in G5.
  split_all; try assumption; try reflexivity;
    cbn [brk set_threshold]; lia.
Qed.

(** * Reallocation into a mapping *)

Lemma os_malloc_mmap_spec (addr sz : Z) (st : state) :
  addr <> MAP_FAILED ->
  exists st1,
    os_malloc_mmap sizeof_block_meta addr sz st = Done (addr + META, st1) /\
    mmap_start st1 = addr /\
    maps st1 = (addr, TOT sz) :: maps st /\
    mem st1 addr
    = mk_block (wrap (TOT sz - META)) STATUS_MAPPED (mmap_start st) /\
    (forall x, x <> addr -> mem st1 x = mem st x) /\
    threshold st1 = threshold st /\
    heap_start st1 = heap_start st /\ brk st1 = brk st.
Proof.
  clear Hsizeof Hlimit.
  intros Haddr. unfold os_malloc_mmap, mmap.
  replace (addr =? MAP_FAILED) with false
    by (symmetry; now apply Z.eqb_neq).
  cbn [bind]. eexists. split; [reflexivity |].
  cbn [mmap_start maps heap_start brk threshold mem set_maps set_mmap_start
         set_next set_status set_size set_mem].
  split_all; try reflexivity.
  - rewrite !upd_eq. cbn [size status next]. reflexivity.
  - intros x Hx. now rewrite !upd_neq.
Qed.

Lemma coalesce_blocks_writes (block : Z) :
  forall fuel st st',
    coalesce_blocks sizeof_block_meta fuel block st = Done st' ->
    forall x, x <> block -> mem st' x = mem st x.
Proof.
  clear Hsizeof Hlimit.
  induction fuel as [| f IH]; intros st st' H x Hx; [discriminate H |].
  cbn [coalesce_blocks] in H.
  destruct (can_coalesce_one_block block st) eqn:Hc.
  - rewrite (IH _ _ H x Hx). unfold coalesce_one_block. rewrite Hc.
    cbn. now rewrite !upd_neq.
  - injection H as <-. reflexivity.
Qed.

Lemma a_lookup_bound (bl : list ablock) :
  forall off b,
    Forall block_ok bl -> a_lookup META off bl = Some b ->
    off + META + fst b <= hext bl.
Proof.
  pose proof META_bounds as HM.
  induction bl as [| c bl IH]; intros off b Hok H; [discriminate |].
  apply block_ok_cons in Hok as [(Hc0 & _) Hok'].
  cbn [a_lookup] in H. cbn [extent fold_right].
  pose proof (extent_nonneg _ Hok') as He. unfold extent in He.
  destruct (Z.eqb_spec off 0) as [-> | Hne].
  - injection H as <-. lia.
  - specialize (IH _ _ Hok' H). unfold extent in IH. lia.
Qed.

Lemma os_free_sbrk_heap (st : state) (bl : list ablock) (ptr : Z)
  (fuel : nat) :
  hrepr st bl ->
  a_find META (ptr - META - heap_start st) bl = true ->
  (length bl < fuel)%nat ->
  exists st',
    os_free_sbrk sizeof_block_meta fuel ptr st = Done st' /\
    hrepr st' (a_free META (ptr - META - heap_start st) bl) /\
    heap_start st' = heap_start st /\
    mmap_start st' = mmap_start st /\
    threshold st' = threshold st /\
    maps st' = maps st /\
    brk st' = brk st /\
    (forall x, x <> get_block_ptr sizeof_block_meta ptr ->
               mem st' x = mem st x).
Proof.
  pose proof META_bounds as HM.
  intros Hrepr Hfind Hf.
  destruct bl as [| b0 bl0]; [discriminate |].
  apply heap_repr_cons in Hrepr as (Hbrk & Hok & Hhs & Hseg).
  set (bl := b0 :: bl0) in *.
  set (off := ptr - META - heap_start st) in *.
  pose proof (a_find_nonneg _ _ Hok Hfind) as Hoff.
  assert (Hblock : get_block_ptr sizeof_block_meta ptr = heap_start st + off)
    by (unfold get_block_ptr, off; lia).
  unfold os_free_sbrk, find_block_in_heap. rewrite Hblock.
  pose proof (find_block_in_heap_from_seg bl (heap_start st) (brk st) st fuel
                (heap_start st + off) Hhs Hok Hseg Hf) as Efind.
  change (cur_of (heap_start st) bl) with (heap_start st) in Efind.
  rewrite Efind.
  replace (heap_start st + off - heap_start st) with off by lia.
  rewrite Hfind. cbn [bind].
  replace (heap_start st + off =? 0) with false
    by (symmetry; apply Z.eqb_neq; lia).
  destruct (free_seg bl (heap_start st) (brk st) st off fuel)
    as (m' & E & Hseg' & Hfr & Hok'); try assumption; try lia.
  rewrite E. eexists. split; [reflexivity |].
  split; [| split_all; try reflexivity].
  2:{ intros x Hx.
      rewrite (coalesce_blocks_writes _ _ _ _ E x Hx).
      cbn. now apply upd_neq. }
  unfold heap_repr. cbn [heap_start brk mem set_mem].
  split; [lia | split; [assumption |]].
  rewrite a_free_match. unfold bl at 1. split; assumption.
Qed.

(** X14: [realloc] of a heap block to a size whose block reaches the
    threshold moves it to a fresh mapping.  With [addr] the address given
    by [mmap], outside the heap, the result is [addr + META_SIZE]; the new
    block is MAPPED, heads the mapped list and has the requested total
    size; the old block is released on the heap list exactly as [free]
    releases it, and the break does not move. *)
Theorem realloc_moves_heap_block_to_mapping (st : state) (bl : list ablock)
  (ptr n s addr : Z) (fuel : nat) :
  hrepr st bl ->
  threshold st = MMAP_THRESHOLD ->
  0 < n < wB -> MMAP_THRESHOLD <= TOT n ->
  a_lookup META (ptr - META - heap_start st) bl = Some (s, STATUS_ALLOC) ->
  addr <> MAP_FAILED ->
  addr < heap_start st \/ brk st <= addr ->
  (length bl < fuel)%nat ->
  exists st',
    os_realloc sizeof_block_meta brk_limit fuel addr ptr n st
    = Done (addr + META, st') /\
    hrepr st' (a_free META (ptr - META - heap_start st) bl) /\
    mmap_start st' = addr /\
    maps st' = (addr, TOT n) :: maps st /\
    mem st' addr
    = mk_block (wrap (TOT n - META)) STATUS_MAPPED (mmap_start st) /\
    heap_start st' = heap_start st /\ brk st' = brk st /\
    threshold st' = threshold st.
Proof.
  pose proof META_bounds as HM.
  intros Hrepr Hth Hn Hbig Hl Haddr Hout Hf.
  change MMAP_THRESHOLD with 131072 in *.
  pose proof Hrepr as Hrepr0.
  destruct bl as [| b0 bl0]; [discriminate |].
  apply heap_repr_cons in Hrepr as (Hbrk & Hok & Hhs & Hseg).
  set (bl := b0 :: bl0) in *.
  set (off := ptr - META - heap_start st) in *.
  destruct (a_lookup_nonneg _ _ _ Hok Hl) as [Hoff _].
  pose proof (a_lookup_find _ _ _ Hl) as Hfind.
  assert (Hblock : get_block_ptr sizeof_block_meta ptr = heap_start st + off)
    by (unfold get_block_ptr, off; lia).
  destruct (seg_lookup _ _ _ _ _ _ Hseg Hl) as [_ Hst]. cbn [snd] in Hst.
  unfold os_realloc.
  replace (ptr =? 0) with false by (symmetry; apply Z.eqb_neq; lia).
  replace (n =? 0) with false by (symmetry; apply Z.eqb_neq; lia).
  rewrite Hblock, Hst. cbn [status_eqb].
  unfold os_realloc_sbrk, find_block_in_heap. rewrite Hblock.
  rewrite TOT_ALIGN by lia.
  pose proof (find_block_in_heap_from_seg bl (heap_start st) (brk st) st fuel
                (heap_start st + off) Hhs Hok Hseg Hf) as Efind.
  change (cur_of (heap_start st) bl) with (heap_start st) in Efind.
  rewrite Efind.
  replace (heap_start st + off - heap_start st) with off by lia.
  rewrite Hfind. cbn [bind].
  replace (heap_start st + off =? 0) with false
    by (symmetry; apply Z.eqb_neq; lia).
  rewrite Hth.
  replace (131072 <=? TOT n) with true by (symmetry; apply Z.leb_le; lia).
  destruct (os_malloc_mmap_spec addr (ALIGN n) st Haddr)
    as (st1 & E1 & Hms1 & Hmaps1 & Hm1 & Hfr1 & Hth1 & Hhs1 & Hbrk1).
  rewrite TOT_ALIGN in Hmaps1, Hm1 by lia.
  rewrite E1. cbn [bind].
  assert (Hrepr1 : hrepr st1 bl).
  { apply heap_repr_cons. rewrite Hhs1, Hbrk1.
    split; [assumption | split; [assumption | split; [assumption |]]].
    apply seg_frame with (m := mem st); try assumption.
    intros x Hx. apply Hfr1. lia. }
  destruct (os_free_sbrk_heap st1 bl ptr fuel Hrepr1)
    as (st2 & E2 & Hr2 & Hhs2 & Hms2 & Hth2 & Hmaps2 & Hbrk2 & Hfr2);
    try assumption.
  { rewrite Hhs1. exact Hfind. }
  rewrite E2. cbn [bind]. exists st2. rewrite Hhs1 in *.
  split; [reflexivity |].
  split; [exact Hr2 |].
  split; [congruence |]. split; [congruence |].
  split; [| split; [congruence | split; congruence]].
  rewrite Hfr2; [exact Hm1 |]. rewrite Hblock.
  pose proof (a_lookup_bound _ _ _ Hok Hl) as Hb. cbn [fst] in Hb.
  pose proof (seg_extent _ _ _ _ Hseg) as He.
  apply block_ok_cons in Hok as [_ Hok'].
  assert (Hs0 : 0 <= s).
  { clear - Hl Hrepr0. destruct Hrepr0 as (_ & Hok & _).
    revert Hl. generalize off. induction bl as [| c r IH]; intros o H;
      [discriminate |].
    apply block_ok_cons in Hok as [(Hc0 & _) Hok'].
    cbn [a_lookup] in H. destruct (o =? 0).
    - injection H as ->. exact Hc0.
    - eapply IH; eassumption. }
  lia.
Qed.

(** X15: [realloc] of a mapped block to a size whose block reaches the
    threshold takes a fresh mapping, puts it at the head of the mapped
    list, then unlinks and unmaps the old block: with the list
    [l1 ++ block :: l2] before the call, it is [addr :: l1 ++ l2] after
    it, and the heap list pointers and the break are untouched. *)
Theorem realloc_of_mapped_block (st : state) (l1 l2 : list Z)
  (block n addr : Z) (fuel : nat) :
  threshold st = MMAP_THRESHOLD ->
  0 < n -> n + 7 < wB -> MMAP_THRESHOLD <= TOT n ->
  block + META <> 0 ->
  status (mem st block) = STATUS_MAPPED ->
  heap_path (mem st) (mmap_start st) (l1 ++ block :: l2) ->
  NoDup (l1 ++ block :: l2) ->
  addr <> MAP_FAILED -> addr <> 0 -> ~ In addr (l1 ++ block :: l2) ->
  (length l1 + 1 < fuel)%nat ->
  exists st',
    os_realloc sizeof_block_meta brk_limit fuel addr (block + META) n st
    = Done (addr + META, st') /\
    mmap_start st' = addr /\
    heap_path (mem st') (mmap_start st') (addr :: l1 ++ l2) /\
    maps st'
    = filter (fun r => negb ((fst r =? block)
                             && (snd r =? TOT (size (mem st block)))))
        ((addr, TOT n) :: maps st) /\
    heap_start st' = heap_start st /\ brk st' = brk st /\
    threshold st' = threshold st.
Proof.
  clear Hlimit. pose proof META_bounds as HM.
  intros Hth Hn Hn7 Hbig Hp Hst Hpath Hnd Haddr Haddr0 Hfresh Hf.
  change MMAP_THRESHOLD with 131072 in *.
  pose proof (ALIGN_range n) as (Ha0 & Ha8).
  pose proof (ALIGN_round_up n ltac:(lia) Hn7) as Hup.
  unfold os_realloc.
  replace (block + META =? 0) with false by (symmetry; now apply Z.eqb_neq).
  replace (n =? 0) with false by (symmetry; apply Z.eqb_neq; lia).
  unfold get_block_ptr. replace (block + META - META) with block by lia.
  rewrite Hst. cbn [status_eqb].
  unfold os_realloc_mmap, os_malloc.
  replace (ALIGN n <=? 0) with false by (symmetry; apply Z.leb_gt; lia).
  rewrite !TOT_ALIGN by lia. rewrite Hth.
  replace (TOT n <? 131072) with false by (symmetry; apply Z.ltb_ge; lia).
  destruct (os_malloc_mmap_spec addr (ALIGN (ALIGN n)) st Haddr)
    as (st1 & E1 & Hms1 & Hmaps1 & Hm1 & Hfr1 & Hth1 & Hhs1 & Hbrk1).
  rewrite !TOT_ALIGN in Hmaps1, Hm1 by lia.
  rewrite E1. cbn [bind].
  assert (Hne : block <> addr).
  { intros ->. apply Hfresh. apply in_or_app. right. now left. }
  assert (Hpath1 : heap_path (mem st1) (mmap_start st1)
                     ((addr :: l1) ++ block :: l2)).
  { rewrite Hms1, <- app_comm_cons.
    split; [exact Haddr0 | split; [reflexivity |]].
    rewrite Hm1. cbn [next].
    apply heap_path_frame with (m := mem st); [| exact Hpath].
    intros x Hx. apply Hfr1. intros ->. now apply Hfresh. }
  assert (Hnd1 : NoDup ((addr :: l1) ++ block :: l2)).
  { rewrite <- app_comm_cons. now apply NoDup_cons. }
  destruct (os_free_mmap_unlink st1 (addr :: l1) l2 block fuel Hpath1 Hnd1)
    as (st2 & E2 & Hpath2 & Hms2 & Hmaps2 & Hhs2 & Hbrk2 & Hth2 & _).
  { simpl length. lia. }
  rewrite E2. cbn [bind]. exists st2.
  specialize (Hms2 ltac:(discriminate)).
  rewrite (Hfr1 block Hne), Hmaps1 in Hmaps2.
  split; [reflexivity |].
  split; [congruence |].
  split; [exact Hpath2 |].
  split; [exact Hmaps2 |].
  split_all; congruence.
Qed.

(** * Failure of the operating system *)

(** X16: the allocator never reports a failure of the operating system to
    its caller.  When [mmap] fails, a [malloc] that needs a mapping ends
    the process; when the break cannot move, so does the first [malloc]
    that has to set up the heap. *)
Theorem os_failure_ends_the_process (st : state) (n addr : Z) (fuel : nat) :
  0 < n < wB ->
  (threshold st <= TOT n ->
   os_malloc sizeof_block_meta brk_limit fuel MAP_FAILED n st = Died) /\
  (TOT n < threshold st -> heap_start st = 0 ->
   0 <= brk st -> brk_limit < brk st + INITIAL_HEAP_SIZE ->
   os_malloc sizeof_block_meta brk_limit fuel addr n st = Died).
Proof.
  clear Hlimit.
  intros Hn. unfold os_malloc.
  replace (n <=? 0) with false by (symmetry; apply Z.leb_gt; lia).
  rewrite TOT_ALIGN by lia. split.
  - intros Hbig.
    replace (TOT n <? threshold st) with false
      by (symmetry; apply Z.ltb_ge; lia).
    unfold os_malloc_mmap, mmap. now rewrite Z.eqb_refl.
  - intros Hsmall Hhs Hbrk Hroom.
    replace (TOT n <? threshold st) with true
      by (symmetry; apply Z.ltb_lt; lia).
    unfold os_malloc_sbrk. rewrite Hhs. change (0 =? 0) with true. cbv iota.
    unfold heap_init, request_space. change (0 =? 0) with true.
    cbn [negb andb]. unfold sbrk.
    change (to_signed INITIAL_HEAP_SIZE) with 131072.
    change INITIAL_HEAP_SIZE with 131072 in Hroom.
    replace (brk st + 131072 <=? brk_limit) with false
      by (symmetry; apply Z.leb_gt; lia).
    rewrite andb_false_r. reflexivity.
Qed.

(** * Reallocation of the last block *)

Lemma seg_lookup_last (bl : list ablock) :
  forall m a e off b,
    Forall block_ok bl -> hseg m a bl e ->
    a_lookup META off bl = Some b ->
    off + META + fst b = hext bl ->
    next (m (a + off)) = 0.
Proof.
  pose proof META_bounds as HM.
  induction bl as [| c bl IH]; intros m a e off b Hok Hseg Hl Hlast;
    [discriminate |].
  apply block_ok_cons in Hok as [(Hc0 & _) Hok'].
  destruct Hseg as (_ & _ & Hn & Htl).
  cbn [a_lookup] in Hl. cbn [extent fold_right] in Hlast.
  fold (extent META bl) in Hlast.
  destruct (Z.eqb_spec off 0) as [-> | Hne].
  - injection Hl as <-. rewrite Z.add_0_r, Hn.
    destruct bl as [| c' bl']; [reflexivity |].
    pose proof (extent_pos _ _ Hok') as Hp. apply Z.eqb_neq in Hp. lia.
  - replace (a + off) with (a + (META + fst c) + (off - (META + fst c)))
      by lia.
    apply (IH m _ e _ b); try assumption. lia.
Qed.

Lemma a_extend_last (bs : Z) (l : list ablock) :
  forall o s,
    Forall block_ok l ->
    a_lookup META o l = Some (s, STATUS_FREE) ->
    o + META + s = hext l ->
    fst (a_extend META bs l) = o /\
    a_lookup META o (snd (a_extend META bs l))
    = Some (bs - META, STATUS_ALLOC) /\
    hext (snd (a_extend META bs l)) = o + bs /\
    (forall o' b, o' <> o -> a_lookup META o' l = Some b ->
                  a_lookup META o' (snd (a_extend META bs l)) = Some b).
Proof.
  pose proof META_bounds as HM.
  induction l as [| c l IH]; intros o s Hok Hl Hlast; [discriminate |].
  apply block_ok_cons in Hok as [(Hc0 & _) Hok'].
  cbn [extent fold_right] in Hlast. fold (extent META l) in Hlast.
  destruct l as [| c' l'].
  - cbn [a_lookup] in Hl.
    destruct (Z.eqb_spec o 0) as [-> | Hne]; [| discriminate].
    injection Hl as ->. cbn [a_extend fst snd a_lookup extent fold_right].
    change (0 =? 0) with true. cbv iota.
    split_all; try reflexivity; try lia.
    intros o' b Ho' H. cbn [a_lookup] in H.
    replace (o' =? 0) with false in H by (symmetry; now apply Z.eqb_neq).
    discriminate.
  - pose proof (extent_pos _ _ Hok') as Hp. apply Z.eqb_neq in Hp.
    pose proof (extent_nonneg _ Hok') as Hp0.
    rewrite a_extend_cons. cbn [fst snd].
    cbn [a_lookup] in Hl.
    destruct (Z.eqb_spec o 0) as [-> | Hne].
    + injection Hl as E. rewrite E in Hlast. cbn [fst] in Hlast. lia.
    + destruct (IH _ _ Hok' Hl ltac:(lia)) as (A & B & C & D).
      rewrite A. split; [lia |].
      cbn [a_lookup extent fold_right fst].
      replace (o =? 0) with false by (symmetry; now apply Z.eqb_neq).
      split; [exact B | split].
      * fold (extent META (snd (a_extend META bs (c' :: l')))).
        rewrite C. lia.
      * intros o' b Ho' H.
        destruct (o' =? 0); [exact H |]. apply D; [lia | exact H].
Qed.

Lemma set_status_same (p : Z) (v : status_t) (st : state) :
  status (mem st p) = v ->
  forall x, mem (set_status p v st) x = mem st x.
Proof.
  clear Hsizeof Hlimit.
  intros H x. cbn. unfold upd. destruct (Z.eqb_spec x p) as [-> | Hne];
    [| reflexivity].
  rewrite <- H. now destruct (mem st p).
Qed.

Lemma set_status_twice (p : Z) (v w : status_t) (st : state) :
  forall x, mem (set_status p v (set_status p w st)) x
            = mem (set_status p v st) x.
Proof.
  clear Hsizeof Hlimit.
  intros x. cbn. unfold upd. destruct (Z.eqb_spec x p) as [-> | Hne];
    [| reflexivity].
  rewrite Z.eqb_refl. reflexivity.
Qed.

Lemma os_realloc_last_heap (st : state) (bl : list ablock)
  (ptr n s addr : Z) (fuel : nat) :
  hrepr st bl ->
  threshold st = MMAP_THRESHOLD ->
  0 < n <= MMAP_THRESHOLD - META - 8 ->
  a_lookup META (ptr - META - heap_start st) bl = Some (s, STATUS_ALLOC) ->
  (ptr - META - heap_start st) + META + s = hext bl ->
  s < ALIGN n ->
  a_best META (ALIGN n + META) 0 None
    (a_merge META (a_free META (ptr - META - heap_start st) bl)) = None ->
  a_lookup META (ptr - META - heap_start st)
    (a_merge META (a_free META (ptr - META - heap_start st) bl))
  = Some (s, STATUS_FREE) ->
  brk st + (ALIGN n + META) <= brk_limit ->
  (length bl < fuel)%nat ->
  exists st',
    os_realloc sizeof_block_meta brk_limit fuel addr ptr n st
    = Done (ptr, st') /\
    hrepr st'
      (snd (a_extend META (ALIGN n + META)
              (a_merge META (a_free META (ptr - META - heap_start st) bl)))) /\
    heap_start st' = heap_start st /\
    mmap_start st' = mmap_start st /\
    threshold st' = threshold st /\
    maps st' = maps st.
Proof.
  pose proof META_bounds as HM.
  intros Hrepr Hth Hn Hl Hlast Hsmall Hbest Hown Hroom Hf.
  change MMAP_THRESHOLD with 131072 in *.
  destruct bl as [| b0 bl0]; [discriminate |].
  apply heap_repr_cons in Hrepr as (Hbrk & Hok & Hhs & Hseg).
  set (bl := b0 :: bl0) in *.
  set (off := ptr - META - heap_start st) in *.
  set (hs := heap_start st) in *.
  destruct (a_lookup_nonneg _ _ _ Hok Hl) as [Hoff _].
  pose proof (a_lookup_find _ _ _ Hl) as Hfind.
  assert (Hblock : get_block_ptr sizeof_block_meta ptr = hs + off)
    by (unfold get_block_ptr, off, hs; lia).
  pose proof (ALIGN_range n) as (Ha0 & Ha8).
  pose proof (ALIGN_round_up n) as Hup.
  rewrite wB_eq in Hup. specialize (Hup ltac:(lia) ltac:(lia)).
  assert (Htot : TOT (ALIGN n) = ALIGN n + META).
  { apply TOT_aligned; try lia. rewrite wB_eq. lia. }
  set (bs := ALIGN n + META) in *.
  assert (Hbs8 : bs mod 8 = 0) by (unfold bs; clear - Ha8 HM; zmod).
  destruct (seg_lookup _ _ _ _ _ _ Hseg Hl) as [Hsz Hst].
  cbn [fst snd] in Hsz, Hst.
  pose proof (seg_lookup_last _ _ _ _ _ _ Hok Hseg Hl Hlast) as Hnx.
  pose proof (seg_extent _ _ _ _ Hseg) as Hext.
  assert (Hs0 : 0 <= s /\ s mod 8 = 0).
  { clear - Hl Hok. revert Hl. generalize off.
    induction bl as [| c r IH]; intros o H; [discriminate |].
    apply block_ok_cons in Hok as [(Hc0 & Hc8 & _) Hok'].
    cbn [a_lookup] in H. destruct (o =? 0).
    - injection H as ->. now split.
    - eapply IH; eassumption. }
  destruct Hs0 as [Hs0 Hs8].
  assert (Htots : TOT s = s + META).
  { apply TOT_aligned; try assumption. rewrite wB_eq. lia. }
  unfold os_realloc.
  replace (ptr =? 0) with false by (symmetry; apply Z.eqb_neq; lia).
  replace (n =? 0) with false by (symmetry; apply Z.eqb_neq; lia).
  rewrite Hblock, Hst. cbn [status_eqb].
  unfold os_realloc_sbrk, find_block_in_heap. rewrite Hblock, Htot.
  pose proof (find_block_in_heap_from_seg bl hs (brk st) st fuel
                (hs + off) Hhs Hok Hseg Hf) as Efind.
  change (cur_of hs bl) with hs in Efind.
  fold hs. rewrite Efind.
  replace (hs + off - hs) with off by lia.
  rewrite Hfind. cbn [bind].
  replace (hs + off =? 0) with false by (symmetry; apply Z.eqb_neq; lia).
  rewrite Hth.
  replace (131072 <=? bs) with false
    by (symmetry; apply Z.leb_gt; unfold bs; lia).
  (* the block cannot grow: it is the last one *)
  destruct fuel as [| f]; [simpl in Hf; lia |].
  set (block := hs + off) in *.
  set (stF := set_status block STATUS_FREE st).
  assert (Hcan : can_coalesce_one_block block stF = false).
  { unfold can_coalesce_one_block, stF. mem_simpl. cbn [status_eqb].
    rewrite Hnx. reflexivity. }
  cbn [grow_in_place]. rewrite Hcan, andb_false_r. cbn [bind].
  set (st3 := set_status block STATUS_ALLOC stF).
  assert (Hsz3 : size (mem st3 block) = s)
    by (unfold st3, stF; mem_simpl; exact Hsz).
  assert (Hnx3 : next (mem st3 block) = 0)
    by (unfold st3, stF; mem_simpl; exact Hnx).
  rewrite Hsz3, Htots, Hnx3.
  replace (bs <=? s + META) with false
    by (symmetry; apply Z.leb_gt; unfold bs; lia).
  change (0 =? 0) with true. cbv iota.
  set (st4 := set_status block STATUS_FREE st3).
  change (heap_start st4) with hs.
  (* the list with the block marked FREE *)
  destruct (free_seg bl hs (brk st) st off (S f))
    as (mF & EF & HsegF & _ & HokF); try assumption; try lia.
  fold block stF in EF. cbn [coalesce_blocks] in EF. rewrite Hcan in EF.
  injection EF as EF.
  assert (HmF : mF = mem stF) by (symmetry; exact EF).
  set (blf := a_free META off bl) in *.
  assert (Hseg4 : hseg (mem st4) hs blf (brk st)).
  { apply seg_frame with (m := mF); try assumption.
    intros x _. rewrite HmF. unfold st4, st3.
    rewrite set_status_twice. unfold stF. apply set_status_twice. }
  assert (Hlenf : (length blf <= length bl)%nat)
    by (unfold blf; apply a_free_length).
  unfold find_best_fit.
  destruct (find_best_fit_from_seg bs hs (S f) blf hs (brk st) st4 0 hs None 0)
    as (m1 & last1 & E1 & Hseg1 & Hfr1 & Hlast1);
    try assumption; try reflexivity; try lia.
  assert (Hnilf : blf <> []).
  { unfold blf. intros E.
    pose proof (a_free_match off bl true false) as Hm.
    rewrite E in Hm. unfold bl in Hm. discriminate Hm. }
  assert (Ecur : cur_of hs blf = hs) by (destruct blf; [congruence | reflexivity]).
  rewrite Ecur in E1. rewrite E1. cbn [bind].
  set (mbl := a_merge META blf) in *.
  rewrite Hbest. cbn [best_addr]. change (0 =? 0) with true. cbv iota.
  pose proof (a_merge_ok _ HokF) as (Hok1 & _ & _). fold mbl in Hok1.
  assert (Hnil1 : mbl <> []).
  { intros E. apply (proj1 (a_merge_nil _)) in E. congruence. }
  assert (Hlast1' : last1 = hs + last_off META mbl).
  { rewrite Hlast1. destruct blf; [congruence | reflexivity]. }
  set (st6 := set_status block STATUS_FREE (set_mem m1 st4)).
  destruct (seg_lookup _ _ _ _ _ _ Hseg1 Hown) as [_ Hst1].
  cbn [snd] in Hst1. fold block in Hst1.
  assert (Hseg6 : hseg (mem st6) hs mbl (brk st6)).
  { change (brk st6) with (brk st).
    apply seg_frame with (m := m1); try assumption.
    intros x _. unfold st6. apply set_status_same. exact Hst1. }
  destruct (extend_seg bs mbl hs st6)
    as (st0 & m2 & e2 & E2 & E3 & Hseg2 & He2 & Hfr2 & Hok2);
    try assumption; try (unfold bs; lia).
  { now apply a_best_none. }
  rewrite Hlast1', E2. cbn [bind].
  pose proof (a_extend_nil bs mbl) as Hnn.
  pose proof (a_extend_nonneg bs mbl Hok1) as Hpos.
  replace (hs + fst (a_extend META bs mbl) =? 0)
    with false by (symmetry; apply Z.eqb_neq; lia).
  rewrite E3. eexists. split; [reflexivity |].
  split; [| split_all; try reflexivity; exact Hth].
  unfold heap_repr. cbn [heap_start brk mem set_mem set_brk].
  change (brk st6) with (brk st) in He2.
  split; [unfold bs in He2; lia | split; [assumption |]].
  destruct (snd (a_extend META bs mbl)); [congruence |].
  split; assumption.
Qed.

Lemma a_free_ok (bl : list ablock) :
  forall off,
    Forall block_ok bl ->
    Forall block_ok (a_free META off bl) /\
    hext (a_free META off bl) = hext bl.
Proof.
  induction bl as [| [s t] bl IH]; intros off Hok; [now split |].
  pose proof Hok as Hok0.
  apply block_ok_cons in Hok as [(H0 & H8 & Ht) Hok']. cbn [fst snd] in *.
  cbn [a_free]. destruct (off =? 0).
  - assert (Hok1 : Forall block_ok ((s, STATUS_FREE) :: bl)).
    { apply block_ok_cons. split; [| assumption].
      cbn [fst snd]. repeat split; try assumption. congruence. }
    destruct (a_coalesce_head_ok _ Hok1) as (A & _ & B & _).
    split; [exact A |]. rewrite B. reflexivity.
  - destruct (IH (off - (META + s)) Hok') as [A B]. split.
    + apply block_ok_cons. split; [| exact A]. cbn [fst snd].
      repeat split; assumption.
    + cbn [extent fold_right]. fold (extent META (a_free META (off - (META + s)) bl)).
      fold (extent META bl). now rewrite B.
Qed.

(** X17: [realloc] of the last heap block to a larger size below the
    threshold ([0 < n <= MMAP_THRESHOLD - META_SIZE - 8]).  When no FREE block of the list can hold the request and the
    block is not absorbed by a FREE block right before it, the break moves
    up by exactly the missing bytes, the same pointer comes back, the block
    is ALLOC with the aligned requested size, and every other block in use
    is where it was. *)
Theorem realloc_extends_last_block (st : state) (bl : list ablock)
  (ptr n s addr : Z) (fuel : nat) :
  hrepr st bl ->
  threshold st = MMAP_THRESHOLD ->
  0 < n <= MMAP_THRESHOLD - META - 8 ->
  a_lookup META (ptr - META - heap_start st) bl = Some (s, STATUS_ALLOC) ->
  (ptr - META - heap_start st) + META + s = hext bl ->
  s < ALIGN n ->
  a_best META (ALIGN n + META) 0 None
    (a_merge META (a_free META (ptr - META - heap_start st) bl)) = None ->
  a_lookup META (ptr - META - heap_start st)
    (a_merge META (a_free META (ptr - META - heap_start st) bl))
  = Some (s, STATUS_FREE) ->
  brk st + (ALIGN n + META) <= brk_limit ->
  (length bl < fuel)%nat ->
  exists st' bl',
    os_realloc sizeof_block_meta brk_limit fuel addr ptr n st
    = Done (ptr, st') /\
    hrepr st' bl' /\
    a_lookup META (ptr - META - heap_start st') bl'
    = Some (ALIGN n, STATUS_ALLOC) /\
    brk st' = brk st + (ALIGN n - s) /\
    (forall o s0,
        o <> ptr - META - heap_start st ->
        a_lookup META o bl = Some (s0, STATUS_ALLOC) ->
        a_lookup META o bl' = Some (s0, STATUS_ALLOC)) /\
    heap_start st' = heap_start st /\
    mmap_start st' = mmap_start st /\
    maps st' = maps st /\
    threshold st' = threshold st.
Proof.
  pose proof META_bounds as HM.
  intros Hrepr Hth Hn Hl Hlast Hsmall Hbest Hown Hroom Hf.
  destruct (os_realloc_last_heap st bl ptr n s addr fuel)
    as (st' & E & Hrepr' & Hhs & Hms & Hth' & Hmaps); try assumption.
  assert (Hok : Forall block_ok bl) by apply Hrepr.
  set (off := ptr - META - heap_start st) in *.
  destruct (a_free_ok bl off Hok) as [HokF HextF].
  destruct (a_merge_ok _ HokF) as (HokM & HextM & _).
  destruct (a_extend_last (ALIGN n + META) _ off s HokM Hown)
    as (_ & Hnew & Hext & Hkeep).
  { rewrite HextM, HextF. exact Hlast. }
  eexists st', _. rewrite Hhs. fold off.
  split; [exact E |]. split; [exact Hrepr' |].
  split; [rewrite Hnew; f_equal; f_equal; lia |].
  split.
  - assert (Hb : brk st = heap_start st + hext bl).
    { destruct Hrepr as (_ & _ & Hs). destruct bl as [| b0 bl0];
        [discriminate |]. destruct Hs as [_ Hs].
      now apply seg_extent in Hs. }
    assert (Hb' : brk st'
                  = heap_start st'
                    + hext (snd (a_extend META (ALIGN n + META)
                                   (a_merge META (a_free META off bl))))).
    { destruct Hrepr' as (_ & _ & Hs).
      destruct (snd (a_extend META (ALIGN n + META)
                       (a_merge META (a_free META off bl)))) as [| c r] eqn:Ee.
      - exfalso. now apply (a_extend_nil (ALIGN n + META)
                              (a_merge META (a_free META off bl))).
      - destruct Hs as [_ Hs]. now apply seg_extent in Hs. }
    rewrite Hb', Hext, Hb, Hhs. lia.
  - split_all; try assumption; try reflexivity.
    intros o s0 Ho Hlo. apply Hkeep; [exact Ho |].
    apply a_merge_lookup. apply a_free_lookup; assumption.
Qed.

(** * When the break moves *)

Lemma a_extend_extent (bs : Z) (l : list ablock) :
  Forall block_ok l ->
  Forall (fun b => fits META bs b = false) l ->
  META <= bs ->
  hext l < hext (snd (a_extend META bs l)).
Proof.
  pose proof META_bounds as HM.
  induction l as [| [s t] l IH]; intros Hok Hfit Hbs.
  - cbn. lia.
  - apply block_ok_cons in Hok as [(H0 & _) Hok']. cbn [fst] in H0.
    apply Forall_cons_iff in Hfit as [Hf Hfit'].
    destruct l as [| c l'].
    + unfold fits in Hf. cbn [fst snd] in Hf.
      destruct t; cbn [a_extend fst snd extent fold_right status_eqb andb] in *;
        try lia;
        apply Z.leb_gt in Hf; lia.
    + rewrite a_extend_cons. cbn [snd].
      specialize (IH Hok' Hfit' Hbs).
      change (META + s + hext (c :: l')
              < META + s + hext (snd (a_extend META bs (c :: l')))).
      lia.
Qed.

(** X18: a heap [malloc] ([0 < n <= MMAP_THRESHOLD - META_SIZE - 8], default
    threshold) on a heap that is set up moves the break only when it has
    to.  When some FREE block of the list, after adjacent FREE
    blocks have been merged, can hold the request, the break stays where it
    is; when none can, the break moves up, by at most the total size of the
    request. *)
Theorem malloc_reuses_before_extending (st : state) (bl : list ablock)
  (n addr : Z) (fuel : nat) :
  hrepr st bl -> bl <> [] ->
  threshold st = MMAP_THRESHOLD ->
  0 < n <= MMAP_THRESHOLD - META - 8 ->
  (a_best META (ALIGN n + META) 0 None (a_merge META bl) = None ->
   brk st + (ALIGN n + META) <= brk_limit) ->
  (length bl < fuel)%nat ->
  exists p st',
    os_malloc sizeof_block_meta brk_limit fuel addr n st = Done (p, st') /\
    hrepr st' (snd (a_malloc_sbrk META (ALIGN n) bl)) /\
    (a_best META (ALIGN n + META) 0 None (a_merge META bl) <> None ->
     brk st' = brk st) /\
    (a_best META (ALIGN n + META) 0 None (a_merge META bl) = None ->
     brk st < brk st' <= brk st + (ALIGN n + META)).
Proof.
  pose proof META_bounds as HM.
  intros Hrepr Hnil Hth Hn Hroom Hf.
  change MMAP_THRESHOLD with 131072 in *.
  pose proof (ALIGN_range n) as (Ha0 & Ha8).
  pose proof (ALIGN_round_up n) as Hup.
  rewrite wB_eq in Hup. specialize (Hup ltac:(lia) ltac:(lia)).
  assert (Htot : TOT (ALIGN n) = ALIGN n + META).
  { apply TOT_aligned; try lia. rewrite wB_eq. lia. }
  assert (Hos : os_malloc sizeof_block_meta brk_limit fuel addr n st
                = os_malloc_sbrk sizeof_block_meta brk_limit fuel (ALIGN n) st).
  { unfold os_malloc.
    replace (n <=? 0) with false by (symmetry; apply Z.leb_gt; lia).
    rewrite Htot, Hth.
    replace (ALIGN n + META <? 131072) with true
      by (symmetry; apply Z.ltb_lt; lia).
    reflexivity. }
  destruct (os_malloc_sbrk_heap st bl (ALIGN n) fuel Hnil Hrepr)
    as (st' & E & Hr' & Hhs & _ & _ & _ & Hb & Hsame);
    try assumption; try lia.
  rewrite Hos, E. eexists _, st'.
  split; [reflexivity | split; [exact Hr' | split; [exact Hsame |]]].
  intros Hnone. split; [| lia].
  assert (Hok : Forall block_ok bl) by apply Hrepr.
  destruct (a_merge_ok _ Hok) as (HokM & HextM & _).
  pose proof (a_extend_extent (ALIGN n + META) _ HokM
                (a_best_none _ _ Hnone) ltac:(lia)) as Hgrow.
  assert (Hbl' : snd (a_malloc_sbrk META (ALIGN n) bl)
                 = snd (a_extend META (ALIGN n + META) (a_merge META bl))).
  { unfold a_malloc_sbrk. destruct bl as [| b0 bl0]; [congruence |].
    now rewrite Hnone. }
  rewrite Hbl' in Hr'.
  assert (Hbrk : brk st = heap_start st + hext bl).
  { destruct Hrepr as (_ & _ & Hs). destruct bl as [| b0 bl0];
      [congruence |]. destruct Hs as [_ Hs]. now apply seg_extent in Hs. }
  assert (Hbrk' : brk st'
                  = heap_start st'
                    + hext (snd (a_extend META (ALIGN n + META)
                                   (a_merge META bl)))).
  { destruct Hr' as (_ & _ & Hs).
    destruct (snd (a_extend META (ALIGN n + META) (a_merge META bl)))
      as [| c r] eqn:Ee.
    - exfalso. now apply (a_extend_nil (ALIGN n + META) (a_merge META bl)).
    - destruct Hs as [_ Hs]. now apply seg_extent in Hs. }
  rewrite Hbrk', Hbrk, Hhs. lia.
Qed.

(** * Reallocation that moves a block inside the heap *)

Lemma a_grow_cases (bs : Z) (l : list ablock) :
  forall s,
    Forall block_ok l ->
    (a_grow META bs s l = (s, l)) \/
    (s + META <= fst (a_grow META bs s l) /\
     (length (snd (a_grow META bs s l)) < length l)%nat).
Proof.
  pose proof META_bounds as HM.
  induction l as [| [s1 t1] l IH]; intros s Hok; [now left |].
  apply block_ok_cons in Hok as [(H0 & _) Hok']. cbn [fst] in H0.
  destruct t1; cbn [a_grow]; try (now left).
  destruct (s + META <? bs); [| now left].
  right. destruct (IH (s + (s1 + META)) Hok') as [E | [A B]].
  - rewrite E. cbn [fst snd length]. lia.
  - split; [lia | simpl length; lia].
Qed.

Lemma a_regroup_cons (off bs : Z) (bl r : list ablock) :
  a_regroup META off bs bl = Some r -> bl <> [] /\ r <> [].
Proof.
  destruct bl as [| [s t] bl]; [discriminate |]. cbn [a_regroup].
  intros H. split; [discriminate |].
  destruct (off =? 0).
  - destruct (a_grow META bs s bl) as [s' r']. destruct (bs <=? s' + META);
      [discriminate |].
    destruct r'; [discriminate |].
    injection H as <-. destruct (s' =? s); discriminate.
  - destruct (a_regroup META (off - (META + s)) bs bl); [| discriminate].
    injection H as <-. discriminate.
Qed.

Lemma a_regroup_length (bs : Z) (bl : list ablock) :
  forall off r,
    Forall block_ok bl ->
    a_regroup META off bs bl = Some r -> (length r <= length bl)%nat.
Proof.
  induction bl as [| [s t] bl IH]; intros off r Hok H; [discriminate |].
  apply block_ok_cons in Hok as [_ Hok'].
  cbn [a_regroup] in H. destruct (off =? 0).
  - pose proof (a_grow_cases bs bl s Hok') as Hc.
    destruct (a_grow META bs s bl) as [s' r']. cbn [fst snd] in Hc.
    destruct (bs <=? s' + META); [discriminate |].
    destruct r' as [| c r']; [discriminate |].
    injection H as <-.
    destruct (Z.eqb_spec s' s) as [-> | Hne].
    + destruct Hc as [E | [_ B]]; [injection E as <- | ]; simpl in *; lia.
    + destruct Hc as [E | [_ B]]; [congruence |]. simpl in *. lia.
  - destruct (a_regroup META (off - (META + s)) bs bl) as [r0 |] eqn:Er;
      [| discriminate].
    injection H as <-. specialize (IH _ _ Hok' Er). simpl. lia.
Qed.

Lemma a_regroup_self (bs : Z) (bl : list ablock) :
  forall off r s t,
    a_lookup META off bl = Some (s, t) ->
    a_regroup META off bs bl = Some r ->
    a_lookup META off r = Some (s, STATUS_ALLOC).
Proof.
  induction bl as [| [s0 t0] bl IH]; intros off r s t Hl H; [discriminate |].
  cbn [a_lookup a_regroup fst] in *.
  destruct (Z.eqb_spec off 0) as [-> | Hne].
  - injection Hl as -> ->.
    destruct (a_grow META bs s bl) as [s' r'].
    destruct (bs <=? s' + META); [discriminate |].
    destruct r' as [| c r']; [discriminate |].
    injection H as <-. destruct (s' =? s); reflexivity.
  - destruct (a_regroup META (off - (META + s0)) bs bl) as [r0 |] eqn:Er;
      [| discriminate].
    injection H as <-. cbn [a_lookup fst].
    replace (off =? 0) with false by (symmetry; now apply Z.eqb_neq).
    eapply IH; eassumption.
Qed.

Lemma a_regroup_lookup (bs : Z) (bl : list ablock) :
  forall off r o s,
    Forall block_ok bl ->
    a_regroup META off bs bl = Some r ->
    o <> off ->
    a_lookup META o bl = Some (s, STATUS_ALLOC) ->
    a_lookup META o r = Some (s, STATUS_ALLOC).
Proof.
  pose proof META_bounds as HM.
  induction bl as [| [s0 t0] bl IH]; intros off r o s Hok H Hne Hl;
    [discriminate |].
  apply block_ok_cons in Hok as [(H0 & _) Hok']. cbn [fst] in H0.
  cbn [a_lookup a_regroup fst] in *.
  destruct (Z.eqb_spec off 0) as [-> | Hoff].
  - replace (o =? 0) with false in Hl by (symmetry; now apply Z.eqb_neq).
    pose proof (a_grow_lookup bs bl s0 _ _ Hl) as Hg.
    pose proof (a_grow_ok bs bl s0 Hok') as Hokr.
    pose proof (a_grow_cases bs bl s0 Hok') as Hc.
    destruct (a_grow META bs s0 bl) as [s' r']. cbn [fst snd] in *.
    destruct (a_lookup_nonneg _ _ _ Hokr Hg) as [Hpos _].
    destruct (bs <=? s' + META); [discriminate |].
    destruct r' as [| c r']; [discriminate |].
    injection H as <-.
    destruct (Z.eqb_spec s' s0) as [-> | Hs]; cbn [a_lookup fst].
    + replace (o =? 0) with false by (symmetry; now apply Z.eqb_neq).
      replace (o - (META + s0)) with (o - (META + s0) - (s0 - s0)) by lia.
      exact Hg.
    + destruct Hc as [E | [A _]]; [congruence |].
      replace (o =? 0) with false by (symmetry; now apply Z.eqb_neq).
      replace (o - (META + s0) =? 0) with false
        by (symmetry; apply Z.eqb_neq; lia).
      replace (o - (META + s0) - (META + (s' - (s0 + META))))
        with (o - (META + s0) - (s' - s0)) by lia.
      exact Hg.
  - destruct (a_regroup META (off - (META + s0)) bs bl) as [r0 |] eqn:Er;
      [| discriminate].
    injection H as <-. cbn [a_lookup fst].
    destruct (Z.eqb_spec o 0) as [-> | Ho]; [exact Hl |].
    apply (IH (off - (META + s0)) r0); try assumption. lia.
Qed.

Lemma seg_cons_intro (m : memory) (a e : Z) (b : ablock)
  (bl : list ablock) :
  size (m a) = fst b -> status (m a) = snd b ->
  next (m a) = match bl with [] => 0 | _ => a + (META + fst b) end ->
  hseg m (a + (META + fst b)) bl e ->
  hseg m a (b :: bl) e.
Proof. intros. cbn [seg]. auto. Qed.

Lemma realloc_regroup_seg (bs : Z) (bl : list ablock) :
  forall a e st off fuel bl4,
    0 < a -> e <= 2 ^ 63 ->
    Forall block_ok bl ->
    hseg (mem st) a bl e ->
    a_regroup META off bs bl = Some bl4 ->
    (length bl < fuel)%nat ->
    let block := a + off in
    exists st2,
      grow_in_place sizeof_block_meta fuel block bs
        (set_status block STATUS_FREE st) = Done st2 /\
      let st3 := set_status block STATUS_ALLOC st2 in
      (bs <=? TOT (size (mem st3 block))) = false /\
      (next (mem st3 block) =? 0) = false /\
      let st4 :=
        if size (mem st3 block) =? size (mem st block) then st3
        else split_block sizeof_block_meta block
               (TOT (size (mem st block))) st3 in
      st4 = set_mem (mem st4) st /\
      hseg (mem st4) a bl4 e /\
      (forall x, x < a -> mem st4 x = mem st x) /\
      Forall block_ok bl4.
Proof.
  pose proof META_bounds as HM.
  induction bl as [| [s t] bl IH];
    intros a e st off fuel bl4 Ha He Hok Hseg Hre Hf;
    [discriminate |].
  cbn [a_regroup] in Hre. cbn zeta.
  pose proof Hok as Hok0.
  apply block_ok_cons in Hok as [(Hb0 & Hb8 & Hbt) Hok'].
  pose proof Hseg as Hseg0.
  destruct Hseg as (Hs & Ht & Hn & Htl). cbn [fst snd] in *.
  pose proof (seg_bound _ _ _ _ Hok' Htl) as Hbd.
  destruct (Z.eqb_spec off 0) as [-> | Hne].
  - rewrite Z.add_0_r.
    assert (Hok1 : Forall block_ok ((s, STATUS_FREE) :: bl)).
    { apply block_ok_cons. split; [| assumption].
      cbn [fst snd]. repeat split; try assumption. congruence. }
    destruct (grow_in_place_seg bs bl s a e (set_status a STATUS_FREE st)
                fuel) as (m' & E & Hseg' & Hfr & Hok2); try assumption.
    { cbn [seg fst snd]. cbn. rewrite upd_eq. cbn.
      repeat split; try assumption.
      apply seg_frame with (m := mem st); try assumption.
      intros x Hx. apply upd_neq. lia. }
    { simpl in Hf. lia. }
    pose proof (a_grow_cases bs bl s Hok') as Hc.
    destruct (a_grow META bs s bl) as [s' r]. cbn [fst snd] in *.
    destruct (Z.leb_spec bs (s' + META)) as [Hfit | Hno]; [discriminate |].
    destruct r as [| c r]; [discriminate |].
    injection Hre as <-.
    rewrite E. eexists. split; [reflexivity |].
    set (st2 := set_mem m' (set_status a STATUS_FREE st)).
    set (st3 := set_status a STATUS_ALLOC st2).
    destruct Hseg' as (Hs' & Ht' & Hn' & Htl'). cbn [fst snd] in *.
    apply block_ok_cons in Hok2 as [(Hs0 & Hs8 & _) Hokr].
    cbn [fst] in Hs0, Hs8.
    pose proof (seg_bound _ _ _ _ Hokr Htl') as Hbd'.
    assert (Hsz : size (mem st3 a) = s')
      by (unfold st3, st2; cbn; rewrite upd_eq; cbn; exact Hs').
    assert (Hnx : next (mem st3 a) = a + (META + s'))
      by (unfold st3, st2; cbn; rewrite upd_eq; cbn; exact Hn').
    assert (Hst3 : status (mem st3 a) = STATUS_ALLOC)
      by (unfold st3, st2; cbn; rewrite upd_eq; reflexivity).
    assert (Hfr3 : forall x, x <> a -> mem st3 x = mem st x).
    { intros x Hx. unfold st3, st2. cbn. rewrite upd_neq by assumption.
      rewrite Hfr by assumption. cbn. now apply upd_neq. }
    assert (Htots' : TOT s' = s' + META).
    { apply TOT_aligned; try assumption. rewrite wB_eq. lia. }
    assert (Htots : TOT s = s + META).
    { apply TOT_aligned; try assumption. rewrite wB_eq. lia. }
    rewrite Hsz, Htots', Hnx, Hs, Htots.
    split; [apply Z.leb_gt; lia |].
    split; [apply Z.eqb_neq; lia |].
    destruct (Z.eqb_spec s' s) as [-> | Hss].
    + split; [reflexivity |].
      split; [| split].
      * apply seg_cons_intro; cbn [fst snd]; try assumption.
        apply seg_frame with (m := m'); try assumption.
        intros x Hx. unfold st3, st2. cbn. apply upd_neq. lia.
      * intros x Hx. apply Hfr3. lia.
      * apply block_ok_cons. split; [| assumption].
        cbn [fst snd]. repeat split; try assumption. congruence.
    + destruct Hc as [Ec | [Hge _]]; [congruence |].
      destruct (split_block_mem a (s + META) st3) as (E4 & Hm & Hm' & Hfr4);
        [lia |].
      set (st4 := split_block sizeof_block_meta a (s + META) st3) in *.
      rewrite Hst3 in Hm. rewrite Hsz, Hnx in Hm'.
      assert (Hw1 : wrap (s + META - META) = s)
        by (unfold wrap; replace (s + META - META) with s by lia;
            apply Z.mod_small; rewrite wB_eq; lia).
      assert (Hw2 : wrap (s' - (s + META)) = s' - (s + META))
        by (unfold wrap; apply Z.mod_small; rewrite wB_eq; lia).
      rewrite Hw1 in Hm. rewrite Hw2 in Hm'.
      split; [etransitivity; [exact E4 | reflexivity] |].
      split; [| split].
      * apply seg_cons_intro; cbn [fst snd];
          try (rewrite Hm; cbn [size status next]; (reflexivity || lia)).
        replace (a + (META + s)) with (a + (s + META)) by lia.
        apply seg_cons_intro; cbn [fst snd];
          try (rewrite Hm'; cbn [size status next]; (reflexivity || lia)).
        replace (a + (s + META) + (META + (s' - (s + META))))
          with (a + (META + s')) by lia.
        apply seg_frame with (m := m'); try assumption.
        intros x Hx. rewrite Hfr4 by lia.
        unfold st3, st2. cbn. apply upd_neq. lia.
      * intros x Hx. rewrite Hfr4 by lia. apply Hfr3. lia.
      * apply block_ok_cons. split.
        { cbn [fst snd]. repeat split; try assumption. congruence. }
        apply block_ok_cons. split; [| assumption].
        cbn [fst snd]. repeat split; try lia; try congruence.
        clear - Hs8 Hb8 HM. zmod.
  - destruct (a_regroup META (off - (META + s)) bs bl) as [r |] eqn:Er;
      [| discriminate].
    injection Hre as <-.
    replace (a + off) with (a + (META + s) + (off - (META + s))) by lia.
    specialize (IH (a + (META + s)) e st (off - (META + s)) fuel r).
    cbn zeta in IH.
    destruct IH as (st2 & E & Hle & Hnx & E4 & Hseg4 & Hfr4 & Hok4);
      try assumption; try lia.
    { simpl in Hf. lia. }
    exists st2. split; [exact E |]. split; [exact Hle |].
    split; [exact Hnx |].
    split; [exact E4 | split; [| split]].
    + cbn [seg fst snd]. rewrite Hfr4 by lia.
      repeat split; try assumption.
      rewrite Hn. destruct (a_regroup_cons _ _ _ _ Er) as [H1 H2].
      destruct bl; [congruence |]. destruct r; [congruence | reflexivity].
    + intros x Hx. apply Hfr4. lia.
    + apply block_ok_cons. split; [| assumption].
      cbn [fst snd]. repeat split; assumption.
Qed.

Lemma os_realloc_inner_heap (st : state) (bl bl4 : list ablock)
  (ptr n s addr : Z) (fuel : nat) :
  hrepr st bl ->
  threshold st = MMAP_THRESHOLD ->
  0 < n <= MMAP_THRESHOLD - META - 8 ->
  a_lookup META (ptr - META - heap_start st) bl = Some (s, STATUS_ALLOC) ->
  a_regroup META (ptr - META - heap_start st) (ALIGN n + META) bl
  = Some bl4 ->
  (a_best META (ALIGN n + META) 0 None (a_merge META bl4) = None ->
   brk st + (ALIGN n + META) <= brk_limit) ->
  (length bl + 3 <= fuel)%nat ->
  exists st',
    os_realloc sizeof_block_meta brk_limit fuel addr ptr n st
    = Done (heap_start st + fst (a_malloc_sbrk META (ALIGN n) bl4) + META,
            st') /\
    hrepr st'
      (a_free META (ptr - META - heap_start st)
         (snd (a_malloc_sbrk META (ALIGN n) bl4))) /\
    heap_start st' = heap_start st /\
    mmap_start st' = mmap_start st /\
    threshold st' = threshold st /\
    maps st' = maps st /\
    brk st <= brk st' <= brk st + (ALIGN n + META) /\
    Forall block_ok bl4 /\
    Forall block_ok (snd (a_malloc_sbrk META (ALIGN n) bl4)).
Proof.
  pose proof META_bounds as HM.
  intros Hrepr Hth Hn Hl Hre Hroom Hf.
  change MMAP_THRESHOLD with 131072 in *.
  destruct bl as [| b0 bl0]; [discriminate |].
  apply heap_repr_cons in Hrepr as (Hbrk & Hok & Hhs & Hseg).
  set (bl := b0 :: bl0) in *.
  set (off := ptr - META - heap_start st) in *.
  destruct (a_lookup_nonneg _ _ _ Hok Hl) as [Hoff _].
  pose proof (a_lookup_find _ _ _ Hl) as Hfind.
  assert (Hblock : get_block_ptr sizeof_block_meta ptr = heap_start st + off)
    by (unfold get_block_ptr, off; lia).
  pose proof (ALIGN_range n) as (Ha0 & Ha8).
  pose proof (ALIGN_round_up n) as Hup.
  rewrite wB_eq in Hup. specialize (Hup ltac:(lia) ltac:(lia)).
  assert (Htot : TOT (ALIGN n) = ALIGN n + META).
  { apply TOT_aligned; try lia. rewrite wB_eq. lia. }
  destruct (seg_lookup _ _ _ _ _ _ Hseg Hl) as [_ Hst]. cbn [snd] in Hst.
  unfold os_realloc.
  replace (ptr =? 0) with false by (symmetry; apply Z.eqb_neq; lia).
  replace (n =? 0) with false by (symmetry; apply Z.eqb_neq; lia).
  rewrite Hblock, Hst. cbn [status_eqb].
  unfold os_realloc_sbrk, find_block_in_heap. rewrite Hblock, Htot.
  pose proof (find_block_in_heap_from_seg bl (heap_start st) (brk st) st fuel
                (heap_start st + off) Hhs Hok Hseg ltac:(lia)) as Efind.
  change (cur_of (heap_start st) bl) with (heap_start st) in Efind.
  rewrite Efind.
  replace (heap_start st + off - heap_start st) with off by lia.
  rewrite Hfind. cbn [bind].
  replace (heap_start st + off =? 0) with false
    by (symmetry; apply Z.eqb_neq; lia).
  rewrite Hth.
  replace (131072 <=? ALIGN n + META) with false
    by (symmetry; apply Z.leb_gt; lia).
  destruct (realloc_regroup_seg (ALIGN n + META) bl (heap_start st) (brk st)
              st off fuel bl4)
    as (st2 & E & Hle & Hnx & E4 & Hseg4 & Hfr4 & Hok4);
    try assumption; try lia.
  rewrite E. cbn [bind]. rewrite Hle, Hnx.
  match goal with
  | H : ?s4 = set_mem (mem ?s4) st |- _ => set (st4 := s4) in *
  end.
  destruct (a_regroup_cons _ _ _ _ Hre) as [_ Hnil4].
  assert (Hrepr4 : hrepr st4 bl4).
  { rewrite E4. unfold heap_repr. cbn [heap_start brk mem set_mem].
    split; [lia | split; [assumption |]].
    destruct bl4; [congruence |]. split; assumption. }
  assert (Hhs4 : heap_start st4 = heap_start st) by (rewrite E4; reflexivity).
  assert (Hbrk4 : brk st4 = brk st) by (rewrite E4; reflexivity).
  pose proof (a_regroup_length _ _ _ _ Hok Hre) as Hlen4.
  destruct (os_malloc_sbrk_heap st4 bl4 (ALIGN n) fuel Hnil4 Hrepr4)
    as (st5 & E5 & Hr5 & Hhs5 & Hms5 & Hth5 & Hmaps5 & Hbrk5 & _);
    try assumption; try lia.
  { rewrite Hbrk4. exact Hroom. }
  rewrite E5. cbn [bind].
  pose proof (a_regroup_self _ _ _ _ _ _ Hl Hre) as Hl4.
  destruct (a_malloc_sbrk_block (ALIGN n) bl4 Hok4 ltac:(lia) Ha8)
    as (s5 & _ & _ & _ & Hlive).
  pose proof (Hlive _ _ Hl4) as Hl5.
  pose proof (a_malloc_sbrk_length (ALIGN n) bl4) as Hlen5.
  destruct (os_free_sbrk_heap st5 _ ptr fuel Hr5)
    as (st6 & E6 & Hr6 & Hhs6 & Hms6 & Hth6 & Hmaps6 & Hbrk6 & _).
  { rewrite Hhs5, Hhs4. fold off. eapply a_lookup_find. exact Hl5. }
  { lia. }
  rewrite E6. cbn [bind]. exists st6.
  rewrite Hhs5, Hhs4 in *. fold off in Hr6.
  assert (G3 : threshold st4 = 131072) by (rewrite E4; exact Hth).
  assert (G4 : mmap_start st4 = mmap_start st) by (rewrite E4; reflexivity).
  assert (G5 : maps st4 = maps st) by (rewrite E4; reflexivity).
  split; [reflexivity |].
  split; [exact Hr6 |].
  split_all; try congruence; try lia; try assumption.
  apply Hr5.
Qed.

(** X19: [realloc] of a heap block to a size below the threshold
    ([0 < n <= MMAP_THRESHOLD - META_SIZE - 8], default threshold) when the
    block, even with the FREE blocks right after it, cannot hold the
    request and is still followed by a block: the block is moved inside the
    heap (the break moving up if no FREE block fits).  The block gets
    its old size back (the FREE blocks it had absorbed become one FREE
    block), a block is taken for the request as heap [malloc] takes it, and
    the old block is released as [free] releases it.  The pointer returned
    differs from the old one and is the payload of an ALLOC block of at
    least the requested size; the old block is FREE; every other block in
    use keeps its place and size. *)
Theorem realloc_moves_inner_block (st : state) (bl bl4 : list ablock)
  (ptr n s addr : Z) (fuel : nat) :
  hrepr st bl ->
  threshold st = MMAP_THRESHOLD ->
  0 < n <= MMAP_THRESHOLD - META - 8 ->
  a_lookup META (ptr - META - heap_start st) bl = Some (s, STATUS_ALLOC) ->
  a_regroup META (ptr - META - heap_start st) (ALIGN n + META) bl
  = Some bl4 ->
  (a_best META (ALIGN n + META) 0 None (a_merge META bl4) = None ->
   brk st + (ALIGN n + META) <= brk_limit) ->
  (length bl + 3 <= fuel)%nat ->
  exists p st' bl' s' s'',
    os_realloc sizeof_block_meta brk_limit fuel addr ptr n st
    = Done (p, st') /\
    hrepr st' bl' /\
    p <> ptr /\
    a_lookup META (p - META - heap_start st') bl' = Some (s', STATUS_ALLOC) /\
    n <= s' /\
    a_lookup META (ptr - META - heap_start st') bl'
    = Some (s'', STATUS_FREE) /\
    (forall o s0,
        o <> ptr - META - heap_start st ->
        a_lookup META o bl = Some (s0, STATUS_ALLOC) ->
        a_lookup META o bl' = Some (s0, STATUS_ALLOC)) /\
    heap_start st' = heap_start st /\
    mmap_start st' = mmap_start st /\
    maps st' = maps st /\
    threshold st' = threshold st.
Proof.
  pose proof META_bounds as HM.
  intros Hrepr Hth Hn Hl Hre Hroom Hf.
  destruct (os_realloc_inner_heap st bl bl4 ptr n s addr fuel)
    as (st' & E & Hrepr' & Hhs & Hms & Hth' & Hmaps & _ & Hok4 & Hok5);
    try assumption.
  assert (Hok : Forall block_ok bl) by apply Hrepr.
  set (off := ptr - META - heap_start st) in *.
  change MMAP_THRESHOLD with 131072 in Hn.
  pose proof (ALIGN_range n) as (Ha0 & Ha8).
  pose proof (ALIGN_round_up n) as Hup.
  rewrite wB_eq in Hup. specialize (Hup ltac:(lia) ltac:(lia)).
  pose proof (a_regroup_self _ _ _ _ _ _ Hl Hre) as Hl4.
  destruct (a_malloc_sbrk_block (ALIGN n) bl4 Hok4 ltac:(lia) Ha8)
    as (s5 & Hnew & Hs5 & Hfresh & Hlive).
  set (onew := fst (a_malloc_sbrk META (ALIGN n) bl4)) in *.
  set (bl5 := snd (a_malloc_sbrk META (ALIGN n) bl4)) in *.
  assert (Hne : onew <> off).
  { intros Eo. apply (Hfresh s). rewrite Eo. exact Hl4. }
  destruct (a_free_block bl5 off (s, STATUS_ALLOC) Hok5 (Hlive _ _ Hl4))
    as (s'' & Hold & _).
  exists (heap_start st + onew + META), st', (a_free META off bl5), s5, s''.
  rewrite Hhs.
  replace (heap_start st + onew + META - META - heap_start st) with onew
    by lia.
  fold off.
  split; [exact E |]. split; [exact Hrepr' |].
  split; [unfold off in Hne; lia |].
  split; [now apply a_free_lookup |].
  split; [lia |].
  split; [exact Hold |].
  split_all; try assumption; try reflexivity.
  intros o s0 Ho Hlo. apply a_free_lookup; [exact Ho |].
  apply Hlive. eapply a_regroup_lookup; eassumption.
Qed.

End Facts.

(** * Instances *)

Lemma fresh_repr (limit : Z) : 4096 <= limit -> heap_repr 24 limit fresh [].
Proof.
  intros H. split; [split; [reflexivity | exact H] |].
  split; [constructor | reflexivity].
Defined.

Lemma sample_heap_repr :
  heap_repr (META_SIZE 24) (2 ^ 40) sample_heap
    [(104, STATUS_ALLOC); (130920, STATUS_FREE)].
Proof.
  unfold heap_repr. split; [vm_compute; split; [reflexivity | discriminate] |].
  split.
  - repeat constructor; simpl; try lia; discriminate.
  - split; [reflexivity |]. vm_compute. repeat split.
Defined.

(** The request of [MMAP_THRESHOLD - META_SIZE] bytes on a fresh allocator
    is mapped. *)
Lemma malloc_threshold_boundary_witness :
  exists st',
    os_malloc 24 (2 ^ 40) 8 (2 ^ 32) (MMAP_THRESHOLD - META_SIZE 24) fresh
    = Done (2 ^ 32 + META_SIZE 24, st') /\
    status (mem st' (2 ^ 32)) = STATUS_MAPPED.
Proof.
  destruct (malloc_threshold_boundary 24 (2 ^ 40) ltac:(lia) fresh 8 (2 ^ 32))
    as (Hmap & _); [reflexivity | discriminate |].
  destruct (Hmap (MMAP_THRESHOLD - META_SIZE 24)) as (_ & st' & E & Hs & _).
  - vm_compute. split; reflexivity.
  - vm_compute. discriminate.
  - exists st'. split; assumption.
Defined.

(** C3, counterexample: on a fresh allocator the request of exactly
    [MMAP_THRESHOLD - META_SIZE] bytes does not give a block of the heap
    list; for both header layouts. *)
Lemma boundary_request_not_on_heap :
  Forall
    (fun h =>
       ~ exists p st',
           os_malloc h (2 ^ 40) 8 (2 ^ 32) (MMAP_THRESHOLD - META_SIZE h)
             fresh
           = Done (p, st') /\
           find_block_in_heap 8 (get_block_ptr h p) st'
           = Done (get_block_ptr h p))
    header_sizes.
Proof.
  repeat constructor; intros (p & st' & E & F); vm_compute in E;
    injection E as <- <-; vm_compute in F; discriminate F.
Qed.

(** [realloc(NULL, 64)], [realloc(p, 0)] and [realloc] of a FREE block on
    the sample heap. *)
Lemma realloc_preliminary_cases_witness :
  os_realloc 24 (2 ^ 40) 8 (2 ^ 32) 4120 0 sample_heap
  = (st1 <- os_free 24 8 4120 sample_heap ;; Done (0, st1)) /\
  os_realloc 24 (2 ^ 40) 8 (2 ^ 32) 4248 16 sample_heap
  = Done (0, sample_heap).
Proof.
  destruct (realloc_preliminary_cases 24 (2 ^ 40) sample_heap 8 (2 ^ 32))
    as (_ & Hfree & Hnull).
  split.
  - apply Hfree. lia.
  - apply Hnull; [lia | lia | reflexivity].
Defined.

(** A pointer into the payload of the first block of the sample heap. *)
Lemma foreign_pointer_ignored_witness :
  os_free 24 8 4160 sample_heap = Done sample_heap /\
  os_realloc 24 (2 ^ 40) 8 (2 ^ 32) 4160 64 sample_heap
  = Done (0, sample_heap).
Proof.
  destruct (foreign_pointer_ignored 24 (2 ^ 40) sample_heap [4096; 4224] 8
              4160) as (Hfree & Hrealloc).
  - lia.
  - vm_compute. discriminate.
  - vm_compute. repeat split; discriminate.
  - vm_compute. intros [H | [H | []]]; discriminate.
  - simpl. lia.
  - split; [exact Hfree | apply Hrealloc; lia].
Defined.

Lemma calloc_zero_witness :
  os_calloc 24 4096 (2 ^ 40) 8 (2 ^ 32) 0 16 sample_heap
  = Done (0, sample_heap) /\
  os_calloc 24 4096 (2 ^ 40) 8 (2 ^ 32) (2 ^ 32) (2 ^ 32) sample_heap
  = Done (0, sample_heap).
Proof.
  destruct (calloc_zero 24 4096 (2 ^ 40) sample_heap 8 (2 ^ 32) 0 16
              eq_refl) as (_ & Hzero).
  destruct (calloc_zero 24 4096 (2 ^ 40) sample_heap 8 (2 ^ 32) (2 ^ 32)
              (2 ^ 32) eq_refl) as (Hwrap & _).
  split; [apply Hzero; now left | apply Hwrap; reflexivity].
Defined.

(** C2, counterexample: after [malloc(100)] on a fresh allocator the heap
    list is not a block of 104 bytes followed by a FREE block of
    [131072 - META_SIZE - 104] bytes; for both header layouts. *)
Lemma first_malloc_tail_is_smaller :
  Forall
    (fun h =>
       ~ exists p st',
           os_malloc h (2 ^ 40) 8 (2 ^ 32) 100 fresh = Done (p, st') /\
           walk_heap 8 (heap_start st') st'
           = [(104, STATUS_ALLOC);
              (131072 - META_SIZE h - 104, STATUS_FREE)])
    header_sizes.
Proof.
  repeat constructor; intros (p & st' & E & W); vm_compute in E;
    injection E as <- <-; vm_compute in W; discriminate W.
Qed.

Lemma split_block_surplus_witness :
  mem (split_block 24 4224 128 sample_heap) 4352
  = mk_block (130920 - 128) STATUS_FREE 0 /\
  exists st',
    os_malloc 24 (2 ^ 40) 8 (2 ^ 32) 100 fresh = Done (4096 + META_SIZE 24, st')
    /\ walk_heap 9 (heap_start st') st'
       = [(104, STATUS_ALLOC);
          (INITIAL_HEAP_SIZE - 2 * META_SIZE 24 - 104, STATUS_FREE)].
Proof.
  destruct (split_block_surplus 24 (2 ^ 40) ltac:(lia) ltac:(lia))
    as (Hsplit & Hfirst).
  split.
  - destruct (Hsplit sample_heap 4224 128) as (Hnew & _).
    + vm_compute. split; intro H; discriminate H.
    + reflexivity.
    + exact Hnew.
  - destruct (Hfirst 4096 blank_memory 8%nat (2 ^ 32))
      as (st' & E & _ & W & _).
    + lia.
    + vm_compute. discriminate.
    + lia.
    + exists st'. split; [exact E | exact W].
Defined.

Lemma find_best_fit_smallest_earliest_witness :
  best_fit_scenario 24 (2 ^ 40) 8 (2 ^ 32) fresh
  = Done (4096 + META_SIZE 24, 4096 + META_SIZE 24) /\
  exists r last' st',
    find_best_fit 24 8 0 (heap_start sample_heap) 128 sample_heap
    = Done (r, last', st').
Proof.
  destruct (find_best_fit_smallest_earliest 24 (2 ^ 40) ltac:(lia) ltac:(lia))
    as (Hsearch & Hscenario).
  split.
  - apply Hscenario; [lia | vm_compute; discriminate | lia].
  - destruct (Hsearch sample_heap _ 128 8%nat 0 sample_heap_repr)
      as (r & last' & st' & E & _).
    + simpl. lia.
    + exists r, last', st'. exact E.
Defined.

(** C4, counterexample: after [A = malloc(100)], [B = malloc(100)],
    [C = malloc(100)], [free(A)], [free(B)] on a fresh allocator the heap
    list starts with two FREE blocks; and after [A = malloc(100)],
    [realloc(A, 8)] the FREE block split off [A] is directly before the
    FREE rest of the heap; for both header layouts. *)
Lemma adjacent_free_blocks_after_frees :
  Forall
    (fun h =>
       ~ forall st,
           free_in_address_order h (2 ^ 40) 8 (2 ^ 32) fresh = Done st ->
           no_adjacent_free (walk_heap 8 (heap_start st) st))
    header_sizes /\
  Forall
    (fun h =>
       ~ forall st,
           shrink_scenario h (2 ^ 40) 8 (2 ^ 32) fresh = Done st ->
           no_adjacent_free (walk_heap 8 (heap_start st) st))
    header_sizes.
Proof.
  split; repeat constructor; intros H;
    match type of H with
    | forall st, ?run = _ -> _ =>
        let r := eval vm_compute in run in
        match r with
        | Done ?s =>
            assert (E : run = Done s) by (vm_compute; reflexivity);
            specialize (H s E); vm_compute in H; exact H
        end
    end.
Qed.

Lemma coalescing_after_malloc_and_free_witness :
  (exists p st' bl',
      os_malloc 24 (2 ^ 40) 8 (2 ^ 32) 100 sample_heap = Done (p, st') /\
      walk_heap 9 (heap_start st') st' = bl' /\ no_adjacent_free bl') /\
  (exists p st' bl',
      os_calloc 24 4096 (2 ^ 40) 8 (2 ^ 32) 10 10 sample_heap
      = Done (p, st') /\
      walk_heap 9 (heap_start st') st' = bl' /\ no_adjacent_free bl') /\
  (exists st' l1 s l2,
      os_free 24 8 4120 sample_heap = Done st' /\
      walk_heap 8 (heap_start st') st' = l1 ++ (s, STATUS_FREE) :: l2 /\
      head_not_free l2).
Proof.
  destruct (coalescing_after_malloc_and_free 24 4096 (2 ^ 40) ltac:(lia)
              ltac:(lia) sample_heap _ 8 sample_heap_repr)
    as (Hmalloc & Hcalloc & Hfree).
  - simpl. lia.
  - split; [| split].
    + destruct (Hmalloc 100 (2 ^ 32)) as (p & st' & bl' & E & _ & W & N).
      * reflexivity.
      * vm_compute. split; [reflexivity | discriminate].
      * vm_compute. discriminate.
      * exists p, st', bl'. repeat split; assumption.
    + destruct (Hcalloc 10 10 (2 ^ 32)) as (p & st' & bl' & E & _ & W & N).
      * vm_compute. split; [reflexivity | discriminate].
      * vm_compute. reflexivity.
      * vm_compute. discriminate.
      * exists p, st', bl'. repeat split; assumption.
    + destruct (Hfree 4120) as (st' & l1 & s & l2 & E & _ & W & _ & N).
      * reflexivity.
      * exists st', l1, s, l2. repeat split; assumption.
Defined.

(** C9, counterexample: [free(malloc(100))] changes the number of blocks of
    the heap list, on a fresh allocator (from none to one) and after
    [free_in_address_order] (the two leading FREE blocks become one); for
    both header layouts. *)
Lemma free_malloc_changes_block_count :
  Forall
    (fun h =>
       ~ ((forall p s1 s2,
             free_malloc h (2 ^ 40) 8 (2 ^ 32) 100 fresh = Done (p, s1, s2) ->
             length (walk_heap 8 (heap_start s2) s2)
             = length (walk_heap 8 (heap_start fresh) fresh)) \/
          (forall st p s1 s2,
             free_in_address_order h (2 ^ 40) 8 (2 ^ 32) fresh = Done st ->
             free_malloc h (2 ^ 40) 8 (2 ^ 32) 100 st = Done (p, s1, s2) ->
             length (walk_heap 8 (heap_start s2) s2)
             = length (walk_heap 8 (heap_start st) st))))
    header_sizes.
Proof.
  repeat constructor; intros [H | H].
  all: match type of H with
       | forall p s1 s2, ?run = _ -> _ =>
           let r := eval vm_compute in run in
           match r with
           | Done (?p, ?s1, ?s2) =>
               assert (E : run = Done (p, s1, s2))
                 by (vm_compute; reflexivity);
               specialize (H p s1 s2 E); vm_compute in H; discriminate H
           end
       | forall st p s1 s2, ?pre = _ -> _ =>
           let r := eval vm_compute in pre in
           match r with
           | Done ?s =>
               assert (E : pre = Done s) by (vm_compute; reflexivity);
               specialize (H s);
               match type of H with
               | forall p s1 s2, _ -> ?run = _ -> _ =>
                   let r2 := eval vm_compute in run in
                   match r2 with
                   | Done (?p, ?s1, ?s2) =>
                       assert (E2 : run = Done (p, s1, s2))
                         by (vm_compute; reflexivity);
                       specialize (H p s1 s2 E E2); vm_compute in H;
                       discriminate H
                   end
               end
           end
       end.
Qed.

Lemma free_malloc_round_trip_witness :
  exists p st1 st2,
    os_malloc 24 (2 ^ 40) 8 (2 ^ 32) 100 sample_heap = Done (p, st1) /\
    os_free 24 8 p st1 = Done st2 /\
    length (walk_heap 8 (heap_start st2) st2)
    = length (walk_heap 8 (heap_start sample_heap) sample_heap) /\
    free_bytes (walk_heap 8 (heap_start st2) st2)
    = free_bytes (walk_heap 8 (heap_start sample_heap) sample_heap).
Proof.
  destruct (free_malloc_round_trip 24 (2 ^ 40) ltac:(lia) ltac:(lia)
              sample_heap _ 8 100 (2 ^ 32) sample_heap_repr)
    as (p & st1 & st2 & E1 & E2 & _ & _ & Hl & Hf).
  - simpl. exact I.
  - apply Exists_cons_tl. apply Exists_cons_hd.
    split; [reflexivity | vm_compute; discriminate].
  - reflexivity.
  - vm_compute. split; [reflexivity | discriminate].
  - vm_compute. discriminate.
  - simpl. lia.
  - exists p, st1, st2. repeat split; assumption.
Defined.

(** ** Two defects *)

(** C1: [realloc] of the last block [B] when the block before it is FREE.
    In the state [s4] before the call, [B] is on the heap list, ALLOC and
    last, and no block can hold 50000 bytes.  The call extends the heap and
    returns [B]'s payload pointer; but the search has merged [B] into the
    FREE block before it: [B]'s header keeps its old size, is left FREE and
    is no longer met from [heap_start], and the 50000 bytes from the
    returned pointer end above the new break.  For both header layouts. *)
Theorem realloc_tail_extension_misses_block :
  Forall
    (fun h =>
       exists b s4 r s5,
         realloc_tail_scenario h (2 ^ 40) 8 (2 ^ 32) fresh
         = Done (b, s4, r, s5) /\
         find_block_in_heap 8 (get_block_ptr h b) s4
         = Done (get_block_ptr h b) /\
         status (mem s4 (get_block_ptr h b)) = STATUS_ALLOC /\
         next (mem s4 (get_block_ptr h b)) = 0 /\
         brk s4 < brk s5 /\
         r = b /\
         status (mem s5 (get_block_ptr h b)) = STATUS_FREE /\
         size (mem s5 (get_block_ptr h b))
         = size (mem s4 (get_block_ptr h b)) /\
         find_block_in_heap 8 (get_block_ptr h b) s5 = Done 0 /\
         brk s5 < b + 50000)
    header_sizes.
Proof.
  repeat constructor;
    (eexists _, _, _, _; split; [vm_compute; reflexivity |]);
    vm_compute; repeat split; discriminate.
Qed.

Lemma coalesce_blocks_self_loop (h : Z) (fuel : nat) :
  forall st a,
    a <> 0 -> status (mem st a) = STATUS_FREE -> next (mem st a) = a ->
    coalesce_blocks h fuel a st = Timeout.
Proof.
  induction fuel as [| f IH]; intros st a Ha Hs Hn; [reflexivity |].
  assert (Hc : can_coalesce_one_block a st = true).
  { unfold can_coalesce_one_block. rewrite Hn, Hs.
    apply Z.eqb_neq in Ha. now rewrite Ha. }
  simpl. rewrite Hc. apply IH; [exact Ha | |];
    unfold coalesce_one_block; rewrite Hc, Hn;
    unfold set_next, set_size, set_mem, upd; cbn;
    rewrite !Z.eqb_refl; cbn; assumption.
Qed.

Lemma malloc_on_self_loop (h limit : Z) (st : state) :
  heap_start st <> 0 ->
  status (mem st (heap_start st)) = STATUS_FREE ->
  next (mem st (heap_start st)) = heap_start st ->
  forall fuel addr n,
    (n <=? 0) = false ->
    (TOT_SIZE h (ALIGN n) <? threshold st) = true ->
    os_malloc h limit fuel addr n st = Timeout.
Proof.
  intros Hh Hs Hn fuel addr n Hpos Hsmall.
  unfold os_malloc. rewrite Hpos, Hsmall. unfold os_malloc_sbrk.
  apply Z.eqb_neq in Hh as Hh'. rewrite Hh'. cbn [bind].
  unfold find_best_fit. destruct fuel as [| f]; [reflexivity |].
  simpl. rewrite Hh'.
  now rewrite coalesce_blocks_self_loop.
Qed.

(** C5: [malloc(2^64 - META_SIZE)] on a fresh allocator.  The total size
    wraps to zero, the request is taken for a small one, and splitting the
    initial block at offset zero leaves a header whose [next] is itself: the
    walk from [heap_start] does not move to a higher address, and the search
    of a later [malloc(100)] does not end, whatever the fuel.  For both
    header layouts. *)
Theorem huge_malloc_breaks_adjacency :
  Forall
    (fun h =>
       exists p st',
         os_malloc h (2 ^ 40) 8 (2 ^ 32) (wB - META_SIZE h) fresh
         = Done (p, st') /\
         heap_start st' <> 0 /\
         next (mem st' (heap_start st')) = heap_start st' /\
         TOT_SIZE h (size (mem st' (heap_start st'))) = 0 /\
         forall fuel, os_malloc h (2 ^ 40) fuel (2 ^ 32) 100 st' = Timeout)
    header_sizes.
Proof.
  repeat constructor;
    (eexists _, _; split; [vm_compute; reflexivity |]);
    (split; [vm_compute; discriminate |]);
    (split; [vm_compute; reflexivity |]);
    (split; [vm_compute; reflexivity |]);
    intros fuel; apply malloc_on_self_loop;
    vm_compute; try reflexivity; discriminate.
Qed.

(** * Instances of the properties of the entry points *)

Ltac conc_atom :=
  first [reflexivity | let H := fresh in intro H; discriminate H].

Ltac conc :=
  first
    [ reflexivity
    | lia
    | simpl; lia
    | vm_compute; first [conc_atom | split; conc_atom]
    | vm_compute; let H := fresh in intros [H | [H | []]]; discriminate H ].

Lemma full_heap_repr :
  heap_repr (META_SIZE 24) (2 ^ 40) full_heap
    [(104, STATUS_ALLOC); (200, STATUS_ALLOC)].
Proof.
  unfold heap_repr. split; [vm_compute; split; [reflexivity | discriminate] |].
  split.
  - repeat constructor; simpl; try lia; discriminate.
  - split; [reflexivity |]. vm_compute. repeat split.
Defined.

Lemma sample_mapped_path :
  heap_path (mem sample_mapped) (mmap_start sample_mapped)
    ([8589934592] ++ 17179869184 :: []).
Proof. vm_compute. repeat split; intro H; discriminate H. Defined.

Lemma sample_mapped_nodup : NoDup ([8589934592] ++ 17179869184 :: []).
Proof.
  apply NoDup_cons; [intros [H | []]; discriminate H |].
  apply NoDup_cons; [intros [] | apply NoDup_nil].
Defined.

Lemma malloc_gives_unused_block_witness :
  exists p st',
    os_malloc 24 (2 ^ 40) 8 (2 ^ 32) 100 sample_heap = Done (p, st') /\
    status (mem st' (get_block_ptr 24 p)) = STATUS_ALLOC.
Proof.
  destruct (malloc_gives_unused_block 24 (2 ^ 40) ltac:(lia) ltac:(lia)
              sample_heap _ 100 (2 ^ 32) 8 sample_heap_repr)
    as (p & st' & bl' & s' & E & _ & _ & _ & _ & _ & Hst & _); [conc .. |].
  exists p, st'. split; assumption.
Defined.

Lemma free_releases_one_block_witness :
  exists st',
    os_free 24 8 4120 sample_heap = Done st' /\
    status (mem st' (get_block_ptr 24 4120)) = STATUS_FREE.
Proof.
  destruct (free_releases_one_block 24 (2 ^ 40) ltac:(lia) ltac:(lia)
              sample_heap _ 4120 (104, STATUS_ALLOC) 8 sample_heap_repr)
    as (st' & s' & E & _ & _ & _ & Hst & _); [conc .. |].
  exists st'. split; assumption.
Defined.

Lemma double_free_is_harmless_witness :
  exists st1 st2,
    os_free 24 8 4120 sample_heap = Done st1 /\
    os_free 24 8 4120 st1 = Done st2.
Proof.
  destruct (double_free_is_harmless 24 (2 ^ 40) ltac:(lia) ltac:(lia)
              sample_heap _ 4120 (104, STATUS_ALLOC) 8 sample_heap_repr)
    as (st1 & st2 & bl' & E1 & E2 & _); [conc .. |].
  exists st1, st2. split; assumption.
Defined.

Lemma find_block_in_heap_membership_witness :
  find_block_in_heap 8 4224 sample_heap = Done 4224.
Proof.
  apply (proj1 (find_block_in_heap_membership 24 (2 ^ 40) ltac:(lia)
                  sample_heap _ 4224 8 sample_heap_repr ltac:(simpl; lia))).
  reflexivity.
Defined.

Lemma find_best_fit_last_block_witness :
  exists r last' st',
    find_best_fit 24 8 0 (heap_start sample_heap) 64 sample_heap
    = Done (r, last', st') /\
    next (mem st' last') = 0.
Proof.
  destruct (find_best_fit_last_block 24 (2 ^ 40) ltac:(lia) ltac:(lia)
              sample_heap _ 64 0 8 sample_heap_repr)
    as (r & last' & st' & E & _ & Hn & _); [conc .. |].
  exists r, last', st'. split; assumption.
Defined.

Lemma threshold_between_calls_witness :
  exists p st',
    os_malloc 24 (2 ^ 40) 8 (2 ^ 32) 100 sample_heap = Done (p, st') /\
    threshold st' = threshold sample_heap.
Proof.
  destruct (os_malloc_heap 24 (2 ^ 40) ltac:(lia) ltac:(lia)
              sample_heap _ 100 (2 ^ 32) 8 sample_heap_repr)
    as (st' & E & _); [conc .. |].
  eexists _, st'. split; [exact E |].
  exact (proj1 (threshold_between_calls 24 4096 (2 ^ 40) sample_heap st' 8
                  (2 ^ 32)) _ _ E).
Defined.

Lemma mapped_malloc_free_round_trip_witness :
  exists st1 st2,
    os_malloc 24 (2 ^ 40) 8 (2 ^ 32) 200000 fresh
    = Done (2 ^ 32 + META_SIZE 24, st1) /\
    os_free 24 8 (2 ^ 32 + META_SIZE 24) st1 = Done st2 /\
    maps st2 = maps fresh.
Proof.
  destruct (mapped_malloc_free_round_trip 24 (2 ^ 40) ltac:(lia) fresh 8
              (2 ^ 32) 200000)
    as (st1 & st2 & E1 & _ & E2 & _ & Hm & _); [conc .. |].
  exists st1, st2. split; [exact E1 | split; assumption].
Defined.

Lemma free_of_unlisted_mapped_pointer_witness :
  readable 24 sample_mapped (get_block_ptr 24 (8589935616 + 24)) = true /\
  os_free 24 8 (8589935616 + 24) sample_mapped = Done sample_mapped.
Proof.
  split; [vm_compute; reflexivity |].
  apply (free_of_unlisted_mapped_pointer 24 sample_mapped
           [8589934592; 17179869184] 8 (8589935616 + 24)).
  - conc.
  - vm_compute. reflexivity.
  - repeat constructor.
  - conc.
  - exact sample_mapped_path.
  - conc.
  - conc.
Defined.

Lemma free_unlinks_mapped_block_witness :
  exists st',
    os_free 24 8 (17179869184 + META_SIZE 24) sample_mapped = Done st' /\
    heap_path (mem st') (mmap_start st') ([8589934592] ++ []).
Proof.
  destruct (free_unlinks_mapped_block 24 sample_mapped [8589934592] []
              17179869184 8)
    as (st' & E & Hp & _);
    [first [exact sample_mapped_path | exact sample_mapped_nodup | conc] .. |].
  exists st'. split; assumption.
Defined.

Lemma realloc_in_place_witness :
  exists st',
    os_realloc 24 (2 ^ 40) 8 (2 ^ 32) 4120 200 sample_heap
    = Done (4120, st').
Proof.
  destruct (realloc_in_place 24 (2 ^ 40) ltac:(lia) ltac:(lia)
              sample_heap _ [(200, STATUS_ALLOC); (130824, STATUS_FREE)]
              4120 200 104 (2 ^ 32) 8 sample_heap_repr)
    as (st' & s' & E & _); [conc .. |].
  exists st'. exact E.
Defined.

Lemma realloc_shrink_keeps_pointer_witness :
  exists st',
    os_realloc 24 (2 ^ 40) 8 (2 ^ 32) 4120 50 sample_heap
    = Done (4120, st').
Proof.
  destruct (realloc_shrink_keeps_pointer 24 (2 ^ 40) ltac:(lia) ltac:(lia)
              sample_heap _ 4120 50 104 (2 ^ 32) 8 sample_heap_repr)
    as (st' & E & _); [conc .. |].
  exists st'. exact E.
Defined.

Lemma calloc_maps_from_page_size_witness :
  exists st',
    os_calloc 24 4096 (2 ^ 40) 8 (2 ^ 32) 100 50 fresh
    = Done (2 ^ 32 + META_SIZE 24, st') /\
    threshold st' = MMAP_THRESHOLD.
Proof.
  destruct (calloc_maps_from_page_size 24 4096 (2 ^ 40) ltac:(lia) fresh
              100 50 (2 ^ 32) 8)
    as (st' & E & _ & _ & _ & _ & Hth & _); [conc .. |].
  exists st'. split; assumption.
Defined.

Lemma calloc_below_page_size_on_heap_witness :
  exists p st',
    os_calloc 24 4096 (2 ^ 40) 8 (2 ^ 32) 10 10 sample_heap = Done (p, st') /\
    threshold st' = MMAP_THRESHOLD.
Proof.
  destruct (calloc_below_page_size_on_heap 24 4096 (2 ^ 40) ltac:(lia)
              ltac:(lia) sample_heap _ 10 10 (2 ^ 32) 8 sample_heap_repr)
    as (st' & E & _ & Hth & _); [conc .. |].
  eexists _, st'. split; [exact E | exact Hth].
Defined.

Lemma realloc_moves_heap_block_to_mapping_witness :
  exists st',
    os_realloc 24 (2 ^ 40) 8 (2 ^ 32) 4120 200000 sample_heap
    = Done (2 ^ 32 + META_SIZE 24, st') /\
    mmap_start st' = 2 ^ 32.
Proof.
  destruct (realloc_moves_heap_block_to_mapping 24 (2 ^ 40) ltac:(lia)
              ltac:(lia) sample_heap _ 4120 200000 104 (2 ^ 32) 8
              sample_heap_repr)
    as (st' & E & _ & Hms & _);
    [first [conc | right; conc] .. |].
  exists st'. split; assumption.
Defined.

Lemma realloc_of_mapped_block_witness :
  exists st',
    os_realloc 24 (2 ^ 40) 8 (2 ^ 32) (17179869184 + META_SIZE 24) 500000
      sample_mapped
    = Done (2 ^ 32 + META_SIZE 24, st') /\
    mmap_start st' = 2 ^ 32.
Proof.
  destruct (realloc_of_mapped_block 24 (2 ^ 40) ltac:(lia) sample_mapped
              [8589934592] [] 17179869184 500000 (2 ^ 32) 8)
    as (st' & E & Hms & _);
    [first [exact sample_mapped_path | exact sample_mapped_nodup | conc] .. |].
  exists st'. split; assumption.
Defined.

Lemma os_failure_ends_the_process_witness :
  os_malloc 24 (2 ^ 40) 8 MAP_FAILED 200000 fresh = Died /\
  os_malloc 24 5000 8 (2 ^ 32) 100 fresh = Died.
Proof.
  split.
  - apply (proj1 (os_failure_ends_the_process 24 (2 ^ 40) ltac:(lia) fresh
                    200000 0 8 ltac:(conc))).
    conc.
  - apply (proj2 (os_failure_ends_the_process 24 5000 ltac:(lia) fresh
                    100 (2 ^ 32) 8 ltac:(conc))); conc.
Defined.

Lemma realloc_extends_last_block_witness :
  exists st',
    os_realloc 24 (2 ^ 40) 8 (2 ^ 32) 4248 1000 full_heap
    = Done (4248, st') /\
    brk st' = 5248.
Proof.
  destruct (realloc_extends_last_block 24 (2 ^ 40) ltac:(lia) ltac:(lia)
              full_heap _ 4248 1000 200 (2 ^ 32) 8 full_heap_repr)
    as (st' & bl' & E & _ & _ & Hb & _); [conc .. |].
  exists st'. split; [exact E | exact Hb].
Defined.

Lemma malloc_reuses_before_extending_witness :
  exists p st',
    os_malloc 24 (2 ^ 40) 8 (2 ^ 32) 100 sample_heap = Done (p, st') /\
    brk st' = brk sample_heap.
Proof.
  destruct (malloc_reuses_before_extending 24 (2 ^ 40) ltac:(lia) ltac:(lia)
              sample_heap _ 100 (2 ^ 32) 8 sample_heap_repr)
    as (p & st' & E & _ & Hsame & _);
    [first [conc | intro H; discriminate H | intros _; conc] .. |].
  exists p, st'. split; [exact E |]. apply Hsame.
  vm_compute. intro H. discriminate H.
Defined.

Lemma packed_heap_repr :
  heap_repr (META_SIZE 24) (2 ^ 40) packed_heap
    [(104, STATUS_ALLOC); (40, STATUS_FREE); (200, STATUS_ALLOC)].
Proof.
  unfold heap_repr. split; [vm_compute; split; [reflexivity | discriminate] |].
  split.
  - repeat constructor; simpl; try lia; discriminate.
  - split; [reflexivity |]. vm_compute. repeat split.
Defined.

Lemma realloc_moves_inner_block_witness :
  exists p st',
    os_realloc 24 (2 ^ 40) 8 (2 ^ 32) 4120 1000 packed_heap = Done (p, st') /\
    p <> 4120.
Proof.
  destruct (realloc_moves_inner_block 24 (2 ^ 40) ltac:(lia) ltac:(lia)
              packed_heap _
              [(104, STATUS_ALLOC); (40, STATUS_FREE); (200, STATUS_ALLOC)]
              4120 1000 104 (2 ^ 32) 8 packed_heap_repr)
    as (p & st' & bl' & s' & s'' & E & _ & Hne & _);
    [first [conc | intros _; conc] .. |].
  exists p, st'. split; assumption.
Defined.
